(** * Shard allocation of open_lm (src/open_lm/file_utils.py)

    A shallow embedding of the manifest reader, the shard allocator
    ([_single_epoch_string]), the worker projection and the checkpoint
    pre-count ([log_num_checkpoints]), followed by the properties the
    specification states about them; then the chunking of a manifest
    ([get_shards_for_chunk]), [source_exhausted] and the remote sync through
    fsspec, with further properties of the code.

    Conventions of the embedding:
    - a Python [int] is a [Z]; [//] and [%] are [Z.div] and [Z.modulo], which
      round as Python does, with the division by zero raised explicitly;
    - a Python [float] is a binary64 [float] of the kernel;
    - a Python exception is a value [Raise e] of [result];
    - list indexing and slicing follow Python for negative and out-of-range
      indices;
    - an [assert] is checked (the interpreter runs without [-O]);
    - [logging] calls that do not influence control flow are left out, except
      the final warning of [log_num_checkpoints];
    - the integers numpy holds are int64: their sums and products are taken
      modulo [2^64]; where numpy is handed a Python integer that does not
      fit 64 bits the model stops with [OutsideInt64];
    - [json.loads], [braceexpand], [pathlib] and [is_master] are not part of
      the file: they are variables of the development. *)

From Stdlib Require Import ZArith QArith List String Ascii Floats Lia.
From stdpp Require Import base option list strings gmap.

Open Scope Z_scope.

(** ** Exceptions and results *)

(** The exceptions of Python that the code can raise. [OutsideInt64] is not
    one of them: it ends a computation of the model in which numpy meets a
    Python integer outside the range of int64. numpy then leaves the int64
    dtype (for uint64, float64 or object) or raises, by its version; the
    model does not follow it there. *)
Inductive exn : Type :=
| FileNotFoundError
| JSONDecodeError
| KeyError
| IndexError
| ValueError
| AssertionError
| ZeroDivisionError
| OverflowError
| TypeError
| NotImplementedError
| OutsideInt64.

(** [OutOfFuel] is not a Python outcome: it marks a loop of the model that was
    cut off before the Python loop would have ended. *)
Inductive result (A : Type) : Type :=
| Ok (a : A)
| Raise (e : exn)
| OutOfFuel.

Arguments Ok {A} a.
Arguments Raise {A} e.
Arguments OutOfFuel {A}.

Definition bind {A B} (r : result A) (k : A -> result B) : result B :=
  match r with
  | Ok a => k a
  | Raise e => Raise e
  | OutOfFuel => OutOfFuel
  end.

Notation "x <- r ;; k" := (bind r (fun x => k))
  (at level 100, r at next level, right associativity, only parsing).

(** [[f(x) for x in l]] where [f] may raise: the first failure wins. *)
Fixpoint mapM {A B} (f : A -> result B) (l : list A) : result (list B) :=
  match l with
  | [] => Ok []
  | x :: l' => y <- f x ;; ys <- mapM f l' ;; Ok (y :: ys)
  end.

(** [for x in l: body] over a threaded state. *)
Fixpoint foldM {A S} (body : S -> A -> result S) (l : list A) (s : S) : result S :=
  match l with
  | [] => Ok s
  | x :: l' => s' <- body s x ;; foldM body l' s'
  end.

(** ** Python lists *)

Definition len {A} (l : list A) : Z := Z.of_nat (length l).

(** [range(n)] *)
Definition range (n : Z) : list Z := Z.of_nat <$> seq 0 (Z.to_nat n).

(** [l[i]] *)
Definition py_index {A} (l : list A) (i : Z) : result A :=
  let j := if i <? 0 then i + len l else i in
  if j <? 0 then Raise IndexError
  else match l !! Z.to_nat j with
       | Some x => Ok x
       | None => Raise IndexError
       end.

(** [l[i] = x] *)
Definition py_setitem {A} (l : list A) (i : Z) (x : A) : result (list A) :=
  let j := if i <? 0 then i + len l else i in
  if j <? 0 then Raise IndexError
  else if j <? len l then Ok (<[Z.to_nat j := x]> l)
  else Raise IndexError.

(** [l[:k]] *)
Definition py_slice_to {A} (l : list A) (k : Z) : list A :=
  take (Z.to_nat (if k <? 0 then k + len l else k)) l.

(** [sum(l)] over integers *)
Definition sum (l : list Z) : Z := fold_left Z.add l 0.

(** [a // b] *)
Definition floordiv (a b : Z) : result Z :=
  if b =? 0 then Raise ZeroDivisionError else Ok (a / b).

(** [a % b] *)
Definition pymod (a b : Z) : result Z :=
  if b =? 0 then Raise ZeroDivisionError else Ok (a mod b).

(** [max(l)] *)
Definition py_max (l : list Z) : result Z :=
  match l with
  | [] => Raise ValueError
  | x :: l' => Ok (fold_left Z.max l' x)
  end.

(** ** Python strings *)

Definition slash : ascii := "/"%char.
Definition newline : ascii := "010"%char.

(** [s.split(sep)] for a separator of one character *)
Fixpoint split_on (sep : ascii) (s : string) : list string :=
  match s with
  | EmptyString => [EmptyString]
  | String c s' =>
      if Ascii.eqb c sep then EmptyString :: split_on sep s'
      else match split_on sep s' with
           | [] => [String c EmptyString]
           | w :: ws => String c w :: ws
           end
  end.

(** [sep.join(l)] *)
Fixpoint join (sep : string) (l : list string) : string :=
  match l with
  | [] => EmptyString
  | x :: l' =>
      match l' with
      | [] => x
      | _ :: _ => x +:+ sep +:+ join sep l'
      end
  end.

(** ** Python floats *)

(** [float(n)]: the conversion rounds to nearest, and overflows above the
    largest binary64 number. *)
Definition float_of_int (n : Z) : result float :=
  let f := SF2Prim (binary_normalize prec emax n 0 false) in
  match Prim2SF f with
  | S754_infinity _ => Raise OverflowError
  | _ => Ok f
  end.

(** [a / b] on floats *)
Definition float_div (a b : float) : result float :=
  if PrimFloat.eqb b 0%float then Raise ZeroDivisionError
  else Ok (PrimFloat.div a b).

(** [sum(l)] over floats: [0 + l[0] + l[1] + ...], added left to right and
    rounded at every step (CPython since 3.12 compensates the rounding
    errors of the partial sums, which can move the last bit). *)
Definition float_sum (l : list float) : float :=
  fold_left PrimFloat.add l 0%float.

(** [int(np.ceil(x))] *)
Definition int_ceil (x : float) : result Z :=
  match Prim2SF x with
  | S754_zero _ => Ok 0
  | S754_finite s m e =>
      let n := if s then Z.neg m else Z.pos m in
      Ok (if 0 <=? e then n * 2 ^ e else - ((- n) / 2 ^ (- e)))
  | S754_infinity _ => Raise OverflowError
  | S754_nan => Raise ValueError
  end.

(** ** Manifests *)

(** One decoded manifest line: the members of the JSON object that the code
    reads, [None] when the key is absent. The manifest format has a string
    under "shard" and an integer under "num_sequences" or "num_chunks". *)
Record manifest_record : Type := {
  shard : option string;
  num_sequences : option Z;
  num_chunks : option Z
}.

(** [m["shard"]] *)
Definition record_shard (m : manifest_record) : result string :=
  match shard m with
  | Some s => Ok s
  | None => Raise KeyError
  end.

(** The lookup every consumer of a manifest repeats:
    [try: m["num_sequences"] except KeyError: m["num_chunks"]]. *)
Definition record_num_samples (m : manifest_record) : result Z :=
  match num_sequences m with
  | Some n => Ok n
  | None =>
      match num_chunks m with
      | Some n => Ok n
      | None => Raise KeyError
      end
  end.

(** The heap of the lists of integers that a caller and the allocator can
    share, by location (see the allocator on shared lists below). *)
Abbreviation loc := nat (only parsing).
Abbreviation heap := (gmap nat (list Z)) (only parsing).

Section FileUtils.

(** The environment of the module: the files [fsspec.open] can reach, by path,
    with their content decoded as UTF-8 text, and the decoder [json.loads]. *)
Variable fs : string -> option string.
Variable json_loads : string -> option manifest_record.

Definition read_text (path : string) : result string :=
  match fs path with
  | Some text => Ok text
  | None => Raise FileNotFoundError
  end.

Definition loads (line : string) : result manifest_record :=
  match json_loads line with
  | Some m => Ok m
  | None => Raise JSONDecodeError
  end.

(** The segments [out.decode("utf-8").split("\n")[:-1]]. *)
Definition manifest_lines (text : string) : list string :=
  py_slice_to (split_on newline text) (-1).

(** [get_metadata_file], lines 132-137 *)
Definition get_metadata_file (path : string) : result (list manifest_record) :=
  text <- read_text path ;;
  mapM loads (manifest_lines text).

(** [convert_metadata_to_dict], lines 140-147. The bare [except] also catches
    the [KeyError] of a missing "shard", and then raises it again. *)
Definition convert_metadata_to_dict (manifest : list manifest_record)
  : result (gmap string Z) :=
  foldM (fun (manifest_dict : gmap string Z) m =>
           match shard m, num_sequences m with
           | Some s, Some n => Ok (<[s := n]> manifest_dict)
           | _, _ =>
               s <- record_shard m ;;
               match num_chunks m with
               | Some n => Ok (<[s := n]> manifest_dict)
               | None => Raise KeyError
               end
           end)
        manifest ∅.

(** The loop shared by the two diagnostics: the sample count of every shard. *)
Definition shard_sizes (data : list manifest_record) : result (list Z) :=
  mapM record_num_samples data.

(** [enough_shards], lines 186-190 *)
Fixpoint enough_shards (shard_lists : list (list string)) (min_shards_needed : Z) : bool :=
  match shard_lists with
  | [] => true
  | sl :: rest =>
      if len sl <? min_shards_needed then false
      else enough_shards rest min_shards_needed
  end.

(** [enough_samples], lines 193-197: [needed_samples_per_source[i]] is read in
    step with the enumeration. *)
Fixpoint enough_samples (num_samples_per_source : list (list Z))
    (needed_samples_per_source : list Z) : result bool :=
  match num_samples_per_source with
  | [] => Ok true
  | number_per_shard :: rest =>
      match needed_samples_per_source with
      | [] => Raise IndexError
      | needed :: needed_rest =>
          if sum number_per_shard <? needed then Ok false
          else enough_samples rest needed_rest
      end
  end.

(** The default [ratio=0.9] of [count_small_shards], as the binary64 number
    Python reads it. *)
Definition ratio_small_shards : float := 0x1.ccccccccccccdp-1%float.

(** [count_small_shards], lines 208-223, with [ratio] at its default 0.9: the
    sizes are compared as floats with [ratio * max(shard_sizes)]. *)
Definition count_small_shards (path : string) : result Z :=
  data <- get_metadata_file path ;;
  sizes <- shard_sizes data ;;
  largest <- py_max sizes ;;
  bound <- float_of_int largest ;;
  flags <- mapM (fun s => f <- float_of_int s ;;
                          Ok (PrimFloat.ltb f (PrimFloat.mul ratio_small_shards bound)))
                sizes ;;
  Ok (len (filter (fun b => b = true) flags)).

(** [are_sources_imbalanced_with_each_other], lines 226-239, as far as it can
    raise: every manifest is read and every count looked up. Its verdict, a
    comparison of medians, only selects a log message. *)
Definition are_sources_imbalanced_with_each_other (paths : list string) : result unit :=
  _ <- mapM (fun p => data <- get_metadata_file p ;; shard_sizes data) paths ;;
  Ok tt.

(** ** The shard allocator *)

(** [weights] after lines 430-431: uniform when [None] *)
Definition weights_or_uniform (weights : option (list float)) (num_sources : Z)
  : result (list float) :=
  match weights with
  | Some w => Ok w
  | None =>
      mapM (fun _ => n <- float_of_int num_sources ;; float_div 1%float n)
           (range num_sources)
  end.

(** One entry of line 435:
    [int(np.ceil(weights[i] * num_samples / sum(weights)))] *)
Definition needed_samples (weights : list float) (num_samples : Z) (i : Z) : result Z :=
  w <- py_index weights i ;;
  n <- float_of_int num_samples ;;
  q <- float_div (PrimFloat.mul w n) (float_sum weights) ;;
  int_ceil q.

Definition needed_samples_per_source (weights : list float) (num_samples num_sources : Z)
  : result (list Z) :=
  mapM (needed_samples weights num_samples) (range num_sources).

(** The three lists the allocator updates in place. *)
Record alloc_state : Type := {
  next_shard_per_source : list Z;
  shard_list_per_source : list (list string);
  num_samples_per_source : list (list Z)
}.

(** Lines 439-441 *)
Definition initial_state (starting_shard_per_source : list Z) (num_sources : Z)
  : alloc_state :=
  {| next_shard_per_source := starting_shard_per_source;
     shard_list_per_source := replicate (Z.to_nat num_sources) [];
     num_samples_per_source := replicate (Z.to_nat num_sources) [] |}.

(** The condition of the [while], line 444 *)
Definition keep_accumulating (needed : list Z) (total_num_workers : Z) (st : alloc_state)
  : result bool :=
  if enough_shards (shard_list_per_source st) total_num_workers
  then enough <- enough_samples (num_samples_per_source st) needed ;; Ok (negb enough)
  else Ok true.

(** The body of the inner [for], lines 450-459, for source [i]. The handler
    of lines 461-469 logs and raises the same [IndexError] again. *)
Definition add_shard (manifests : list (list manifest_record)) (st : alloc_state) (i : Z)
  : result alloc_state :=
  manifest <- py_index manifests i ;;
  next <- py_index (next_shard_per_source st) i ;;
  m <- py_index manifest next ;;
  shard_name <- record_shard m ;;
  num_samples_shard <- record_num_samples m ;;
  shard_list <- py_index (shard_list_per_source st) i ;;
  shard_lists <- py_setitem (shard_list_per_source st) i (shard_list ++ [shard_name]) ;;
  num_samples <- py_index (num_samples_per_source st) i ;;
  num_samples_lists <- py_setitem (num_samples_per_source st) i
                         (num_samples ++ [num_samples_shard]) ;;
  nexts <- py_setitem (next_shard_per_source st) i (next + 1) ;;
  Ok {| next_shard_per_source := nexts;
        shard_list_per_source := shard_lists;
        num_samples_per_source := num_samples_lists |}.

(** One pass of the [while] body: a shard of every source, lines 448-459. *)
Definition accumulate_round (manifests : list (list manifest_record)) (num_sources : Z)
    (st : alloc_state) : result alloc_state :=
  foldM (add_shard manifests) (range num_sources) st.

(** The [while] of lines 444-469. *)
Fixpoint accumulate (fuel : nat) (manifests : list (list manifest_record))
    (num_sources : Z) (needed : list Z) (total_num_workers : Z) (st : alloc_state)
  : result alloc_state :=
  match fuel with
  | O => OutOfFuel
  | S fuel' =>
      more <- keep_accumulating needed total_num_workers st ;;
      if more : bool
      then st' <- accumulate_round manifests num_sources st ;;
           accumulate fuel' manifests num_sources needed total_num_workers st'
      else Ok st
  end.

(** More rounds than the [while] can make: every round but the last moves the
    cursor of the first source one record further. *)
Definition rounds_bound (manifests : list (list manifest_record)) : nat :=
  S (S (2 * length (concat manifests))).

(** The body of the [for] of lines 471-484, for source [i]. *)
Definition truncate_source (starting_shard_per_source : list Z) (total_num_workers : Z)
    (st : alloc_state) (i : Z) : result alloc_state :=
  shard_list <- py_index (shard_list_per_source st) i ;;
  num_multiples <- floordiv (len shard_list) total_num_workers ;;
  let kept := py_slice_to shard_list (num_multiples * total_num_workers) in
  shard_lists <- py_setitem (shard_list_per_source st) i kept ;;
  num_samples <- py_index (num_samples_per_source st) i ;;
  num_samples_lists <- py_setitem (num_samples_per_source st) i
                         (py_slice_to num_samples (num_multiples * total_num_workers)) ;;
  start <- py_index starting_shard_per_source i ;;
  nexts <- py_setitem (next_shard_per_source st) i (start + len kept) ;;
  Ok {| next_shard_per_source := nexts;
        shard_list_per_source := shard_lists;
        num_samples_per_source := num_samples_lists |}.

Definition truncate (starting_shard_per_source : list Z) (total_num_workers num_sources : Z)
    (st : alloc_state) : result alloc_state :=
  foldM (truncate_source starting_shard_per_source total_num_workers)
        (range num_sources) st.

(** The shard string of one source, lines 490-497. *)
Definition shard_string (source_path : string) (shard_list_source : list string) : string :=
  let shard_root_source :=
    join "/" (py_slice_to (split_on slash source_path) (-1)) +:+ "/" in
  let shard_string_source :=
    match shard_list_source with
    | [only] => shard_root_source +:+ only +:+ ".tar"
    | _ => shard_root_source +:+ "{" +:+ join "," shard_list_source +:+ "}.tar"
    end in
  if String.prefix "s3" source_path
  then "pipe:aws s3 cp " +:+ shard_string_source +:+ " -"
  else shard_string_source.

(** The checks and warnings of lines 408-428: only their exceptions show. *)
Definition diagnostics (paths : list string) : result unit :=
  _ <- (if 1 <? len paths then are_sources_imbalanced_with_each_other paths else Ok tt) ;;
  _ <- mapM count_small_shards paths ;;
  Ok tt.

(** Lines 430-435: the weights, the assertion and the quotas. *)
Definition quotas (num_samples : Z) (weights : option (list float)) (num_sources : Z)
  : result (list Z) :=
  weights <- weights_or_uniform weights num_sources ;;
  if len weights =? num_sources
  then needed_samples_per_source weights num_samples num_sources
  else Raise AssertionError.

(** Lines 437-484 on given manifests and quotas: the state after the [while],
    then after the truncation. *)
Definition accumulated (needed : list Z) (starting_shard_per_source : list Z)
    (manifests : list (list manifest_record)) (num_sources total_num_workers : Z)
  : result alloc_state :=
  accumulate (rounds_bound manifests) manifests num_sources needed total_num_workers
             (initial_state starting_shard_per_source num_sources).

Definition committed (needed : list Z) (starting_shard_per_source : list Z)
    (manifests : list (list manifest_record)) (num_sources total_num_workers : Z)
  : result alloc_state :=
  st <- accumulated needed starting_shard_per_source manifests num_sources
                    total_num_workers ;;
  truncate starting_shard_per_source total_num_workers num_sources st.

(** Lines 406-484 of [_single_epoch_string]: everything before the strings. *)
Definition allocate (num_samples : Z) (starting_shard_per_source : list Z)
    (paths : list string) (weights : option (list float))
    (num_workers_per_gpu world_size : Z) : result alloc_state :=
  let num_sources := len paths in
  _ <- diagnostics paths ;;
  needed <- quotas num_samples weights num_sources ;;
  manifests <- mapM get_metadata_file paths ;;
  committed needed starting_shard_per_source manifests num_sources
            (num_workers_per_gpu * world_size).

(** [_single_epoch_string], lines 385-500 *)
Definition _single_epoch_string (num_samples : Z) (starting_shard_per_source : list Z)
    (paths : list string) (weights : option (list float))
    (num_workers_per_gpu world_size : Z)
  : result (list string * list Z * list Z) :=
  st <- allocate num_samples starting_shard_per_source paths weights
                 num_workers_per_gpu world_size ;;
  shard_strings <- mapM (fun i => source_path <- py_index paths i ;;
                                  shard_list <- py_index (shard_list_per_source st) i ;;
                                  Ok (shard_string source_path shard_list))
                        (range (len paths)) ;;
  Ok (shard_strings, sum <$> num_samples_per_source st, next_shard_per_source st).

(** [get_string_for_epoch], lines 325-338 *)
Definition get_string_for_epoch (num_samples : Z) (starting_points : list Z)
    (paths : list string) (weights : option (list float))
    (num_workers_per_gpu world_size : Z) (multi_epoch : bool)
  : result (list string * list Z * list Z) :=
  if multi_epoch then Raise NotImplementedError
  else _single_epoch_string num_samples starting_points paths weights
                            num_workers_per_gpu world_size.

(** ** The checkpoint pre-count *)

(** The fields of [args] that [log_num_checkpoints] reads; [rank] is what
    [is_master] looks at. *)
Record args : Type := {
  dataset_manifest : option (list string);
  train_num_samples : Z;
  train_data_mix_weights : option (list float);
  workers : Z;
  world_size : Z;
  global_batch_size : Z;
  seq_len : Z;
  epochs : Z;
  rank : Z
}.

(** [open_lm.distributed.is_master], and the shard ids that line 273 reads
    back from a shard string with [braceexpand] and [pathlib]. *)
Variable is_master : args -> bool.
Variable shard_ids_of_string : string -> list string.

(** *** numpy's integers

    [np.array] builds an int64 array from Python integers that all fit 64
    bits. The entries of such arrays and the scalars read from them are
    added and multiplied modulo [2^64]: numpy wraps around where the exact
    result does not fit. *)

Definition in_int64 (n : Z) : bool := (- 2 ^ 63 <=? n) && (n <? 2 ^ 63).

(** The int64 that is [n] modulo [2^64]. *)
Definition wrap64 (n : Z) : Z := (n + 2 ^ 63) mod 2 ^ 64 - 2 ^ 63.

(** A Python integer that numpy takes as an int64. *)
Definition as_int64 (n : Z) : result Z :=
  if in_int64 n then Ok n else Raise OutsideInt64.

(** [np.array(l)] on a list of Python integers *)
Definition np_array (l : list Z) : result (list Z) :=
  if forallb in_int64 l then Ok l else Raise OutsideInt64.

(** A number of the pre-count: a Python [int], or an int64 scalar of numpy.
    An operation on two Python integers is exact; as soon as one operand is
    an int64 the other is taken as an int64 and so is the result. *)
Inductive number : Type :=
| PyInt (n : Z)
| NpInt64 (n : Z).

Definition value (x : number) : Z :=
  match x with
  | PyInt n => n
  | NpInt64 n => n
  end.

Definition num_op (op : Z -> Z -> Z) (x y : number) : result number :=
  match x, y with
  | PyInt a, PyInt b => Ok (PyInt (op a b))
  | PyInt a, NpInt64 b => a <- as_int64 a ;; Ok (NpInt64 (wrap64 (op a b)))
  | NpInt64 a, PyInt b => b <- as_int64 b ;; Ok (NpInt64 (wrap64 (op a b)))
  | NpInt64 a, NpInt64 b => Ok (NpInt64 (wrap64 (op a b)))
  end.

(** [x + y] and [x * y] *)
Definition num_add : number -> number -> result number := num_op Z.add.
Definition num_mul : number -> number -> result number := num_op Z.mul.

(** [x < y] *)
Definition num_ltb (x y : number) : result bool :=
  match x, y with
  | PyInt a, PyInt b => Ok (a <? b)
  | PyInt a, NpInt64 b => a <- as_int64 a ;; Ok (a <? b)
  | NpInt64 a, PyInt b => b <- as_int64 b ;; Ok (a <? b)
  | NpInt64 a, NpInt64 b => Ok (a <? b)
  end.

(** [min(l)]: the first entry that no other is below. *)
Definition num_min (l : list number) : result number :=
  match l with
  | [] => Raise ValueError
  | x :: l' => foldM (fun m y => below <- num_ltb y m ;; Ok (if below then y else m)) l' x
  end.

(** What [sum] of a list of arrays returns: the integer [0] it starts from
    when the list is empty, an array otherwise. The arrays added here all
    have one entry per global worker, so [np_add] never meets two different
    lengths. *)
Inductive np_value : Type :=
| Scalar (n : Z)
| Array (a : list Z).

Definition np_add (x : np_value) (a : list Z) : np_value :=
  match x with
  | Scalar n => Array ((fun v => wrap64 (n + v)) <$> a)
  | Array b => Array (zip_with (fun u v => wrap64 (u + v)) b a)
  end.

Definition np_getitem (x : np_value) (i : Z) : result Z :=
  match x with
  | Scalar _ => Raise TypeError
  | Array a => py_index a i
  end.

(** *** The worker projection *)

(** Lines 276 and 281-283, for one source: shard [i] goes to global worker
    [i % num_global_workers]. The counts are Python integers. *)
Definition samples_per_global_worker (num_global_workers : Z)
    (num_samples_per_shard : list Z) : result (list Z) :=
  foldM (fun per_worker '(i, elem) =>
           w <- pymod i num_global_workers ;;
           old <- py_index per_worker w ;;
           py_setitem per_worker w (old + elem))
        (zip (range (len num_samples_per_shard)) num_samples_per_shard)
        (replicate (Z.to_nat num_global_workers) 0).

(** Line 286, for one source: the quotients are Python integers, of which
    [np.array] makes an array. *)
Definition batches_per_global_worker (global_batch_size : Z) (nsamples : list Z)
  : result (list Z) :=
  batches <- mapM (fun n => floordiv n global_batch_size) nsamples ;;
  np_array batches.

(** Lines 294-295, the body of the loop over the global workers. *)
Definition gpu_step (world_size : Z) (num_batches_per_global_worker : np_value)
    (num_batches_per_gpu : list number) (worker_id : Z) : result (list number) :=
  gpu_id <- pymod worker_id world_size ;;
  old <- py_index num_batches_per_gpu gpu_id ;;
  b <- np_getitem num_batches_per_global_worker worker_id ;;
  new <- num_add old (NpInt64 b) ;;
  py_setitem num_batches_per_gpu gpu_id new.

(** Lines 292-295: the entries of [num_batches_per_gpu] start as the Python
    integer [0] and are int64 once a worker was added. *)
Definition batches_per_gpu (world_size num_global_workers : Z)
    (num_batches_per_global_worker : np_value) : result (list number) :=
  foldM (gpu_step world_size num_batches_per_global_worker)
        (range num_global_workers)
        (replicate (Z.to_nat world_size) (PyInt 0)).

(** Lines 276-295: from the sample counts of the allocated shards of every
    source to the batches of every gpu. *)
Definition project (world_size num_global_workers global_batch_size : Z)
    (num_samples_per_shard_per_source : list (list Z)) : result (list number) :=
  num_samples_per_global_worker_per_source <-
    mapM (samples_per_global_worker num_global_workers)
         num_samples_per_shard_per_source ;;
  num_batches_per_global_worker_per_source <-
    mapM (batches_per_global_worker global_batch_size)
         num_samples_per_global_worker_per_source ;;
  let num_batches_per_global_worker :=
    fold_left np_add num_batches_per_global_worker_per_source (Scalar 0) in
  batches_per_gpu world_size num_global_workers num_batches_per_global_worker.

(** *** The rounds of the pre-count *)

(** The variables the [while] of [log_num_checkpoints] updates. [steps_done]
    and [tokens_seen] start as the Python integer [0]; a round leaves int64
    scalars in them, unless it sets [steps_done] to [total_steps]. *)
Record sim_state : Type := {
  steps_done : number;
  tokens_seen : number;
  sim_next_shard_per_source : list Z;
  checkpoints_made : Z
}.

(** Line 274: the sample counts of the shards of every source, looked up in
    the dictionary of its manifest. *)
Definition lookup_num_samples (manifests : list (gmap string Z))
    (shard_ids_per_source : list (list string)) : result (list (list Z)) :=
  mapM (fun i => manifest <- py_index manifests i ;;
                 shard_ids <- py_index shard_ids_per_source i ;;
                 mapM (fun shard_id => match (manifest : gmap string Z) !! shard_id with
                                       | Some n => Ok n
                                       | None => Raise KeyError
                                       end)
                      shard_ids)
       (range (len manifests)).

(** The body of the [while], lines 264-307. *)
Definition checkpoint_round (total_steps : Z) (a : args) (paths : list string)
    (manifests : list (gmap string Z)) (st : sim_state) : result sim_state :=
  r <- get_string_for_epoch (train_num_samples a) (sim_next_shard_per_source st) paths
         (train_data_mix_weights a) (workers a) (world_size a) false ;;
  let '(shard_strings_per_source, _, next_shard_per_source) := r in
  let shard_ids_per_source := shard_ids_of_string <$> shard_strings_per_source in
  num_samples_per_shard_per_source <- lookup_num_samples manifests shard_ids_per_source ;;
  num_batches_per_gpu <-
    project (world_size a) (world_size a * workers a) (global_batch_size a)
            num_samples_per_shard_per_source ;;
  steps_epoch <- num_min num_batches_per_gpu ;;
  steps <- num_add (steps_done st) steps_epoch ;;
  above <- num_ltb (PyInt total_steps) steps ;;
  let steps := if above then PyInt total_steps else steps in
  batch_tokens <- num_mul steps (PyInt (global_batch_size a)) ;;
  tokens <- num_mul batch_tokens (PyInt (seq_len a)) ;;
  Ok {| steps_done := steps;
        tokens_seen := tokens;
        sim_next_shard_per_source := next_shard_per_source;
        checkpoints_made := checkpoints_made st + 1 |}.

(** The [while] of line 263. *)
Fixpoint checkpoint_rounds (fuel : nat) (total_steps : Z) (a : args) (paths : list string)
    (manifests : list (gmap string Z)) (st : sim_state) : result sim_state :=
  match fuel with
  | O => OutOfFuel
  | S fuel' =>
      more <- num_ltb (steps_done st) (PyInt total_steps) ;;
      if more
      then st' <- checkpoint_round total_steps a paths manifests st ;;
           checkpoint_rounds fuel' total_steps a paths manifests st'
      else Ok st
  end.

(** What a call of [log_num_checkpoints] leaves to see: the final counters
    and whether the warning of lines 315-320 was logged. *)
Record precount : Type := {
  final : sim_state;
  warned : bool
}.

(** [log_num_checkpoints], lines 242-322; [fuel] bounds the rounds of the
    [while]. *)
Definition log_num_checkpoints (fuel : nat) (total_steps : Z) (a : args) : result precount :=
  match dataset_manifest a with
  | None => Raise AssertionError
  | Some paths =>
      manifests <- mapM get_metadata_file paths ;;
      manifests <- mapM convert_metadata_to_dict manifests ;;
      st <- checkpoint_rounds fuel total_steps a paths manifests
              {| steps_done := PyInt 0;
                 tokens_seen := PyInt 0;
                 sim_next_shard_per_source := replicate (length paths) 0;
                 checkpoints_made := 0 |} ;;
      Ok {| final := st;
            warned := is_master a && negb (checkpoints_made st =? epochs a) |}
  end.

(** ** The allocator on shared lists

    [starting_shard_per_source] reaches [_single_epoch_string] as a reference
    to a list the caller keeps. The heap below holds the lists of integers
    by location; the allocator is given the location of the caller's list,
    and every read and write of a cursor goes through the heap. The other
    lists are built inside the call and stay local values. *)


(** A computation on the heap: the heap is kept when an exception leaves. *)
Definition heap_op (A : Type) : Type := heap -> result A * heap.

Definition hret {A} (a : A) : heap_op A := fun h => (Ok a, h).

Definition hlift {A} (r : result A) : heap_op A := fun h => (r, h).

Definition hbind {A B} (c : heap_op A) (k : A -> heap_op B) : heap_op B :=
  fun h =>
    match c h with
    | (Ok a, h') => k a h'
    | (Raise e, h') => (Raise e, h')
    | (OutOfFuel, h') => (OutOfFuel, h')
    end.

Notation "x <~ c ;; k" := (hbind c (fun x => k))
  (at level 100, c at next level, right associativity, only parsing).

Fixpoint hfoldM {A S} (body : S -> A -> heap_op S) (l : list A) (s : S) : heap_op S :=
  match l with
  | [] => hret s
  | x :: l' => s' <~ body s x ;; hfoldM body l' s'
  end.

(** [l[i]] for the list at location [l]; a location always holds a list. *)
Definition load_item (l : loc) (i : Z) : heap_op Z :=
  fun h =>
    match h !! l with
    | Some xs => (py_index xs i, h)
    | None => (Raise TypeError, h)
    end.

(** [l[i] = v] for the list at location [l] *)
Definition store_item (l : loc) (i : Z) (v : Z) : heap_op unit :=
  fun h =>
    match h !! l with
    | Some xs =>
        match py_setitem xs i v with
        | Ok xs' => (Ok tt, <[l := xs']> h)
        | Raise e => (Raise e, h)
        | OutOfFuel => (OutOfFuel, h)
        end
    | None => (Raise TypeError, h)
    end.

(** [copy.deepcopy(l)] of a list of integers: a new list at a new location *)
Definition deepcopy (l : loc) : heap_op loc :=
  fun h =>
    match h !! l with
    | Some xs => let l' := fresh (dom h) in (Ok l', <[l' := xs]> h)
    | None => (Raise TypeError, h)
    end.

(** The two lists of lists of the allocator, local to the call. *)
Record local_lists : Type := {
  local_shard_lists : list (list string);
  local_num_samples : list (list Z)
}.

(** Lines 450-459 with [next_shard_per_source] at location [next]. *)
Definition add_shard_heap (manifests : list (list manifest_record)) (next : loc)
    (ls : local_lists) (i : Z) : heap_op local_lists :=
  manifest <~ hlift (py_index manifests i) ;;
  cursor <~ load_item next i ;;
  m <~ hlift (py_index manifest cursor) ;;
  shard_name <~ hlift (record_shard m) ;;
  num_samples_shard <~ hlift (record_num_samples m) ;;
  shard_list <~ hlift (py_index (local_shard_lists ls) i) ;;
  shard_lists <~ hlift (py_setitem (local_shard_lists ls) i (shard_list ++ [shard_name])) ;;
  num_samples <~ hlift (py_index (local_num_samples ls) i) ;;
  num_samples_lists <~ hlift (py_setitem (local_num_samples ls) i
                                (num_samples ++ [num_samples_shard])) ;;
  cursor <~ load_item next i ;;
  _ <~ store_item next i (cursor + 1) ;;
  hret {| local_shard_lists := shard_lists; local_num_samples := num_samples_lists |}.

Definition keep_accumulating_heap (needed : list Z) (total_num_workers : Z)
    (ls : local_lists) : result bool :=
  if enough_shards (local_shard_lists ls) total_num_workers
  then enough <- enough_samples (local_num_samples ls) needed ;; Ok (negb enough)
  else Ok true.

Fixpoint accumulate_heap (fuel : nat) (manifests : list (list manifest_record))
    (num_sources : Z) (needed : list Z) (total_num_workers : Z) (next : loc)
    (ls : local_lists) : heap_op local_lists :=
  match fuel with
  | O => hlift OutOfFuel
  | S fuel' =>
      more <~ hlift (keep_accumulating_heap needed total_num_workers ls) ;;
      if more : bool
      then ls' <~ hfoldM (add_shard_heap manifests next) (range num_sources) ls ;;
           accumulate_heap fuel' manifests num_sources needed total_num_workers next ls'
      else hret ls
  end.

(** Lines 478-484 with the caller's list at [starting] and the copy at [next]. *)
Definition truncate_source_heap (starting next : loc) (total_num_workers : Z)
    (ls : local_lists) (i : Z) : heap_op local_lists :=
  shard_list <~ hlift (py_index (local_shard_lists ls) i) ;;
  num_multiples <~ hlift (floordiv (len shard_list) total_num_workers) ;;
  let kept := py_slice_to shard_list (num_multiples * total_num_workers) in
  shard_lists <~ hlift (py_setitem (local_shard_lists ls) i kept) ;;
  num_samples <~ hlift (py_index (local_num_samples ls) i) ;;
  num_samples_lists <~ hlift (py_setitem (local_num_samples ls) i
                                (py_slice_to num_samples (num_multiples * total_num_workers))) ;;
  start <~ load_item starting i ;;
  _ <~ store_item next i (start + len kept) ;;
  hret {| local_shard_lists := shard_lists; local_num_samples := num_samples_lists |}.

(** [_single_epoch_string] called with the location of the caller's cursor
    list; it returns the location of [next_shard_per_source]. *)
Definition _single_epoch_string_heap (num_samples : Z) (starting : loc)
    (paths : list string) (weights : option (list float))
    (num_workers_per_gpu world_size : Z)
  : heap_op (list string * list Z * loc) :=
  let num_sources := len paths in
  _ <~ hlift (diagnostics paths) ;;
  needed <~ hlift (quotas num_samples weights num_sources) ;;
  manifests <~ hlift (mapM get_metadata_file paths) ;;
  next <~ deepcopy starting ;;
  let total_num_workers := num_workers_per_gpu * world_size in
  ls <~ accumulate_heap (rounds_bound manifests) manifests num_sources needed
          total_num_workers next
          {| local_shard_lists := replicate (Z.to_nat num_sources) [];
             local_num_samples := replicate (Z.to_nat num_sources) [] |} ;;
  ls <~ hfoldM (truncate_source_heap starting next total_num_workers)
          (range num_sources) ls ;;
  shard_strings <~ hlift (mapM (fun i => source_path <- py_index paths i ;;
                                         shard_list <- py_index (local_shard_lists ls) i ;;
                                         Ok (shard_string source_path shard_list))
                               (range (len paths))) ;;
  hret (shard_strings, sum <$> local_num_samples ls, next).

End FileUtils.

(** ** A concrete environment

    The theorems below hold for every decoder and every file system. The
    closed examples run in this environment: a decoder for the manifest lines
    of the format (an object whose members are "shard" with a string, and
    "num_sequences" or "num_chunks" with an integer; [json.loads] accepts
    more), the shard ids of the shard strings the allocator writes for plain
    shard names, and [is_master] as the test [rank == 0]. *)

Definition dquote : ascii := "034"%char.
Definition backslash : ascii := "092"%char.

Definition is_space (c : ascii) : bool :=
  Ascii.eqb c " "%char || Ascii.eqb c "009"%char.

Fixpoint skip_spaces (s : string) : string :=
  match s with
  | String c s' => if is_space c then skip_spaces s' else s
  | EmptyString => s
  end.

(** The text up to the closing quote, and what follows it; no escapes. *)
Fixpoint read_quoted (s : string) : option (string * string) :=
  match s with
  | EmptyString => None
  | String c s' =>
      if Ascii.eqb c dquote then Some (EmptyString, s')
      else if Ascii.eqb c backslash then None
      else match read_quoted s' with
           | Some (body, rest) => Some (String c body, rest)
           | None => None
           end
  end.

Definition digit_of (c : ascii) : option Z :=
  let n := Z.of_nat (nat_of_ascii c) in
  if (48 <=? n) && (n <=? 57) then Some (n - 48) else None.

Definition is_Some_b {A} (o : option A) : bool :=
  match o with Some _ => true | None => false end.

Fixpoint read_digits (s : string) (acc : Z) : Z * string :=
  match s with
  | String c s' =>
      match digit_of c with
      | Some d => read_digits s' (10 * acc + d)
      | None => (acc, s)
      end
  | EmptyString => (acc, s)
  end.

(** A JSON integer: an optional sign, then digits without a padding zero. *)
Definition read_int (s : string) : option (Z * string) :=
  let '(negative, s) :=
    match s with
    | String "-" s' => (true, s')
    | _ => (false, s)
    end in
  match s with
  | String c s' =>
      match digit_of c with
      | Some 0 =>
          match s' with
          | String c' _ => if is_Some_b (digit_of c') then None else Some (0, s')
          | EmptyString => Some (0, s')
          end
      | Some _ =>
          let '(n, rest) := read_digits s 0 in
          Some (if negative : bool then - n else n, rest)
      | None => None
      end
  | EmptyString => None
  end.

(** A value of the member [key], stored in [m]. *)
Definition read_member_value (key : string) (s : string) (m : manifest_record)
  : option (manifest_record * string) :=
  if String.eqb key "shard" then
    match s with
    | String c s' =>
        if Ascii.eqb c dquote then
          match read_quoted s' with
          | Some (v, rest) =>
              Some ({| shard := Some v;
                       num_sequences := num_sequences m;
                       num_chunks := num_chunks m |}, rest)
          | None => None
          end
        else None
    | EmptyString => None
    end
  else if String.eqb key "num_sequences" then
    match read_int s with
    | Some (n, rest) =>
        Some ({| shard := shard m;
                 num_sequences := Some n;
                 num_chunks := num_chunks m |}, rest)
    | None => None
    end
  else if String.eqb key "num_chunks" then
    match read_int s with
    | Some (n, rest) =>
        Some ({| shard := shard m;
                 num_sequences := num_sequences m;
                 num_chunks := Some n |}, rest)
    | None => None
    end
  else None.

(** The members of the object after its opening brace or a comma. *)
Fixpoint read_members (fuel : nat) (s : string) (m : manifest_record)
  : option manifest_record :=
  match fuel with
  | O => None
  | S fuel' =>
      match skip_spaces s with
      | String c s1 =>
          if Ascii.eqb c dquote then
            match read_quoted s1 with
            | Some (key, s2) =>
                match skip_spaces s2 with
                | String ":" s3 =>
                    match read_member_value key (skip_spaces s3) m with
                    | Some (m', rest) =>
                        match skip_spaces rest with
                        | String "," s4 => read_members fuel' s4 m'
                        | String "}" s4 =>
                            match skip_spaces s4 with
                            | EmptyString => Some m'
                            | _ => None
                            end
                        | _ => None
                        end
                    | None => None
                    end
                | _ => None
                end
            | None => None
            end
          else None
      | EmptyString => None
      end
  end.

Definition json_loads_manifest (line : string) : option manifest_record :=
  match skip_spaces line with
  | String "{" s =>
      match skip_spaces s with
      | String "}" s' =>
          match skip_spaces s' with
          | EmptyString =>
              Some {| shard := None; num_sequences := None; num_chunks := None |}
          | _ => None
          end
      | _ => read_members (String.length line) s
               {| shard := None; num_sequences := None; num_chunks := None |}
      end
  | _ => None
  end.

(** The text before the first occurrence of [c], and the text after it. *)
Fixpoint cut_at (c : ascii) (s : string) : option (string * string) :=
  match s with
  | EmptyString => None
  | String c' s' =>
      if Ascii.eqb c' c then Some (EmptyString, s')
      else match cut_at c s' with
           | Some (before, after) => Some (String c' before, after)
           | None => None
           end
  end.

(** The urls of a shard string with at most one group in braces. *)
Definition brace_urls (s : string) : list string :=
  match cut_at "{" s with
  | Some (before, s') =>
      match cut_at "}" s' with
      | Some (inside, after) =>
          match split_on ","%char inside with
          | (_ :: _ :: _) as alternatives =>
              (fun alt => before +:+ alt +:+ after) <$> alternatives
          | _ => [s]
          end
      | None => [s]
      end
  | None => [s]
  end.

(** The text before the last dot of a file name, when it has one. *)
Definition without_suffix (name : string) : string :=
  match reverse (split_on "."%char name) with
  | _ :: (_ :: _) as stem_reversed => join "." (reverse stem_reversed)
  | _ => name
  end.

Definition shard_ids_simple (shard_string : string) : list string :=
  (fun url => without_suffix (List.last (split_on slash url) EmptyString))
    <$> brace_urls shard_string.

Definition is_master_rank0 (a : args) : bool := rank a =? 0.

(** ** Sample manifests *)

(** A manifest text: one line per shard, each ended by a newline. *)
Definition quoted (s : string) : string :=
  String dquote (s +:+ String dquote EmptyString).

(** The text of a manifest record, and the line it makes in a manifest. *)
Definition manifest_line_text (name : string) (count_field : string) (n : string) : string :=
  "{" +:+ quoted "shard" +:+ ": " +:+ quoted name +:+ ", "
      +:+ quoted count_field +:+ ": " +:+ n +:+ "}".

Definition manifest_line (name : string) (count_field : string) (n : string) : string :=
  manifest_line_text name count_field n +:+ String newline EmptyString.

(** A file system with one manifest. *)
Definition one_file (path text : string) : string -> option string :=
  fun p => if String.eqb p path then Some text else None.

(** The file system [fs] with the text of [path] replaced. *)
Definition with_file (fs : string -> option string) (path text : string)
  : string -> option string :=
  fun p => if String.eqb p path then Some text else fs p.

(** The records of the sample manifests. *)
Definition hundred_samples (name : string) : manifest_record :=
  {| shard := Some name; num_sequences := Some 100; num_chunks := None |}.

(** Ten shards of a hundred samples each. *)
Definition ten_shards_text : string :=
  String.concat EmptyString
    ((fun name => manifest_line name "num_sequences" "100")
       <$> ["shard_0"; "shard_1"; "shard_2"; "shard_3"; "shard_4";
            "shard_5"; "shard_6"; "shard_7"; "shard_8"; "shard_9"]).

Definition ten_shards_path : string := "data/manifest.jsonl".
Definition ten_shards_fs : string -> option string := one_file ten_shards_path ten_shards_text.

Definition ten_shards : list manifest_record :=
  hundred_samples <$> ["shard_0"; "shard_1"; "shard_2"; "shard_3"; "shard_4";
                       "shard_5"; "shard_6"; "shard_7"; "shard_8"; "shard_9"].

(** Three shards of a hundred samples each. *)
Definition three_shards_text : string :=
  String.concat EmptyString
    ((fun name => manifest_line name "num_sequences" "100")
       <$> ["shard_0"; "shard_1"; "shard_2"]).

Definition three_shards_fs : string -> option string :=
  one_file "data/manifest.jsonl" three_shards_text.

Definition three_shards : list manifest_record :=
  hundred_samples <$> ["shard_0"; "shard_1"; "shard_2"].

(** Two shards of 4800 samples each. *)
Definition two_big_shards_text : string :=
  manifest_line "shard_0" "num_sequences" "4800"
  +:+ manifest_line "shard_1" "num_sequences" "4800".

Definition two_big_shards_fs : string -> option string :=
  one_file "data/manifest.jsonl" two_big_shards_text.

(** One shard for every checkpoint, on one gpu with one worker. *)
Definition precount_args (requested_epochs process_rank : Z) : args :=
  {| dataset_manifest := Some ["data/manifest.jsonl"];
     train_num_samples := 4800;
     train_data_mix_weights := None;
     workers := 1;
     world_size := 1;
     global_batch_size := 8;
     seq_len := 1024;
     epochs := requested_epochs;
     rank := process_rank |}.

(** One shard of [2^62] samples, and a pre-count over it with batches of one
    sample and sequences of four tokens. *)
Definition huge_shard_fs : string -> option string :=
  one_file "data/manifest.jsonl" (manifest_line "shard_0" "num_sequences" "4611686018427387904").

Definition huge_shard_args : args :=
  {| dataset_manifest := Some ["data/manifest.jsonl"];
     train_num_samples := 1;
     train_data_mix_weights := None;
     workers := 1;
     world_size := 1;
     global_batch_size := 1;
     seq_len := 4;
     epochs := 1;
     rank := 0 |}.

(** A manifest whose two records name their count differently. *)
Definition mixed_fields_text : string :=
  manifest_line "a" "num_sequences" "7" +:+ manifest_line "b" "num_chunks" "9".

Definition mixed_fields_fs : string -> option string :=
  one_file "data/manifest.jsonl" mixed_fields_text.

(** Two sources: the ten shards above, and a source with a single shard. *)
Definition one_shard_text : string := manifest_line "shard_b0" "num_sequences" "100".

Definition two_sources_fs : string -> option string :=
  with_file (one_file "a/manifest.jsonl" ten_shards_text) "b/manifest.jsonl" one_shard_text.

(** Two sources whose shards hold 5 samples each, and a pre-count over them
    with batches of 8 samples. *)
Definition small_shards_fs : string -> option string :=
  with_file (one_file "a/manifest.jsonl"
               (manifest_line "a0" "num_sequences" "5"
                +:+ manifest_line "a1" "num_sequences" "5"))
            "b/manifest.jsonl"
            (manifest_line "b0" "num_sequences" "5"
             +:+ manifest_line "b1" "num_sequences" "5").

Definition small_shards_args : args :=
  {| dataset_manifest := Some ["a/manifest.jsonl"; "b/manifest.jsonl"];
     train_num_samples := 10;
     train_data_mix_weights := None;
     workers := 1;
     world_size := 1;
     global_batch_size := 8;
     seq_len := 1024;
     epochs := 1;
     rank := 0 |}.

(** ** Notions the statements use *)

Fixpoint has_char (c : ascii) (s : string) : bool :=
  match s with
  | EmptyString => false
  | String c' s' => Ascii.eqb c' c || has_char c s'
  end.

(** The text whose lines are [segs], each ended by a newline. *)
Fixpoint unlines (segs : list string) : string :=
  match segs with
  | [] => EmptyString
  | s :: rest => s +:+ String newline (unlines rest)
  end.

(** [k] passes of the [while] body. *)
Fixpoint rounds (k : nat) (manifests : list (list manifest_record)) (num_sources : Z)
    (st : alloc_state) : result alloc_state :=
  match k with
  | O => Ok st
  | S k' =>
      st' <- accumulate_round manifests num_sources st ;;
      rounds k' manifests num_sources st'
  end.

(** Between [st] and [st'], source [i] received the manifest record under
    its cursor, and its cursor moved one further. *)
Definition shard_added (manifests : list (list manifest_record))
    (i : nat) (st st' : alloc_state) : Prop :=
  exists manifest cursor m name count shard_list num_samples,
    manifests !! i = Some manifest /\
    next_shard_per_source st !! i = Some cursor /\
    py_index manifest cursor = Ok m /\
    shard m = Some name /\
    record_num_samples m = Ok count /\
    shard_list_per_source st !! i = Some shard_list /\
    num_samples_per_source st !! i = Some num_samples /\
    next_shard_per_source st' !! i = Some (cursor + 1) /\
    shard_list_per_source st' !! i = Some (shard_list ++ [name]) /\
    num_samples_per_source st' !! i = Some (num_samples ++ [count]).

(** Between [acc] and [st], the lists of source [i] were cut to the largest
    multiple of [total_num_workers] and its cursor set to the starting cursor
    plus the number of shards kept. *)
Definition source_truncated (starting_shard_per_source : list Z) (total_num_workers : Z)
    (i : nat) (acc st : alloc_state) : Prop :=
  exists start shard_list num_samples,
    total_num_workers <> 0 /\
    starting_shard_per_source !! i = Some start /\
    shard_list_per_source acc !! i = Some shard_list /\
    num_samples_per_source acc !! i = Some num_samples /\
    let cut := len shard_list / total_num_workers * total_num_workers in
    shard_list_per_source st !! i = Some (py_slice_to shard_list cut) /\
    num_samples_per_source st !! i = Some (py_slice_to num_samples cut) /\
    next_shard_per_source st !! i = Some (start + len (py_slice_to shard_list cut)).

(** The lists of source [i] hold, in order, the names and sample counts of
    the manifest records from the starting cursor of the source on. *)
Definition run_of (manifests : list (list manifest_record))
    (starting_shard_per_source : list Z) (i : nat)
    (shard_list : list string) (num_samples : list Z) : Prop :=
  length num_samples = length shard_list /\
  forall j name, shard_list !! j = Some name ->
    exists manifest start m count,
      manifests !! i = Some manifest /\
      starting_shard_per_source !! i = Some start /\
      py_index manifest (start + Z.of_nat j) = Ok m /\
      shard m = Some name /\
      record_num_samples m = Ok count /\
      num_samples !! j = Some count.

(** What a call of the allocator went through: its quotas, its manifests, the
    state [acc] in which the [while] ended and the state [st] after the
    truncation. *)
Definition allocation_trace (fs : string -> option string)
    (json_loads : string -> option manifest_record)
    (num_samples : Z) (starting_shard_per_source : list Z) (paths : list string)
    (weights : option (list float)) (num_workers_per_gpu world_size : Z)
    (needed : list Z) (manifests : list (list manifest_record))
    (acc st : alloc_state) : Prop :=
  quotas num_samples weights (len paths) = Ok needed /\
  mapM (get_metadata_file fs json_loads) paths = Ok manifests /\
  accumulated needed starting_shard_per_source manifests (len paths)
              (num_workers_per_gpu * world_size) = Ok acc /\
  truncate starting_shard_per_source (num_workers_per_gpu * world_size) (len paths) acc
  = Ok st.

(** The cursor policy: for every source the cursor after the [while] is the
    starting cursor plus the number of shards accumulated, the cursor
    returned is the starting cursor plus the number of shards kept, and the
    shards dropped are the manifest records from the returned cursor on. *)
Definition cursor_commit_policy (fs : string -> option string)
    (json_loads : string -> option manifest_record)
    (num_samples : Z) (starting_shard_per_source : list Z) (paths : list string)
    (weights : option (list float)) (num_workers_per_gpu world_size : Z)
    (next_shards : list Z) : Prop :=
  exists needed manifests acc st,
    allocation_trace fs json_loads num_samples starting_shard_per_source paths weights
                     num_workers_per_gpu world_size needed manifests acc st /\
    next_shards = next_shard_per_source st /\
    forall i, (i < length paths)%nat ->
      exists start manifest shard_list,
        starting_shard_per_source !! i = Some start /\
        manifests !! i = Some manifest /\
        shard_list_per_source acc !! i = Some shard_list /\
        next_shard_per_source acc !! i = Some (start + len shard_list) /\
        let total_num_workers := num_workers_per_gpu * world_size in
        let kept :=
          py_slice_to shard_list (len shard_list / total_num_workers * total_num_workers) in
        shard_list_per_source st !! i = Some kept /\
        next_shards !! i = Some (start + len kept) /\
        forall j name, shard_list !! (length kept + j)%nat = Some name ->
          exists m, py_index manifest (start + len kept + Z.of_nat j) = Ok m /\
                    shard m = Some name.

(** The alignment on the workers: for every source the lists kept are the
    prefix of the accumulated ones whose length is the largest multiple of
    the number of workers, the shard string and the sample total are those
    of the lists kept, and the cursor returned is not below the starting
    one. *)
Definition worker_aligned (fs : string -> option string)
    (json_loads : string -> option manifest_record)
    (num_samples : Z) (starting_shard_per_source : list Z) (paths : list string)
    (weights : option (list float)) (num_workers_per_gpu world_size : Z)
    (shard_strings : list string) (totals next_shards : list Z) : Prop :=
  exists needed manifests acc st,
    allocation_trace fs json_loads num_samples starting_shard_per_source paths weights
                     num_workers_per_gpu world_size needed manifests acc st /\
    forall i, (i < length paths)%nat ->
      exists path start shard_list num_samples_list,
        paths !! i = Some path /\
        starting_shard_per_source !! i = Some start /\
        shard_list_per_source acc !! i = Some shard_list /\
        num_samples_per_source acc !! i = Some num_samples_list /\
        let total_num_workers := num_workers_per_gpu * world_size in
        let multiples := len shard_list / total_num_workers in
        let kept := take (Z.to_nat (multiples * total_num_workers)) shard_list in
        let kept_samples := take (Z.to_nat (multiples * total_num_workers)) num_samples_list in
        0 < total_num_workers /\
        shard_list_per_source st !! i = Some kept /\
        num_samples_per_source st !! i = Some kept_samples /\
        shard_strings !! i = Some (shard_string path kept) /\
        totals !! i = Some (sum kept_samples) /\
        len kept = multiples * total_num_workers /\
        len kept_samples = len kept /\
        len kept <= len shard_list < len kept + total_num_workers /\
        next_shards !! i = Some (start + len kept) /\
        start <= start + len kept.

(** The condition that ends the [while]: every source has enough shards and
    enough samples. *)
Definition stop_condition (needed : list Z) (total_num_workers num_sources : Z)
    (st : alloc_state) : Prop :=
  forall i, (i < Z.to_nat num_sources)%nat ->
    exists shard_list num_samples quota,
      shard_list_per_source st !! i = Some shard_list /\
      num_samples_per_source st !! i = Some num_samples /\
      needed !! i = Some quota /\
      total_num_workers <= len shard_list /\
      quota <= sum num_samples.

(** The rational number that a finite float stands for: the significand
    times a power of two. *)
Definition float_value (x : float) : option Q :=
  match Prim2SF x with
  | S754_zero _ => Some (inject_Z 0)
  | S754_finite s m e =>
      let n := if s then Z.neg m else Z.pos m in
      Some (if 0 <=? e then inject_Z (n * 2 ^ e) else Qmake n (Z.to_pos (2 ^ (- e))))
  | _ => None
  end.

(** [z] is the ceiling of the finite float [x]: the integer with
    [z - 1 < x <= z]. *)
Definition ceiling_of (x : float) (z : Z) : Prop :=
  exists q, float_value x = Some q /\ (inject_Z z - inject_Z 1 < q)%Q /\ (q <= inject_Z z)%Q.

(** [total] is [0 + l[0] + l[1] + ...]: the floats of [l] added one after
    the other, from the left, each addition rounded. *)
Inductive sum_left_to_right : list float -> float -> Prop :=
| sum_of_none : sum_left_to_right [] 0%float
| sum_of_more l x s :
    sum_left_to_right l s -> sum_left_to_right (l ++ [x]) (PrimFloat.add s x).

(** The quotas: one per source; the quota of source [i] is the ceiling of
    the float [weights[i] * num_samples / total], where [total] is the sum of
    the weights and is not zero; the weights are [1.0 / num_sources] each
    when none are given. *)
Definition quota_formula (num_samples : Z) (weights : option (list float))
    (num_sources : Z) (needed : list Z) : Prop :=
  exists used_weights total,
    match weights with
    | Some w => used_weights = w
    | None =>
        forall w, w ∈ used_weights ->
          exists n, float_of_int num_sources = Ok n /\ w = PrimFloat.div 1%float n
    end /\
    len used_weights = num_sources /\
    length needed = Z.to_nat num_sources /\
    sum_left_to_right used_weights total /\
    forall i, (i < Z.to_nat num_sources)%nat ->
      exists w quota n,
        used_weights !! i = Some w /\
        needed !! i = Some quota /\
        float_of_int num_samples = Ok n /\
        PrimFloat.eqb total 0%float = false /\
        ceiling_of (PrimFloat.div (PrimFloat.mul w n) total) quota.

(** The accumulation: [acc] is reached from the initial state by a number of
    rounds, each of which gives every source the record under its cursor;
    the stop condition fails before each of them and holds in [acc]. *)
Definition accumulates_in_rounds (manifests : list (list manifest_record))
    (needed starting_shard_per_source : list Z) (num_sources total_num_workers : Z)
    (acc : alloc_state) : Prop :=
  let init := initial_state starting_shard_per_source num_sources in
  exists k,
    rounds k manifests num_sources init = Ok acc /\
    stop_condition needed total_num_workers num_sources acc /\
    forall j, (j < k)%nat ->
      exists st st',
        rounds j manifests num_sources init = Ok st /\
        ~ stop_condition needed total_num_workers num_sources st /\
        accumulate_round manifests num_sources st = Ok st' /\
        rounds (S j) manifests num_sources init = Ok st' /\
        forall i, (i < Z.to_nat num_sources)%nat -> shard_added manifests i st st'.

(** The cursor of source [i] is past the end of its manifest. *)
Definition exhausted (manifests : list (list manifest_record)) (st : alloc_state)
    (i : nat) : Prop :=
  exists manifest cursor,
    manifests !! i = Some manifest /\
    next_shard_per_source st !! i = Some cursor /\
    len manifest <= cursor.

(** The cursor of source [i] is on a record of its manifest that has a name
    and a sample count. *)
Definition servable (manifests : list (list manifest_record)) (st : alloc_state)
    (i : nat) : Prop :=
  exists manifest cursor m name count,
    manifests !! i = Some manifest /\
    next_shard_per_source st !! i = Some cursor /\
    py_index manifest cursor = Ok m /\
    shard m = Some name /\
    record_num_samples m = Ok count.

(** ** The worker projection in closed form *)

(** The sum of the values listed under an index that is [target] modulo [m]. *)
Fixpoint sum_at (m target : Z) (indexed : list (Z * Z)) : Z :=
  match indexed with
  | [] => 0
  | (i, x) :: rest => (if i mod m =? target then x else 0) + sum_at m target rest
  end.

(** The samples of one source that global worker [w] receives: those of the
    shards [i] with [i mod num_global_workers = w]. *)
Definition samples_on_worker (num_global_workers : Z) (num_samples_per_shard : list Z)
    (w : Z) : Z :=
  sum_at num_global_workers w (zip (range (len num_samples_per_shard)) num_samples_per_shard).

(** The batches of global worker [w], as the code counts them: the whole
    batches of every source, added up. *)
Definition batches_of_worker (global_batch_size num_global_workers : Z)
    (sources : list (list Z)) (w : Z) : Z :=
  sum ((fun source => samples_on_worker num_global_workers source w / global_batch_size)
         <$> sources).

(** The batches of global worker [w], as the specification words them: the
    whole batches in the samples of all sources together. *)
Definition batches_of_worker_pooled (global_batch_size num_global_workers : Z)
    (sources : list (list Z)) (w : Z) : Z :=
  sum ((fun source => samples_on_worker num_global_workers source w) <$> sources)
  / global_batch_size.

(** The batches of gpu [g]: those of the global workers [w] with
    [w mod world_size = g]. *)
Definition batches_of_gpu (per_worker : Z -> Z) (world_size num_global_workers : Z)
    (g : Z) : Z :=
  sum_at world_size g ((fun w => (w, per_worker w)) <$> range num_global_workers).

(** An entry of [num_batches_per_gpu]: the Python integer [0], or an
    int64. *)
Definition gpu_entry (x : number) : Prop :=
  x = PyInt 0 \/ exists n, x = NpInt64 n /\ in_int64 n = true.

(** The values of the projection: the closed form modulo [2^64]. *)
Definition projected (world_size num_global_workers global_batch_size : Z)
    (sources : list (list Z)) : list Z :=
  (fun g => wrap64 (batches_of_gpu
                      (batches_of_worker global_batch_size num_global_workers sources)
                      world_size num_global_workers g))
    <$> range world_size.

(** Every count of batches of a source on a worker fits 64 bits. *)
Definition batches_in_int64 (num_global_workers global_batch_size : Z)
    (sources : list (list Z)) : Prop :=
  forall source w, source ∈ sources -> 0 <= w < num_global_workers ->
    in_int64 (samples_on_worker num_global_workers source w / global_batch_size) = true.

(** ** The pre-count, round by round *)

(** The sample counts that a round hands to the projection: for every
    source, those that the dictionary of its manifest holds under the shard
    ids of its shard string. *)
Definition counts_of_strings (shard_ids_of_string : string -> list string)
    (manifests : list (gmap string Z)) (shard_strings : list string)
    (num_samples_per_shard_per_source : list (list Z)) : Prop :=
  length num_samples_per_shard_per_source = length manifests /\
  forall i manifest, manifests !! i = Some manifest ->
    exists shard_string counts,
      shard_strings !! i = Some shard_string /\
      num_samples_per_shard_per_source !! i = Some counts /\
      Forall2 (fun shard_id n => manifest !! shard_id = Some n)
              (shard_ids_of_string shard_string) counts.

(** What one round of the [while] of [log_num_checkpoints] does to its
    counters. The allocator gives the shard strings and the new cursors; the
    batches of every gpu are those of the projection of the counts of these
    shards, modulo [2^64]; [steps_epoch] is the smallest of them; the steps
    grow by it, modulo [2^64] (the sum is a Python integer only as long as
    the steps and [steps_epoch] both are), and are set to [total_steps] when
    they would pass it; the tokens are the product of the steps, the batch
    size and the sequence length, exact when the steps are a Python integer
    and modulo [2^64] otherwise; one more checkpoint is counted. *)
Definition checkpoint_step (fs : string -> option string)
    (json_loads : string -> option manifest_record)
    (shard_ids_of_string : string -> list string)
    (total_steps : Z) (a : args) (paths : list string) (manifests : list (gmap string Z))
    (st st' : sim_state) : Prop :=
  exists shard_strings totals num_samples_per_shard_per_source num_batches_per_gpu
         steps_epoch steps,
    get_string_for_epoch fs json_loads (train_num_samples a)
      (sim_next_shard_per_source st) paths (train_data_mix_weights a)
      (workers a) (world_size a) false
    = Ok (shard_strings, totals, sim_next_shard_per_source st') /\
    counts_of_strings shard_ids_of_string manifests shard_strings
                      num_samples_per_shard_per_source /\
    value <$> num_batches_per_gpu
    = (fun g => wrap64 (batches_of_gpu
                          (batches_of_worker (global_batch_size a)
                             (world_size a * workers a) num_samples_per_shard_per_source)
                          (world_size a) (world_size a * workers a) g))
        <$> range (world_size a) /\
    steps_epoch ∈ num_batches_per_gpu /\
    (forall b, b ∈ num_batches_per_gpu -> value steps_epoch <= value b) /\
    steps = match steps_done st, steps_epoch with
            | PyInt s, PyInt e => PyInt (s + e)
            | _, _ => NpInt64 (wrap64 (value (steps_done st) + value steps_epoch))
            end /\
    value steps = wrap64 (value (steps_done st) + value steps_epoch) /\
    steps_done st' = (if total_steps <? value steps then PyInt total_steps else steps) /\
    tokens_seen st' = match steps_done st' with
                      | PyInt n => PyInt (n * global_batch_size a * seq_len a)
                      | NpInt64 n => NpInt64 (wrap64 (n * global_batch_size a * seq_len a))
                      end /\
    checkpoints_made st' = checkpoints_made st + 1.

(** A run of the [while] of [log_num_checkpoints] from [st] to [final] in
    [k] rounds: a round is made as long as the steps are below
    [total_steps], and every round is a [round] step. *)
Inductive precount_run (round : sim_state -> sim_state -> Prop) (total_steps : Z)
  : sim_state -> sim_state -> nat -> Prop :=
| run_ends st :
    total_steps <= value (steps_done st) ->
    precount_run round total_steps st st 0
| run_goes_on st st' final k :
    value (steps_done st) < total_steps ->
    round st st' ->
    precount_run round total_steps st' final k ->
    precount_run round total_steps st final (S k).

(** ** Notions the proofs use *)

Definition same_at (i : nat) (st st' : alloc_state) : Prop :=
  next_shard_per_source st' !! i = next_shard_per_source st !! i /\
  shard_list_per_source st' !! i = shard_list_per_source st !! i /\
  num_samples_per_source st' !! i = num_samples_per_source st !! i.

Definition same_lengths (st st' : alloc_state) : Prop :=
  length (next_shard_per_source st') = length (next_shard_per_source st) /\
  length (shard_list_per_source st') = length (shard_list_per_source st) /\
  length (num_samples_per_source st') = length (num_samples_per_source st).

(** After [r] rounds from the initial state. *)
Definition after_rounds (manifests : list (list manifest_record)) (starting : list Z)
    (n r : nat) (st : alloc_state) : Prop :=
  length (shard_list_per_source st) = n /\
  length (num_samples_per_source st) = n /\
  length (next_shard_per_source st) = length starting /\
  (forall i, (i < n)%nat ->
     exists shard_list num_samples,
       shard_list_per_source st !! i = Some shard_list /\
       num_samples_per_source st !! i = Some num_samples /\
       length shard_list = r /\
       next_shard_per_source st !! i = (fun s => s + Z.of_nat r) <$> starting !! i /\
       run_of manifests starting i shard_list num_samples) /\
  (forall i, ~ (i < n)%nat -> next_shard_per_source st !! i = starting !! i).

Definition returns {A} (r : result A) : Prop := r <> OutOfFuel.

(** [c] changes no location other than [l]. *)
Definition touches_only (l : loc) {A} (c : heap_op A) : Prop :=
  forall h l', l' <> l -> (c h).2 !! l' = h !! l'.

(** [c] leaves every list that is on the heap as it is. *)
Definition keeps_heap {A} (c : heap_op A) : Prop :=
  forall h l xs, h !! l = Some xs -> (c h).2 !! l = Some xs.

(** The step shared by the two loops of the projection: add [x] to the
    entry [i mod m]. *)
Definition scatter (m : Z) (acc : list Z) (ix : Z * Z) : result (list Z) :=
  let '(i, x) := ix in
  w <- pymod i m ;;
  old <- py_index acc w ;;
  py_setitem acc w (old + x).

(** The steps never pass [total_steps]; they are an int64 or the Python
    integer [total_steps]; and the tokens follow the steps. *)
Definition counters_ok (total_steps : Z) (a : args) (st : sim_state) : Prop :=
  value (steps_done st) <= total_steps /\
  (in_int64 (value (steps_done st)) = true \/ steps_done st = PyInt total_steps) /\
  tokens_seen st = match steps_done st with
                   | PyInt n => PyInt (n * global_batch_size a * seq_len a)
                   | NpInt64 n => NpInt64 (wrap64 (n * global_batch_size a * seq_len a))
                   end.

Definition lists_of (st : alloc_state) : local_lists :=
  {| local_shard_lists := shard_list_per_source st;
     local_num_samples := num_samples_per_source st |}.

(** The heap computation [c], from a heap with [cursors] at [next], does what
    the computation on values [r] does: the same result, and when it is a
    state, its cursors at [next]. *)
Definition simulates (next : loc) (h : heap) (c : heap_op local_lists)
    (r : result alloc_state) : Prop :=
  match r with
  | Ok st' => c h = (Ok (lists_of st'), <[next := next_shard_per_source st']> h)
  | Raise e => (c h).1 = Raise e
  | OutOfFuel => (c h).1 = OutOfFuel
  end.

(** * The other functions of the file *)

Section ChunksAndChecks.

Variable fs : string -> option string.
Variable json_loads : string -> option manifest_record.

(** The body of the [for] of [get_shards_for_chunk], lines 162-173, on the
    four variables of the loop. *)
Definition chunk_step (num_samples : Z)
    (st : list (list string) * list string * list Z * Z) (m : manifest_record)
  : result (list (list string) * list string * list Z * Z) :=
  let '(shard_list, curr_shard_list, chunk_count_list, curr_chunk_count) := st in
  n <- record_num_samples m ;;
  let curr_chunk_count := curr_chunk_count + n in
  name <- record_shard m ;;
  let curr_shard_list := curr_shard_list ++ [name] in
  if num_samples <=? curr_chunk_count
  then Ok (shard_list ++ [curr_shard_list], [], chunk_count_list ++ [curr_chunk_count], 0)
  else Ok (shard_list, curr_shard_list, chunk_count_list, curr_chunk_count).

(** Lines 158-178: the chunks of a manifest and their sample counts. *)
Definition chunks_of (num_samples : Z) (metadata : list manifest_record)
  : result (list (list string) * list Z) :=
  st <- foldM (chunk_step num_samples) metadata ([], [], [], 0) ;;
  let '(shard_list, curr_shard_list, chunk_count_list, curr_chunk_count) := st in
  if 0 <? len curr_shard_list
  then Ok (shard_list ++ [curr_shard_list], chunk_count_list ++ [curr_chunk_count])
  else Ok (shard_list, chunk_count_list).

(** [get_shards_for_chunk], lines 150-183 *)
Definition get_shards_for_chunk (num_samples chunk : Z) (path : string)
  : result (list string * Z) :=
  metadata <- get_metadata_file fs json_loads path ;;
  chunks <- chunks_of num_samples metadata ;;
  let '(shard_list, chunk_count_list) := chunks in
  i <- pymod chunk (len shard_list) ;;
  shards <- py_index shard_list i ;;
  j <- pymod chunk (len chunk_count_list) ;;
  count <- py_index chunk_count_list j ;;
  Ok (shards, count).

(** The [for] of [source_exhausted] from source [i] on. *)
Fixpoint source_exhausted_from (i : Z) (sources : list string)
    (shard_list_per_source : list (list string)) : result bool :=
  match sources with
  | [] => Ok false
  | source :: rest =>
      data <- get_metadata_file fs json_loads source ;;
      shard_list <- py_index shard_list_per_source i ;;
      if len data <? len shard_list then Ok true
      else source_exhausted_from (i + 1) rest shard_list_per_source
  end.

(** [source_exhausted], lines 200-205 *)
Definition source_exhausted (paths : list string)
    (shard_list_per_source : list (list string)) : result bool :=
  source_exhausted_from 0 paths shard_list_per_source.

End ChunksAndChecks.

(** ** Remote sync through fsspec

    [fsspec.get_mapper] gives a dictionary view of a directory. The local
    mapper [a] is only read: it is the list of its keys, in the order the
    iteration gives them, each with the bytes [a[k]]. The remote mapper [b]
    is the store that is written; it is another store than [a]. Writing a key
    can raise, which [write_fails] decides; no key is written twice in a
    call, so that this depends on the key alone loses nothing. *)

Section RemoteSync.

Variable write_fails : string -> bool.

(** [needle in s] on strings *)
Fixpoint contains (needle s : string) : bool :=
  String.prefix needle s ||
  match s with
  | EmptyString => false
  | String _ s' => contains needle s'
  end.

(** [remote_sync_fsspec], lines 41-63: the result and the remote store it
    leaves. *)
Fixpoint remote_sync_fsspec (a : list (string * list Byte.byte))
    (b : gmap string (list Byte.byte)) : bool * gmap string (list Byte.byte) :=
  match a with
  | [] => (true, b)
  | (k, a_k) :: rest =>
      if contains "epoch_latest.pt" k then remote_sync_fsspec rest b
      else if match b !! k with
              | Some b_k => len a_k =? len b_k
              | None => false
              end
      then remote_sync_fsspec rest b
      else if write_fails k then (false, b)
      else remote_sync_fsspec rest (<[k := a_k]> b)
  end.

End RemoteSync.

(** ** Notions the further statements use *)

(** The number of occurrences of [c] in [s]. *)
Fixpoint count_char (c : ascii) (s : string) : nat :=
  match s with
  | EmptyString => 0%nat
  | String c' s' => ((if Ascii.eqb c' c then 1 else 0) + count_char c s')%nat
  end.

(** A record with a name and a sample count. *)
Definition complete (m : manifest_record) : Prop :=
  is_Some (shard m) /\ (is_Some (num_sequences m) \/ is_Some (num_chunks m)).

(** The count of the last record of the manifest that is named [name]. *)
Fixpoint last_count (name : string) (manifest : list manifest_record) : option Z :=
  match manifest with
  | [] => None
  | m :: rest =>
      match last_count name rest with
      | Some n => Some n
      | None =>
          if decide (shard m = Some name)
          then match record_num_samples m with
               | Ok n => Some n
               | _ => None
               end
          else None
      end
  end.

(** The shard list of source [i] is not longer than the manifest at [path]. *)
Definition fits (fs : string -> option string) (json_loads : string -> option manifest_record)
    (shard_list_per_source : list (list string)) (i : nat) (path : string) : Prop :=
  exists data shard_list,
    get_metadata_file fs json_loads path = Ok data /\
    shard_list_per_source !! i = Some shard_list /\
    len shard_list <= len data.

(** The shard list of source [i] is longer than the manifest at [path]. *)
Definition overdrawn (fs : string -> option string)
    (json_loads : string -> option manifest_record)
    (shard_list_per_source : list (list string)) (i : nat) (path : string) : Prop :=
  exists data shard_list,
    get_metadata_file fs json_loads path = Ok data /\
    shard_list_per_source !! i = Some shard_list /\
    len data < len shard_list.

(** The cursors of the pre-count after [r] rounds: none is negative, and
    each has moved by at least [r] times the number of workers without
    leaving its manifest. *)
Definition cursors_after (fs : string -> option string)
    (json_loads : string -> option manifest_record) (a : args) (paths : list string)
    (r : Z) (st : sim_state) : Prop :=
  checkpoints_made st = r /\
  length (sim_next_shard_per_source st) = length paths /\
  Forall (fun c => 0 <= c) (sim_next_shard_per_source st) /\
  forall i path, paths !! i = Some path ->
    exists c,
      sim_next_shard_per_source st !! i = Some c /\
      r * (workers a * world_size a) <= c /\
      forall manifest, get_metadata_file fs json_loads path = Ok manifest ->
                       c <= len manifest.

(** A pre-count over no manifest at all. *)
Definition no_source_args (num_workers num_gpus : Z) : args :=
  {| dataset_manifest := Some [];
     train_num_samples := 4800;
     train_data_mix_weights := None;
     workers := num_workers;
     world_size := num_gpus;
     global_batch_size := 8;
     seq_len := 1024;
     epochs := 1;
     rank := 0 |}.

(** The remote store has, under [k], bytes of the length of [a_k]: the sync
    takes the key for up to date. *)
Definition same_size_remote (b : gmap string (list Byte.byte)) (k : string)
    (a_k : list Byte.byte) : Prop :=
  exists b_k, b !! k = Some b_k /\ len a_k = len b_k.

(** A local directory with two checkpoints and a results file, and a remote
    store that has a results file of the same size with other bytes. *)
Definition local_checkpoints : list (string * list Byte.byte) :=
  [ ("epoch_1.pt"%string, [Byte.x01; Byte.x02]);
    ("epoch_latest.pt"%string, [Byte.x03]);
    ("results.jsonl"%string, [Byte.x04]) ].

Definition remote_checkpoints : gmap string (list Byte.byte) :=
  {[ "results.jsonl"%string := [Byte.x05] ]}.

(** [l[a:b]] for [0 <= a <= b] *)
Definition py_slice {A} (l : list A) (a b : Z) : list A :=
  take (Z.to_nat (b - a)) (drop (Z.to_nat a) l).

(** The running count of a chunk reaches [num_samples] with its last record
    and not before. *)
Definition closes_at (num_samples : Z) (counts : list Z) : Prop :=
  num_samples <= sum counts /\
  forall k, (0 < k < length counts)%nat -> sum (take k counts) < num_samples.

(** The running count of an open chunk has not reached [num_samples]. *)
Definition stays_open (num_samples : Z) (counts : list Z) : Prop :=
  forall k, (0 < k <= length counts)%nat -> sum (take k counts) < num_samples.

(** [groups] cuts the manifest into the chunks [shard_list] with the counts
    [chunk_count_list]. *)
Definition chunked (metadata : list manifest_record) (groups : list (list manifest_record))
    (shard_list : list (list string)) (chunk_count_list : list Z) : Prop :=
  concat groups = metadata /\
  Forall (fun g => g <> []) groups /\
  Forall2 (fun g names => mapM record_shard g = Ok names) groups shard_list /\
  Forall2 (fun g count => exists counts, shard_sizes g = Ok counts /\ count = sum counts)
          groups chunk_count_list.

(** * Properties *)

(** ** Results *)

Lemma bind_Ok {A B} (r : result A) (k : A -> result B) (b : B) :
  bind r k = Ok b -> exists a, r = Ok a /\ k a = Ok b.
Proof. destruct r; simpl; intros H; try discriminate. eauto. Qed.

Ltac inv_bind H :=
  let a := fresh "a" in
  let Ha := fresh "Ha" in
  apply bind_Ok in H; destruct H as (a & Ha & H).

Lemma len_nonneg {A} (l : list A) : 0 <= len l.
Proof. unfold len. lia. Qed.

Lemma py_index_nat {A} (l : list A) (i : nat) :
  py_index l (Z.of_nat i) =
  match l !! i with Some x => Ok x | None => Raise IndexError end.
Proof.
  unfold py_index.
  destruct (Z.ltb_spec (Z.of_nat i) 0) as [?|_]; [lia|].
  destruct (Z.ltb_spec (Z.of_nat i) 0) as [?|_]; [lia|].
  by rewrite Nat2Z.id.
Qed.

Lemma py_index_Ok_nat {A} (l : list A) (i : nat) (x : A) :
  py_index l (Z.of_nat i) = Ok x <-> l !! i = Some x.
Proof.
  rewrite py_index_nat. destruct (l !! i); split; intros H; congruence.
Qed.

Lemma py_setitem_nat {A} (l : list A) (i : nat) (x : A) :
  py_setitem l (Z.of_nat i) x =
  if decide (i < length l)%nat then Ok (<[i := x]> l) else Raise IndexError.
Proof.
  unfold py_setitem, len.
  destruct (Z.ltb_spec (Z.of_nat i) 0) as [?|_]; [lia|].
  destruct (Z.ltb_spec (Z.of_nat i) 0) as [?|_]; [lia|].
  rewrite Nat2Z.id.
  destruct (Z.ltb_spec (Z.of_nat i) (Z.of_nat (length l))); destruct (decide (i < length l)%nat); done || lia.
Qed.

Lemma py_setitem_Ok_nat {A} (l l' : list A) (i : nat) (x : A) :
  py_setitem l (Z.of_nat i) x = Ok l' -> (i < length l)%nat /\ l' = <[i := x]> l.
Proof.
  rewrite py_setitem_nat. destruct (decide (i < length l)%nat); intros H; [|discriminate].
  split; [done|congruence].
Qed.

Lemma range_nat (n : Z) : range n = Z.of_nat <$> seq 0 (Z.to_nat n).
Proof. reflexivity. Qed.

Lemma foldM_app {A S} (body : S -> A -> result S) (l1 l2 : list A) (s : S) :
  foldM body (l1 ++ l2) s = bind (foldM body l1 s) (foldM body l2).
Proof.
  revert s. induction l1 as [|x l1 IH]; intros s; simpl; [done|].
  destruct (body s x); simpl; auto.
Qed.

Lemma mapM_length {A B} (f : A -> result B) (l : list A) (l' : list B) :
  mapM f l = Ok l' -> length l' = length l.
Proof.
  revert l'. induction l as [|x l IH]; simpl; intros l' H.
  - by inversion H.
  - inv_bind H. inv_bind H. inversion H; subst. simpl. f_equal. eauto.
Qed.

Lemma mapM_lookup {A B} (f : A -> result B) (l : list A) (l' : list B) (i : nat) (x : A) :
  mapM f l = Ok l' -> l !! i = Some x -> exists y, l' !! i = Some y /\ f x = Ok y.
Proof.
  revert l' i. induction l as [|x0 l IH]; simpl; intros l' i H Hi; [done|].
  inv_bind H. inv_bind H. inversion H; subst.
  destruct i as [|i]; simpl in *.
  - inversion Hi; subst. eauto.
  - eauto.
Qed.

(** ** Loops that update one index per step *)

Lemma same_at_refl i st : same_at i st st.
Proof. by repeat split. Qed.

Lemma same_at_trans i st1 st2 st3 :
  same_at i st1 st2 -> same_at i st2 st3 -> same_at i st1 st3.
Proof. unfold same_at. intros (?&?&?) (?&?&?). repeat split; congruence. Qed.

Lemma same_at_sym i st1 st2 : same_at i st1 st2 -> same_at i st2 st1.
Proof. unfold same_at. intros (?&?&?). repeat split; congruence. Qed.

Lemma same_lengths_trans st1 st2 st3 :
  same_lengths st1 st2 -> same_lengths st2 st3 -> same_lengths st1 st3.
Proof. unfold same_lengths. intros (?&?&?) (?&?&?). repeat split; congruence. Qed.

Section IndexedLoop.
Variable body : alloc_state -> Z -> result alloc_state.
(** What the step at index [i] establishes, between the states before and
    after it. *)
Variable step : nat -> alloc_state -> alloc_state -> Prop.

Hypothesis body_step : forall st st' i,
  body st (Z.of_nat i) = Ok st' ->
  step i st st' /\ same_lengths st st' /\ forall j, j <> i -> same_at j st st'.
Hypothesis step_local : forall i st1 st1' st2 st2',
  step i st1 st1' -> same_at i st1 st2 -> same_at i st1' st2' -> step i st2 st2'.

Lemma indexed_loop_from (k a : nat) (st st' : alloc_state) :
  foldM body (Z.of_nat <$> seq a k) st = Ok st' ->
  (forall i, (a <= i < a + k)%nat -> step i st st') /\
  same_lengths st st' /\
  (forall i, ~ (a <= i < a + k)%nat -> same_at i st st').
Proof.
  revert a st. induction k as [|k IH]; intros a st H; simpl in H.
  - inversion H; subst. repeat split; try done; intros; lia.
  - inv_bind H. rename a0 into st1.
    apply body_step in Ha as (Hstep & Hlen & Hsame).
    apply IH in H as (IH1 & IH2 & IH3).
    split; [|split].
    + intros i Hi. destruct (decide (i = a)) as [->|Hne].
      * eapply step_local; [exact Hstep|apply same_at_refl|].
        apply IH3. lia.
      * eapply step_local; [apply IH1; lia| |apply same_at_refl].
        apply same_at_sym, Hsame. done.
    + eapply same_lengths_trans; eauto.
    + intros i Hi. eapply same_at_trans; [apply Hsame; lia|apply IH3; lia].
Qed.

Lemma indexed_loop (n : Z) (st st' : alloc_state) :
  foldM body (range n) st = Ok st' ->
  (forall i, (i < Z.to_nat n)%nat -> step i st st') /\
  same_lengths st st' /\
  (forall i, ~ (i < Z.to_nat n)%nat -> same_at i st st').
Proof.
  rewrite range_nat. intros H. apply indexed_loop_from in H as (H1 & H2 & H3).
  split; [|split]; [intros; apply H1; lia|done|intros; apply H3; lia].
Qed.
End IndexedLoop.

Lemma record_shard_Ok m name : record_shard m = Ok name <-> shard m = Some name.
Proof. unfold record_shard. destruct (shard m); split; intros H; congruence. Qed.

Lemma add_shard_step manifests st st' i :
  add_shard manifests st (Z.of_nat i) = Ok st' ->
  shard_added manifests i st st' /\ same_lengths st st' /\
  forall j, j <> i -> same_at j st st'.
Proof.
  unfold add_shard. intros H.
  inv_bind H. rename a into manifest, Ha into Hmanifest.
  inv_bind H. rename a into cursor, Ha into Hcursor.
  inv_bind H. rename a into m, Ha into Hm.
  inv_bind H. rename a into name, Ha into Hname.
  inv_bind H. rename a into count, Ha into Hcount.
  inv_bind H. rename a into sl, Ha into Hsl.
  inv_bind H. rename a into sls, Ha into Hsls.
  inv_bind H. rename a into ns, Ha into Hns.
  inv_bind H. rename a into nss, Ha into Hnss.
  inv_bind H. rename a into nexts, Ha into Hnexts.
  inversion H; subst st'; clear H.
  apply py_index_Ok_nat in Hmanifest, Hcursor, Hsl, Hns.
  apply py_setitem_Ok_nat in Hsls as [? ->], Hnss as [? ->], Hnexts as [? ->].
  apply record_shard_Ok in Hname.
  split; [|split].
  - exists manifest, cursor, m, name, count, sl, ns. simpl.
    rewrite !list_lookup_insert_eq by done. by repeat split.
  - unfold same_lengths. simpl. by rewrite !length_insert.
  - intros j Hj. unfold same_at. simpl.
    by rewrite !list_lookup_insert_ne by done.
Qed.

Lemma shard_added_local manifests i st1 st1' st2 st2' :
  shard_added manifests i st1 st1' -> same_at i st1 st2 -> same_at i st1' st2' ->
  shard_added manifests i st2 st2'.
Proof.
  intros (manifest & cursor & m & name & count & sl & ns & H) (E1 & E2 & E3) (F1 & F2 & F3).
  exists manifest, cursor, m, name, count, sl, ns.
  rewrite E1, E2, E3, F1, F2, F3. exact H.
Qed.

(** A pass of the [while] body gives every source its next shard and leaves
    everything else as it was. *)
Lemma accumulate_round_spec manifests num_sources st st' :
  accumulate_round manifests num_sources st = Ok st' ->
  (forall i, (i < Z.to_nat num_sources)%nat -> shard_added manifests i st st') /\
  same_lengths st st' /\
  (forall i, ~ (i < Z.to_nat num_sources)%nat -> same_at i st st').
Proof.
  apply (indexed_loop (add_shard manifests) (shard_added manifests)).
  - apply add_shard_step.
  - apply shard_added_local.
Qed.

Lemma floordiv_Ok a b q : floordiv a b = Ok q -> b <> 0 /\ q = a / b.
Proof.
  unfold floordiv. destruct (Z.eqb_spec b 0); intros H; [discriminate|].
  split; [done|congruence].
Qed.

Lemma truncate_source_step starting tw st st' i :
  truncate_source starting tw st (Z.of_nat i) = Ok st' ->
  source_truncated starting tw i st st' /\ same_lengths st st' /\
  forall j, j <> i -> same_at j st st'.
Proof.
  unfold truncate_source. intros H.
  inv_bind H. rename a into sl, Ha into Hsl.
  inv_bind H. rename a into q, Ha into Hq.
  inv_bind H. rename a into sls, Ha into Hsls.
  inv_bind H. rename a into ns, Ha into Hns.
  inv_bind H. rename a into nss, Ha into Hnss.
  inv_bind H. rename a into start, Ha into Hstart.
  inv_bind H. rename a into nexts, Ha into Hnexts.
  inversion H; subst st'; clear H.
  apply py_index_Ok_nat in Hsl, Hns, Hstart.
  apply py_setitem_Ok_nat in Hsls as [? ->], Hnss as [? ->], Hnexts as [? ->].
  apply floordiv_Ok in Hq as [Htw ->].
  split; [|split].
  - exists start, sl, ns. simpl.
    rewrite !list_lookup_insert_eq by done. by repeat split.
  - unfold same_lengths. simpl. by rewrite !length_insert.
  - intros j Hj. unfold same_at. simpl.
    by rewrite !list_lookup_insert_ne by done.
Qed.

Lemma source_truncated_local starting tw i st1 st1' st2 st2' :
  source_truncated starting tw i st1 st1' -> same_at i st1 st2 -> same_at i st1' st2' ->
  source_truncated starting tw i st2 st2'.
Proof.
  intros (start & sl & ns & H) (E1 & E2 & E3) (F1 & F2 & F3).
  exists start, sl, ns. simpl in *.
  rewrite E2, E3, F1, F2, F3. exact H.
Qed.

Lemma truncate_spec starting tw num_sources st st' :
  truncate starting tw num_sources st = Ok st' ->
  (forall i, (i < Z.to_nat num_sources)%nat -> source_truncated starting tw i st st') /\
  same_lengths st st' /\
  (forall i, ~ (i < Z.to_nat num_sources)%nat -> same_at i st st').
Proof.
  apply (indexed_loop (truncate_source starting tw) (source_truncated starting tw)).
  - apply truncate_source_step.
  - apply source_truncated_local.
Qed.

(** ** The [while] loop *)

Lemma accumulate_rounds fuel manifests num_sources needed tw st st' :
  accumulate fuel manifests num_sources needed tw st = Ok st' ->
  exists k,
    rounds k manifests num_sources st = Ok st' /\
    keep_accumulating needed tw st' = Ok false /\
    forall j, (j < k)%nat ->
      exists stj, rounds j manifests num_sources st = Ok stj /\
                  keep_accumulating needed tw stj = Ok true.
Proof.
  revert st. induction fuel as [|fuel IH]; intros st H; simpl in H; [discriminate|].
  inv_bind H. destruct a.
  - inv_bind H. apply IH in H as (k & Hk & Hstop & Hbefore).
    exists (S k). simpl. rewrite Ha0. simpl. split; [done|]. split; [done|].
    intros [|j] Hj.
    + exists st. by split.
    + simpl. rewrite Ha0. simpl. apply Hbefore. lia.
  - inversion H; subst. exists 0%nat. simpl. split; [done|]. split; [done|].
    intros j Hj. lia.
Qed.

(** Fuel that is not used up is not missed. *)
Lemma accumulate_more_fuel fuel fuel' manifests num_sources needed tw st r :
  accumulate fuel manifests num_sources needed tw st = r -> r <> OutOfFuel ->
  (fuel <= fuel')%nat ->
  accumulate fuel' manifests num_sources needed tw st = r.
Proof.
  revert fuel' st. induction fuel as [|fuel IH]; intros fuel' st H Hr Hle; simpl in H.
  - congruence.
  - destruct fuel' as [|fuel']; [lia|]. simpl.
    destruct (keep_accumulating needed tw st) as [[|]| |]; simpl in *; try done.
    destruct (accumulate_round manifests num_sources st); simpl in *; try done.
    apply IH; [done|done|lia].
Qed.

(** ** What the rounds keep true *)

Lemma after_rounds_initial manifests starting num_sources :
  after_rounds manifests starting (Z.to_nat num_sources) 0
               (initial_state starting num_sources).
Proof.
  unfold after_rounds, initial_state. simpl.
  rewrite !length_replicate. repeat split; try done.
  intros i Hi. exists [], [].
  rewrite !lookup_replicate_2 by done.
  repeat split; try done.
  destruct (starting !! i); simpl; [|done]. f_equal. lia.
Qed.

Lemma after_rounds_step manifests starting num_sources r st st' :
  after_rounds manifests starting (Z.to_nat num_sources) r st ->
  accumulate_round manifests num_sources st = Ok st' ->
  after_rounds manifests starting (Z.to_nat num_sources) (S r) st'.
Proof.
  intros (L1 & L2 & L3 & Hin & Hout) H.
  apply accumulate_round_spec in H as (Hadd & (E1 & E2 & E3) & Hsame).
  unfold after_rounds. repeat split; try congruence.
  - intros i Hi.
    destruct (Hadd i Hi) as (manifest & c & m & name & count & sl & ns &
                             Hman & Hc & Hm & Hname & Hcount & Hsl & Hns & Hc' & Hsl' & Hns').
    destruct (Hin i Hi) as (sl0 & ns0 & Hsl0 & Hns0 & Hlen & Hnext & Hlens & Hrun).
    assert (sl0 = sl) by congruence. assert (ns0 = ns) by congruence. subst sl0 ns0.
    rewrite Hc in Hnext.
    destruct (starting !! i) as [s|] eqn:Hs; simpl in Hnext; [|done].
    assert (c = s + Z.of_nat r) by congruence. subst c.
    exists (sl ++ [name]), (ns ++ [count]).
    split; [done|]. split; [done|]. split; [rewrite length_app; simpl; lia|].
    split; [rewrite Hc'; simpl; f_equal; lia|].
    split; [rewrite !length_app; simpl; lia|].
    intros j name' Hj.
    destruct (decide (j < length sl)%nat) as [Hlt|Hge].
    + rewrite lookup_app_l in Hj by done.
      destruct (Hrun j name' Hj) as (manifest' & s' & m' & count' & ? & ? & ? & ? & ? & ?).
      exists manifest', s', m', count'. repeat split; try done; try congruence.
      rewrite lookup_app_l by lia. done.
    + rewrite lookup_app_r in Hj by lia.
      destruct (j - length sl)%nat as [|?] eqn:Hd; simpl in Hj; [|done].
      inversion Hj; subst name'.
      assert (j = r) by lia. subst j.
      exists manifest, s, m, count. repeat split; try done; try congruence.
      rewrite lookup_app_r by lia. replace (r - length ns)%nat with 0%nat by lia. done.
  - intros i Hi. destruct (Hsame i Hi) as (-> & _). auto.
Qed.

Lemma after_rounds_rounds manifests starting num_sources k r st st' :
  after_rounds manifests starting (Z.to_nat num_sources) r st ->
  rounds k manifests num_sources st = Ok st' ->
  after_rounds manifests starting (Z.to_nat num_sources) (r + k) st'.
Proof.
  revert r st. induction k as [|k IH]; intros r st Hinv H; simpl in H.
  - inversion H; subst. by rewrite Nat.add_0_r.
  - inv_bind H. replace (r + S k)%nat with (S r + k)%nat by lia.
    eapply IH; [|exact H]. eapply after_rounds_step; eauto.
Qed.

(** ** The loop ends within its bound *)

Lemma py_index_in_range {A} (l : list A) (c : Z) (x : A) :
  py_index l c = Ok x -> - len l <= c < len l.
Proof.
  unfold py_index, len.
  destruct (Z.ltb_spec c 0).
  - destruct (Z.ltb_spec (c + Z.of_nat (length l)) 0); [discriminate|]. lia.
  - destruct (Z.ltb_spec c 0); [lia|].
    destruct (l !! Z.to_nat c) eqn:E; [|discriminate].
    apply lookup_lt_Some in E. lia.
Qed.

Lemma length_concat_head {A} (l : list A) (ls : list (list A)) :
  ls !! 0%nat = Some l -> (length l <= length (concat ls))%nat.
Proof.
  destruct ls as [|l0 ls]; simpl; [done|]. intros [= ->].
  rewrite length_app. lia.
Qed.

(** With no source the loop ends at once; otherwise the cursor of the first
    source, which every round needs inside its manifest, moves up. *)
Lemma accumulate_terminates manifests starting num_sources needed tw :
  forall fuel r st,
    after_rounds manifests starting (Z.to_nat num_sources) r st ->
    match manifests !! 0%nat, starting !! 0%nat with
    | Some manifest, Some s =>
        (if s + Z.of_nat r <? - len manifest then 0
         else Z.max 0 (len manifest - (s + Z.of_nat r))) < Z.of_nat fuel
    | _, _ => 0 < Z.of_nat fuel
    end ->
    accumulate fuel manifests num_sources needed tw st <> OutOfFuel.
Proof.
  induction fuel as [|fuel IH]; intros r st Hinv Hfuel.
  - exfalso. destruct (manifests !! 0%nat) as [manifest|], (starting !! 0%nat) as [s|];
      try lia.
    pose proof (len_nonneg manifest).
    destruct (Z.ltb_spec (s + Z.of_nat r) (- len manifest)); lia.
  - simpl.
    destruct (keep_accumulating needed tw st) as [[|]| |] eqn:Hkeep; simpl; try done.
    + destruct (accumulate_round manifests num_sources st) as [st'| |] eqn:Hround;
        simpl; try done.
      * pose proof (after_rounds_step _ _ _ _ _ _ Hinv Hround) as Hinv'.
        apply accumulate_round_spec in Hround as (Hadd & _ & _).
        destruct (decide (0 < Z.to_nat num_sources)%nat) as [Hpos|Hzero].
        -- destruct (Hadd 0%nat Hpos) as (manifest & c & m & name & count & sl & ns &
                                          Hman & Hc & Hm & _).
           destruct Hinv as (_ & _ & _ & Hin & _).
           destruct (Hin 0%nat Hpos) as (sl0 & ns0 & _ & _ & _ & Hnext & _).
           rewrite Hc in Hnext.
           destruct (starting !! 0%nat) as [s|] eqn:Hs; simpl in Hnext; [|done].
           assert (c = s + Z.of_nat r) by congruence. subst c.
           apply py_index_in_range in Hm.
           apply (IH (S r) st' Hinv'). rewrite Hman in *. rewrite ?Hs in *.
           destruct (Z.ltb_spec (s + Z.of_nat r) (- len manifest)); [lia|].
           destruct (Z.ltb_spec (s + Z.of_nat (S r)) (- len manifest)); lia.
        -- (* no source: the condition of the loop cannot hold *)
           exfalso. destruct Hinv as (L1 & L2 & _).
           unfold keep_accumulating in Hkeep.
           assert (Z.to_nat num_sources = 0%nat) as E by lia. rewrite E in *.
           destruct (shard_list_per_source st); [|done].
           destruct (num_samples_per_source st); [|done].
           simpl in Hkeep. done.
      * (* a model loop out of fuel inside a round: a round has none *)
        exfalso. unfold accumulate_round in Hround.
        revert Hround. generalize (range num_sources) st.
        intros l. induction l as [|x l IHl]; intros st0; simpl; [done|].
        destruct (add_shard manifests st0 x) eqn:Hx; simpl; [apply IHl|done|].
        exfalso. unfold add_shard in Hx.
        repeat match type of Hx with
        | bind ?r _ = _ => destruct r eqn:?; simpl in Hx
        end; try done;
        repeat match goal with
        | H : py_index _ _ = OutOfFuel |- _ => unfold py_index in H; repeat case_match; done
        | H : py_setitem _ _ _ = OutOfFuel |- _ => unfold py_setitem in H; repeat case_match; done
        | H : record_shard _ = OutOfFuel |- _ => unfold record_shard in H; repeat case_match; done
        | H : record_num_samples _ = OutOfFuel |- _ => unfold record_num_samples in H; repeat case_match; done
        end.
    + (* the condition itself has no loop *)
      unfold keep_accumulating in Hkeep.
      destruct (enough_shards _ _); [|done].
      destruct (enough_samples _ _) eqn:E; simpl in Hkeep; try done.
      clear -E. revert E. generalize (num_samples_per_source st) needed.
      intros l. induction l as [|x l IHl]; intros [|q qs]; simpl; try done.
      destruct (sum x <? q); [done|]. apply IHl.
Qed.

(** ** The model loses no call to its fuel *)

Lemma returns_bind {A B} (r : result A) (k : A -> result B) :
  returns r -> (forall a, r = Ok a -> returns (k a)) -> returns (bind r k).
Proof. unfold returns. destruct r; simpl; auto. Qed.

Lemma returns_mapM {A B} (f : A -> result B) (l : list A) :
  (forall x, returns (f x)) -> returns (mapM f l).
Proof.
  intros Hf. induction l as [|x l IH]; simpl; [done|].
  apply returns_bind; [apply Hf|]. intros y _.
  apply returns_bind; [apply IH|]. done.
Qed.

Lemma returns_foldM {A S} (body : S -> A -> result S) (l : list A) (s : S) :
  (forall s x, returns (body s x)) -> returns (foldM body l s).
Proof.
  intros Hf. revert s. induction l as [|x l IH]; intros s; simpl; [done|].
  apply returns_bind; [apply Hf|]. intros; apply IH.
Qed.

Lemma returns_py_index {A} (l : list A) i : returns (py_index l i).
Proof. unfold returns, py_index. repeat case_match; done. Qed.

Lemma returns_py_setitem {A} (l : list A) i x : returns (py_setitem l i x).
Proof. unfold returns, py_setitem. repeat case_match; done. Qed.

Lemma returns_floordiv a b : returns (floordiv a b).
Proof. unfold returns, floordiv. case_match; done. Qed.

Lemma returns_pymod a b : returns (pymod a b).
Proof. unfold returns, pymod. case_match; done. Qed.

Lemma returns_float_of_int n : returns (float_of_int n).
Proof. unfold returns, float_of_int. case_match; done. Qed.

Lemma returns_float_div a b : returns (float_div a b).
Proof. unfold returns, float_div. case_match; done. Qed.

Lemma returns_int_ceil x : returns (int_ceil x).
Proof. unfold returns, int_ceil. case_match; done. Qed.

Lemma returns_record_shard m : returns (record_shard m).
Proof. unfold returns, record_shard. case_match; done. Qed.

Lemma returns_record_num_samples m : returns (record_num_samples m).
Proof. unfold returns, record_num_samples. repeat case_match; done. Qed.

Lemma returns_py_max l : returns (py_max l).
Proof. unfold returns, py_max. case_match; done. Qed.

Lemma returns_as_int64 n : returns (as_int64 n).
Proof. unfold returns, as_int64. case_match; done. Qed.

Lemma returns_np_array l : returns (np_array l).
Proof. unfold returns, np_array. case_match; done. Qed.

Lemma returns_num_op op x y : returns (num_op op x y).
Proof. unfold returns, num_op, as_int64. repeat case_match; done. Qed.

Lemma returns_num_ltb x y : returns (num_ltb x y).
Proof. unfold returns, num_ltb, as_int64. repeat case_match; done. Qed.

Lemma returns_enough_samples nums needed : returns (enough_samples nums needed).
Proof.
  revert needed. induction nums as [|x l IH]; intros [|q qs]; simpl; try done.
  destruct (sum x <? q); [done|apply IH].
Qed.

Ltac returns_step :=
  first
    [ apply returns_py_index | apply returns_py_setitem | apply returns_floordiv
    | apply returns_pymod | apply returns_float_of_int | apply returns_float_div
    | apply returns_int_ceil | apply returns_record_shard
    | apply returns_record_num_samples | apply returns_py_max
    | apply returns_as_int64 | apply returns_np_array | apply returns_num_op
    | apply returns_num_ltb
    | apply returns_enough_samples
    | apply returns_mapM; intros
    | apply returns_foldM; intros
    | apply returns_bind; [|intros ? _]
    | discriminate ].

Ltac returns_auto := repeat returns_step.

Section Returns.
Variable fs : string -> option string.
Variable json_loads : string -> option manifest_record.

Lemma returns_get_metadata_file path : returns (get_metadata_file fs json_loads path).
Proof.
  unfold get_metadata_file. apply returns_bind.
  - unfold returns, read_text. case_match; done.
  - intros text _. apply returns_mapM. intros line.
    unfold returns, loads. case_match; done.
Qed.

Lemma returns_count_small_shards path : returns (count_small_shards fs json_loads path).
Proof.
  unfold count_small_shards, shard_sizes.
  apply returns_bind; [apply returns_get_metadata_file|intros ? _].
  returns_auto.
Qed.

Lemma returns_diagnostics paths : returns (diagnostics fs json_loads paths).
Proof.
  unfold diagnostics. apply returns_bind.
  - case_match; [|done]. unfold are_sources_imbalanced_with_each_other, shard_sizes.
    apply returns_bind; [|done]. apply returns_mapM. intros p.
    apply returns_bind; [apply returns_get_metadata_file|intros ? _]. returns_auto.
  - intros _ _. apply returns_bind; [|done].
    apply returns_mapM. apply returns_count_small_shards.
Qed.
End Returns.

Lemma returns_quotas num_samples weights num_sources :
  returns (quotas num_samples weights num_sources).
Proof.
  unfold quotas. apply returns_bind.
  - unfold weights_or_uniform. case_match; [done|]. returns_auto.
  - intros ws _. case_match; [|done].
    unfold needed_samples_per_source, needed_samples. returns_auto.
Qed.

Lemma returns_truncate starting tw num_sources st :
  returns (truncate starting tw num_sources st).
Proof. unfold truncate, truncate_source. returns_auto. Qed.

Lemma returns_accumulated needed starting manifests num_sources tw :
  returns (accumulated needed starting manifests num_sources tw).
Proof.
  unfold returns, accumulated.
  apply (accumulate_terminates manifests starting num_sources needed tw _ 0%nat).
  - apply after_rounds_initial.
  - unfold rounds_bound.
    destruct (manifests !! 0%nat) as [manifest|] eqn:Hm; [|lia].
    destruct (starting !! 0%nat) as [s|]; [|lia].
    apply length_concat_head in Hm. unfold len.
    destruct (Z.ltb_spec (s + Z.of_nat 0) (- Z.of_nat (length manifest))); lia.
Qed.

Lemma returns_committed needed starting manifests num_sources tw :
  returns (committed needed starting manifests num_sources tw).
Proof.
  unfold committed. apply returns_bind; [apply returns_accumulated|].
  intros; apply returns_truncate.
Qed.

Lemma returns_allocate fs json_loads num_samples starting paths weights wpg ws :
  returns (allocate fs json_loads num_samples starting paths weights wpg ws).
Proof.
  unfold allocate.
  apply returns_bind; [apply returns_diagnostics|intros _ _].
  apply returns_bind; [apply returns_quotas|intros needed _].
  apply returns_bind; [apply returns_mapM, returns_get_metadata_file|intros ms _].
  apply returns_committed.
Qed.

(** Every call of the allocator ends: with a result or with an exception. *)
Lemma single_epoch_string_returns fs json_loads num_samples starting paths weights wpg ws :
  returns (_single_epoch_string fs json_loads num_samples starting paths weights wpg ws).
Proof.
  unfold _single_epoch_string.
  apply returns_bind; [apply returns_allocate|intros st _].
  returns_auto.
Qed.

(** ** The call, step by step *)

Lemma range_length n : length (range n) = Z.to_nat n.
Proof. unfold range. by rewrite length_fmap, length_seq. Qed.

Lemma range_lookup n (i : nat) :
  (i < Z.to_nat n)%nat -> range n !! i = Some (Z.of_nat i).
Proof.
  intros Hi. unfold range. rewrite list_lookup_fmap.
  rewrite lookup_seq_lt by done. done.
Qed.

Lemma len_to_nat {A} (l : list A) : Z.to_nat (len l) = length l.
Proof. unfold len. lia. Qed.

Lemma single_epoch_string_trace fs json_loads num_samples starting paths weights wpg ws
    shard_strings totals next_shards :
  _single_epoch_string fs json_loads num_samples starting paths weights wpg ws
  = Ok (shard_strings, totals, next_shards) ->
  exists needed manifests acc st,
    allocation_trace fs json_loads num_samples starting paths weights wpg ws
                     needed manifests acc st /\
    length manifests = length paths /\
    next_shards = next_shard_per_source st /\
    totals = sum <$> num_samples_per_source st /\
    forall i path, paths !! i = Some path ->
      exists kept, shard_list_per_source st !! i = Some kept /\
                   shard_strings !! i = Some (shard_string path kept).
Proof.
  unfold _single_epoch_string, allocate, committed. intros H.
  inv_bind H. rename a into st, Ha into Hst.
  inv_bind Hst. inv_bind Hst. rename a0 into needed, Ha0 into Hneeded.
  inv_bind Hst. rename a0 into manifests, Ha0 into Hmanifests.
  inv_bind Hst. rename a0 into acc, Ha0 into Hacc.
  inv_bind H. rename a0 into strs, Ha0 into Hstrs.
  inversion H; subst; clear H.
  exists needed, manifests, acc, st. split; [by repeat split|].
  split; [by eapply mapM_length|]. split; [done|]. split; [done|].
  intros i path Hi.
  assert (i < Z.to_nat (len paths))%nat as Hlt.
  { rewrite len_to_nat. by eapply lookup_lt_Some. }
  destruct (mapM_lookup _ _ _ i (Z.of_nat i) Hstrs (range_lookup _ _ Hlt)) as (s & Hs & Hf).
  inv_bind Hf. inv_bind Hf. inversion Hf; subst.
  apply py_index_Ok_nat in Ha0, Ha1.
  assert (a0 = path) by congruence. subst. eauto.
Qed.

Lemma py_slice_to_nonneg {A} (l : list A) k :
  0 <= k -> py_slice_to l k = take (Z.to_nat k) l.
Proof.
  intros Hk. unfold py_slice_to.
  destruct (Z.ltb_spec k 0); [lia|done].
Qed.

Lemma accumulated_trace needed starting manifests num_sources tw acc :
  accumulated needed starting manifests num_sources tw = Ok acc ->
  exists k,
    rounds k manifests num_sources (initial_state starting num_sources) = Ok acc /\
    after_rounds manifests starting (Z.to_nat num_sources) k acc.
Proof.
  unfold accumulated. intros H.
  apply accumulate_rounds in H as (k & Hk & _).
  exists k. split; [done|].
  apply (after_rounds_rounds _ _ _ k 0%nat _ _ (after_rounds_initial _ _ _) Hk).
Qed.

(** ** C1 *)

Lemma cursor_commit_policy_holds fs json_loads num_samples starting paths weights wpg ws
    shard_strings totals next_shards :
  _single_epoch_string fs json_loads num_samples starting paths weights wpg ws
  = Ok (shard_strings, totals, next_shards) ->
  cursor_commit_policy fs json_loads num_samples starting paths weights wpg ws next_shards.
Proof.
  intros H. apply single_epoch_string_trace in H
    as (needed & manifests & acc & st & Htrace & Hlen & -> & _ & _).
  exists needed, manifests, acc, st. split; [done|]. split; [done|].
  destruct Htrace as (_ & _ & Hacc & Htrunc).
  apply accumulated_trace in Hacc as (k & _ & (_ & _ & _ & Hin & _)).
  apply truncate_spec in Htrunc as (Htr & _ & _).
  intros i Hi. rewrite <- len_to_nat in Hi.
  destruct (Hin i Hi) as (sl & ns & Hsl & Hns & Hk & Hnext & _ & Hrun).
  destruct (Htr i Hi) as (start & sl' & ns' & Htw & Hstart & Hsl' & Hns' & Hkept & _ & Hcur).
  assert (sl' = sl) by congruence. subst sl'.
  destruct (manifests !! i) as [manifest|] eqn:Hman.
  2: { apply lookup_ge_None in Hman. rewrite len_to_nat in Hi. lia. }
  exists start, manifest, sl. rewrite Hstart in Hnext. simpl in Hnext.
  split; [done|]. split; [done|]. split; [done|].
  split; [rewrite Hnext; unfold len; do 2 f_equal; lia|].
  split; [done|]. split; [done|].
  intros j name Hj.
  destruct (Hrun _ _ Hj) as (manifest' & start' & m & count & ? & ? & Hm & ? & _).
  assert (manifest' = manifest) by congruence. assert (start' = start) by congruence.
  subst. exists m. split; [|done]. rewrite <- Hm. f_equal. unfold len. lia.
Qed.

(** ** C2 *)

Lemma largest_multiple n tw :
  0 <= n -> 0 < tw ->
  0 <= n / tw * tw /\ n / tw * tw <= n /\ n < n / tw * tw + tw.
Proof.
  intros Hn Htw.
  pose proof (Z.div_mod n tw ltac:(lia)) as Hdm.
  pose proof (Z.mod_pos_bound n tw Htw) as Hmod.
  pose proof (Z.div_pos n tw Hn Htw) as Hq.
  nia.
Qed.

Lemma len_take {A} (l : list A) k :
  0 <= k <= len l -> len (take (Z.to_nat k) l) = k.
Proof. unfold len. intros H. rewrite length_take. lia. Qed.

Lemma worker_aligned_holds fs json_loads num_samples starting paths weights wpg ws
    shard_strings totals next_shards :
  0 <= wpg -> 0 <= ws ->
  _single_epoch_string fs json_loads num_samples starting paths weights wpg ws
  = Ok (shard_strings, totals, next_shards) ->
  worker_aligned fs json_loads num_samples starting paths weights wpg ws
                 shard_strings totals next_shards.
Proof.
  intros Hwpg Hws H. apply single_epoch_string_trace in H
    as (needed & manifests & acc & st & Htrace & Hlen & -> & -> & Hstrs).
  exists needed, manifests, acc, st. split; [done|].
  destruct Htrace as (_ & _ & Hacc & Htrunc).
  apply accumulated_trace in Hacc as (k & _ & (_ & _ & _ & Hin & _)).
  apply truncate_spec in Htrunc as (Htr & _ & _).
  intros i Hi.
  destruct (paths !! i) as [path|] eqn:Hpath.
  2: { apply lookup_ge_None in Hpath. lia. }
  rewrite <- len_to_nat in Hi.
  destruct (Hin i Hi) as (sl & ns & Hsl & Hns & Hk & Hnext & (Hlens & _)).
  destruct (Htr i Hi) as (start & sl' & ns' & Htw & Hstart & Hsl' & Hns' & Hkept & Hkns & Hcur).
  assert (sl' = sl) by congruence. assert (ns' = ns) by congruence. subst sl' ns'.
  destruct (Hstrs i path Hpath) as (kept & Hkept' & Hstr).
  assert (0 < wpg * ws) as Hpos by nia.
  destruct (largest_multiple (len sl) (wpg * ws) (len_nonneg sl) Hpos) as (Hcut0 & Hcut1 & Hcut2).
  rewrite py_slice_to_nonneg in Hkept by done.
  rewrite py_slice_to_nonneg in Hkns by done.
  rewrite py_slice_to_nonneg in Hcur by done.
  exists path, start, sl, ns. cbv zeta.
  assert (len (take (Z.to_nat (len sl / (wpg * ws) * (wpg * ws))) sl)
          = len sl / (wpg * ws) * (wpg * ws)) as Elen by (apply len_take; lia).
  split; [done|]. split; [done|]. split; [done|]. split; [done|]. split; [done|].
  split; [congruence|]. split; [done|]. split; [congruence|].
  split; [rewrite list_lookup_fmap, Hkns; done|].
  split; [done|].
  split; [rewrite Elen; apply len_take; unfold len in *; lia|].
  split; [lia|]. split; [done|].
  pose proof (len_nonneg (take (Z.to_nat (len sl / (wpg * ws) * (wpg * ws))) sl)). lia.
Qed.

(** ** C3 *)

Lemma enough_shards_true shard_lists tw :
  enough_shards shard_lists tw = true <->
  forall i sl, shard_lists !! i = Some sl -> tw <= len sl.
Proof.
  induction shard_lists as [|sl0 rest IH]; simpl.
  - split; [intros _ i sl Hi; done|done].
  - destruct (Z.ltb_spec (len sl0) tw) as [Hlt|Hge].
    + split; [done|]. intros H. specialize (H 0%nat sl0 eq_refl). lia.
    + rewrite IH. split.
      * intros H [|i] sl Hi; simpl in Hi; [inversion Hi; subst; lia|eauto].
      * intros H i sl Hi. apply (H (S i)). done.
Qed.

Lemma enough_samples_spec nums needed :
  length nums = length needed ->
  exists b, enough_samples nums needed = Ok b /\
    (b = true <->
     forall i ns q, nums !! i = Some ns -> needed !! i = Some q -> q <= sum ns).
Proof.
  revert needed. induction nums as [|ns0 rest IH]; intros [|q0 needed] Hlen;
    simpl in *; try discriminate.
  - exists true. split; [done|]. split; [intros _ i ns q Hi; done|done].
  - destruct (Z.ltb_spec (sum ns0) q0) as [Hlt|Hge].
    + exists false. split; [done|]. split; [done|].
      intros H. specialize (H 0%nat ns0 q0 eq_refl eq_refl). lia.
    + destruct (IH needed ltac:(lia)) as (b & Hb & Hiff).
      exists b. split; [done|]. rewrite Hiff. split.
      * intros H [|i] ns q Hi Hq; simpl in *; [inversion Hi; inversion Hq; subst; lia|eauto].
      * intros H i ns q Hi Hq. apply (H (S i)); done.
Qed.

(** The condition of the [while] is the negation of the stop condition. *)
Lemma keep_accumulating_spec needed tw num_sources st :
  length (shard_list_per_source st) = Z.to_nat num_sources ->
  length (num_samples_per_source st) = Z.to_nat num_sources ->
  length needed = Z.to_nat num_sources ->
  exists more, keep_accumulating needed tw st = Ok more /\
    (more = false <-> stop_condition needed tw num_sources st).
Proof.
  intros L1 L2 L3. unfold keep_accumulating, stop_condition.
  destruct (enough_samples_spec (num_samples_per_source st) needed ltac:(lia))
    as (b & Hb & Hiff).
  destruct (enough_shards (shard_list_per_source st) tw) eqn:Hshards.
  - rewrite Hb. simpl. exists (negb b). split; [done|].
    rewrite enough_shards_true in Hshards.
    rewrite negb_false_iff, Hiff. split.
    + intros H i Hi.
      destruct (lookup_lt_is_Some_2 (shard_list_per_source st) i ltac:(lia)) as [sl Hsl].
      destruct (lookup_lt_is_Some_2 (num_samples_per_source st) i ltac:(lia)) as [ns Hns].
      destruct (lookup_lt_is_Some_2 needed i ltac:(lia)) as [q Hq].
      exists sl, ns, q. repeat split; eauto.
    + intros H i ns q Hns Hq.
      destruct (H i) as (sl' & ns' & q' & ? & ? & ? & ? & ?).
      { apply lookup_lt_Some in Hns. lia. }
      congruence.
  - exists true. split; [done|]. split; [done|].
    intros H. exfalso.
    assert (enough_shards (shard_list_per_source st) tw = true); [|congruence].
    apply enough_shards_true. intros i sl Hsl.
    destruct (H i) as (sl' & ns' & q' & ? & ? & ? & ? & ?).
    { apply lookup_lt_Some in Hsl. lia. }
    congruence.
Qed.

Lemma rounds_split k j manifests num_sources st st' :
  rounds k manifests num_sources st = Ok st' -> (j <= k)%nat ->
  exists stj, rounds j manifests num_sources st = Ok stj /\
              rounds (k - j) manifests num_sources stj = Ok st'.
Proof.
  revert j st. induction k as [|k IH]; intros j st H Hj.
  - assert (j = 0%nat) by lia. subst. exists st. by split.
  - destruct j as [|j].
    + exists st. by split.
    + simpl in H. inv_bind H.
      destruct (IH j a H ltac:(lia)) as (stj & H1 & H2).
      exists stj. simpl. rewrite Ha. simpl. by split.
Qed.

Lemma rounds_snoc j manifests num_sources st stj st' :
  rounds j manifests num_sources st = Ok stj ->
  accumulate_round manifests num_sources stj = Ok st' ->
  rounds (S j) manifests num_sources st = Ok st'.
Proof.
  revert st. induction j as [|j IH]; intros st H Hr; simpl in H.
  - inversion H; subst. simpl. rewrite Hr. done.
  - inv_bind H. specialize (IH a H Hr).
    change (rounds (S (S j)) manifests num_sources st)
      with (bind (accumulate_round manifests num_sources st)
                 (rounds (S j) manifests num_sources)).
    rewrite Ha. exact IH.
Qed.

Lemma accumulates_in_rounds_holds manifests needed starting num_sources tw acc :
  length needed = Z.to_nat num_sources ->
  accumulated needed starting manifests num_sources tw = Ok acc ->
  accumulates_in_rounds manifests needed starting num_sources tw acc.
Proof.
  intros Hneeded H. unfold accumulated in H.
  apply accumulate_rounds in H as (k & Hk & Hstop & Hbefore).
  pose proof (after_rounds_initial manifests starting num_sources) as Hinit.
  assert (forall j stj, rounds j manifests num_sources (initial_state starting num_sources)
                        = Ok stj ->
          forall more, keep_accumulating needed tw stj = Ok more ->
          (more = false <-> stop_condition needed tw num_sources stj)) as Hcond.
  { intros j stj Hj more Hmore.
    pose proof (after_rounds_rounds _ _ _ j 0%nat _ _ Hinit Hj) as (L1 & L2 & _).
    destruct (keep_accumulating_spec needed tw num_sources stj L1 L2 Hneeded)
      as (more' & Hmore' & Hiff).
    assert (more' = more) by congruence. by subst. }
  exists k. split; [done|]. split; [by apply (Hcond k acc Hk false Hstop)|].
  intros j Hj.
  destruct (Hbefore j Hj) as (stj & Hrj & Hkeep).
  destruct (rounds_split k (S j) _ _ _ _ Hk ltac:(lia)) as (st' & Hsj & _).
  pose proof Hsj as Hsj'.
  destruct (rounds_split (S j) j _ _ _ _ Hsj ltac:(lia)) as (stj' & Hrj' & Hone).
  assert (stj' = stj) by congruence. subst stj'.
  replace (S j - j)%nat with 1%nat in Hone by lia. simpl in Hone.
  destruct (accumulate_round manifests num_sources stj) as [st''| |] eqn:Hround;
    simpl in Hone; try discriminate.
  inversion Hone; subst st''.
  exists stj, st'. split; [done|]. split.
  { intros Hs. apply (Hcond j stj Hrj true Hkeep) in Hs. discriminate. }
  split; [done|]. split; [done|].
  by apply accumulate_round_spec in Hround as (Hadd & _).
Qed.

Lemma weights_or_uniform_spec weights num_sources used :
  weights_or_uniform weights num_sources = Ok used ->
  match weights with
  | Some w => used = w
  | None =>
      length used = Z.to_nat num_sources /\
      forall w, w ∈ used ->
        exists n, float_of_int num_sources = Ok n /\ w = PrimFloat.div 1%float n
  end.
Proof.
  unfold weights_or_uniform. destruct weights as [w|]; intros H; [congruence|].
  split.
  - apply mapM_length in H. by rewrite range_length in H.
  - intros w Hw. apply list_elem_of_lookup in Hw as [i Hi].
    pose proof (mapM_length _ _ _ H) as Hlen. rewrite range_length in Hlen.
    assert (i < Z.to_nat num_sources)%nat as Hlt by (apply lookup_lt_Some in Hi; lia).
    destruct (mapM_lookup _ _ _ i _ H (range_lookup _ _ Hlt)) as (y & Hy & Hf).
    assert (y = w) by congruence. subst y.
    inv_bind Hf. exists a. split; [done|].
    unfold float_div in Hf. destruct (PrimFloat.eqb a 0); [done|]. congruence.
Qed.

Lemma float_sum_left_to_right l : sum_left_to_right l (float_sum l).
Proof.
  induction l as [|x l IH] using rev_ind; [constructor|].
  unfold float_sum in *. rewrite fold_left_app. simpl. by constructor.
Qed.

Lemma int_ceil_ceiling x z : int_ceil x = Ok z -> ceiling_of x z.
Proof.
  unfold int_ceil, ceiling_of, float_value.
  destruct (Prim2SF x) as [s| | |s m e]; intros H; try discriminate.
  - inversion H; subst. eexists. split; [reflexivity|]. split; reflexivity || done.
  - inversion H; subst; clear H. eexists. split; [reflexivity|].
    set (n := if s then Z.neg m else Z.pos m).
    destruct (Z.leb_spec 0 e) as [He|He].
    + unfold Qlt, Qle, Qminus, Qplus, Qopp, inject_Z. simpl. lia.
    + assert (0 < 2 ^ (- e)) as Hpos by (apply Z.pow_pos_nonneg; lia).
      pose proof (Z.div_mod (- n) (2 ^ (- e)) ltac:(lia)) as Hdm.
      pose proof (Z.mod_pos_bound (- n) (2 ^ (- e)) Hpos) as Hmod.
      unfold Qlt, Qle, Qminus, Qplus, Qopp, inject_Z. simpl.
      rewrite Z2Pos.id by done. nia.
Qed.

Lemma quota_formula_holds num_samples weights num_sources needed :
  quotas num_samples weights num_sources = Ok needed ->
  quota_formula num_samples weights num_sources needed.
Proof.
  unfold quotas. intros H. inv_bind H. rename a into used, Ha into Hused.
  destruct (Z.eqb_spec (len used) num_sources) as [Hlen|]; [|discriminate].
  exists used, (float_sum used). apply weights_or_uniform_spec in Hused.
  split; [destruct weights; [done|apply Hused]|].
  split; [done|].
  unfold needed_samples_per_source in H.
  pose proof (mapM_length _ _ _ H) as Hn. rewrite range_length in Hn.
  split; [done|].
  split; [apply float_sum_left_to_right|].
  intros i Hi.
  destruct (mapM_lookup _ _ _ i _ H (range_lookup _ _ Hi)) as (q & Hq & Hf).
  unfold needed_samples in Hf.
  inv_bind Hf. inv_bind Hf. inv_bind Hf.
  apply py_index_Ok_nat in Ha.
  unfold float_div in Ha1.
  destruct (PrimFloat.eqb (float_sum used) 0) eqn:Hzero; [done|].
  inversion Ha1; subst. exists a, q, a0.
  split; [done|]. split; [done|]. split; [done|]. split; [done|].
  by apply int_ceil_ceiling.
Qed.



(** ** C5 *)

Lemma add_shard_exhausted manifests st i :
  exhausted manifests st i ->
  add_shard manifests st (Z.of_nat i) = Raise IndexError.
Proof.
  intros (manifest & cursor & Hman & Hcur & Hpast).
  unfold add_shard. rewrite !py_index_nat, Hman, Hcur. simpl.
  unfold py_index. pose proof (len_nonneg manifest).
  destruct (Z.ltb_spec cursor 0); [lia|].
  destruct (Z.ltb_spec cursor 0); [lia|].
  rewrite lookup_ge_None_2; [done|]. unfold len in *. lia.
Qed.

Lemma add_shard_servable manifests st i :
  servable manifests st i ->
  (i < length (shard_list_per_source st))%nat ->
  (i < length (num_samples_per_source st))%nat ->
  exists st', add_shard manifests st (Z.of_nat i) = Ok st'.
Proof.
  intros (manifest & cursor & m & name & count & Hman & Hcur & Hm & Hname & Hcount) L1 L2.
  destruct (lookup_lt_is_Some_2 _ _ L1) as [sl Hsl].
  destruct (lookup_lt_is_Some_2 _ _ L2) as [ns Hns].
  pose proof (lookup_lt_Some _ _ _ Hcur) as L3.
  apply record_shard_Ok in Hname.
  unfold add_shard.
  rewrite py_index_nat, Hman; simpl. rewrite py_index_nat, Hcur; simpl.
  rewrite Hm; simpl. rewrite Hname; simpl. rewrite Hcount; simpl.
  rewrite py_index_nat, Hsl; simpl.
  rewrite py_setitem_nat. destruct (decide _) as [_|?]; [simpl|lia].
  rewrite py_index_nat, Hns; simpl.
  rewrite py_setitem_nat. destruct (decide _) as [_|?]; [simpl|lia].
  rewrite py_setitem_nat. destruct (decide _) as [_|?]; [simpl|lia].
  eexists. reflexivity.
Qed.

Lemma servable_local manifests st st' i :
  servable manifests st i -> same_at i st st' -> servable manifests st' i.
Proof.
  intros (manifest & cursor & m & name & count & H) (E & _).
  exists manifest, cursor, m, name, count. by rewrite E.
Qed.

Lemma exhausted_local manifests st st' i :
  exhausted manifests st i -> same_at i st st' -> exhausted manifests st' i.
Proof.
  intros (manifest & cursor & H) (E & _).
  exists manifest, cursor. by rewrite E.
Qed.

(** The sources from [a] on, [k] of them, all servable: the loop gets through
    them and leaves the others alone. *)
Lemma add_shards_servable manifests k a st :
  (forall i, (a <= i < a + k)%nat ->
     servable manifests st i /\
     (i < length (shard_list_per_source st))%nat /\
     (i < length (num_samples_per_source st))%nat) ->
  exists st', foldM (add_shard manifests) (Z.of_nat <$> seq a k) st = Ok st' /\
              same_lengths st st' /\
              forall i, ~ (a <= i < a + k)%nat -> same_at i st st'.
Proof.
  revert a st. induction k as [|k IH]; intros a st H.
  - exists st. simpl. split; [done|]. split; [by repeat split|].
    intros; apply same_at_refl.
  - destruct (H a ltac:(lia)) as (Hs & L1 & L2).
    destruct (add_shard_servable _ _ _ Hs L1 L2) as (st1 & Hst1).
    pose proof (add_shard_step _ _ _ _ Hst1) as (_ & Hlen & Hsame).
    destruct (IH (S a) st1) as (st' & Hst' & Hlen' & Hsame').
    { intros i Hi. destruct (H i ltac:(lia)) as (Hsi & L1i & L2i).
      destruct Hlen as (_ & E2 & E3).
      split; [|lia]. eapply servable_local; [exact Hsi|]. apply Hsame. lia. }
    exists st'. simpl. rewrite Hst1. simpl. split; [done|].
    split; [eapply same_lengths_trans; eauto|].
    intros i Hi. eapply same_at_trans; [apply Hsame; lia|apply Hsame'; lia].
Qed.

Lemma seq_split (i n : nat) : (i < n)%nat -> seq 0 n = seq 0 i ++ i :: seq (S i) (n - S i).
Proof.
  intros Hi. replace n with (i + S (n - S i))%nat at 1 by lia.
  rewrite seq_app. simpl. done.
Qed.

(** The sources before [i] are served, source [i] is not: the round stops on
    the access to the manifest of source [i]. *)
Lemma accumulate_round_exhausted manifests num_sources st i :
  (i < Z.to_nat num_sources)%nat ->
  length (shard_list_per_source st) = Z.to_nat num_sources ->
  length (num_samples_per_source st) = Z.to_nat num_sources ->
  exhausted manifests st i ->
  (forall j, (j < i)%nat -> servable manifests st j) ->
  exists st_i,
    foldM (add_shard manifests) (range (Z.of_nat i)) st = Ok st_i /\
    add_shard manifests st_i (Z.of_nat i) = Raise IndexError /\
    accumulate_round manifests num_sources st = Raise IndexError.
Proof.
  intros Hi L1 L2 Hex Hserv.
  destruct (add_shards_servable manifests i 0 st) as (st_i & Hst_i & _ & Hsame).
  { intros j Hj. split; [apply Hserv; lia|lia]. }
  assert (add_shard manifests st_i (Z.of_nat i) = Raise IndexError) as Hfail.
  { apply add_shard_exhausted. eapply exhausted_local; [exact Hex|]. apply Hsame. lia. }
  exists st_i. unfold range. rewrite Nat2Z.id. split; [done|]. split; [done|].
  unfold accumulate_round, range. rewrite (seq_split i _ Hi), fmap_app, foldM_app.
  rewrite Hst_i. simpl. rewrite Hfail. done.
Qed.

(** Every source servable: the round goes through. *)
Lemma accumulate_round_servable manifests num_sources st :
  length (shard_list_per_source st) = Z.to_nat num_sources ->
  length (num_samples_per_source st) = Z.to_nat num_sources ->
  (forall i, (i < Z.to_nat num_sources)%nat -> servable manifests st i) ->
  exists st', accumulate_round manifests num_sources st = Ok st'.
Proof.
  intros L1 L2 Hserv.
  destruct (add_shards_servable manifests (Z.to_nat num_sources) 0 st) as (st' & Hst' & _).
  { intros j Hj. split; [apply Hserv; lia|lia]. }
  exists st'. exact Hst'.
Qed.

(** Rounds that the loop makes are rounds it has made, whatever the fuel
    that is left. *)
Lemma accumulate_after_rounds k fuel manifests num_sources needed tw st st' :
  rounds k manifests num_sources st = Ok st' ->
  (forall j, (j < k)%nat ->
     exists stj, rounds j manifests num_sources st = Ok stj /\
                 keep_accumulating needed tw stj = Ok true) ->
  accumulate (k + fuel) manifests num_sources needed tw st
  = accumulate fuel manifests num_sources needed tw st'.
Proof.
  revert st. induction k as [|k IH]; intros st Hk Hbefore; simpl in *.
  - by inversion Hk.
  - inv_bind Hk.
    destruct (Hbefore 0%nat ltac:(lia)) as (st0 & H0 & Hkeep). simpl in H0.
    inversion H0; subst st0. rewrite Hkeep. simpl. rewrite Ha. simpl.
    apply IH; [done|]. intros j Hj.
    destruct (Hbefore (S j) ltac:(lia)) as (stj & Hj' & Hkeepj). simpl in Hj'.
    rewrite Ha in Hj'. simpl in Hj'. eauto.
Qed.

Lemma accumulated_exhausted needed starting manifests num_sources tw k st i :
  rounds k manifests num_sources (initial_state starting num_sources) = Ok st ->
  (forall j, (j <= k)%nat ->
     exists stj, rounds j manifests num_sources (initial_state starting num_sources)
                 = Ok stj /\
                 keep_accumulating needed tw stj = Ok true) ->
  (i < Z.to_nat num_sources)%nat ->
  exhausted manifests st i ->
  (forall j, (j < i)%nat -> servable manifests st j) ->
  accumulate_round manifests num_sources st = Raise IndexError /\
  accumulated needed starting manifests num_sources tw = Raise IndexError.
Proof.
  intros Hk Hbefore Hi Hex Hserv.
  pose proof (after_rounds_rounds _ _ _ k 0%nat _ _
                (after_rounds_initial manifests starting num_sources) Hk)
    as (L1 & L2 & _).
  destruct (accumulate_round_exhausted _ _ _ _ Hi L1 L2 Hex Hserv) as (_ & _ & _ & Hround).
  split; [done|].
  assert (accumulate (k + 1) manifests num_sources needed tw
                     (initial_state starting num_sources) = Raise IndexError) as Hrun.
  { rewrite (accumulate_after_rounds k 1 _ _ needed tw _ _ Hk).
    - simpl. destruct (Hbefore k ltac:(lia)) as (stk & Hk' & Hkeep).
      assert (stk = st) by congruence. subst. rewrite Hkeep. simpl. by rewrite Hround.
    - intros j Hj. apply Hbefore. lia. }
  unfold accumulated.
  destruct (Nat.le_ge_cases (k + 1) (rounds_bound manifests)) as [Hle|Hle].
  - eapply accumulate_more_fuel; [exact Hrun|done|done].
  - pose proof (returns_accumulated needed starting manifests num_sources tw) as Hret.
    unfold returns, accumulated in Hret.
    rewrite <- Hrun. symmetry.
    eapply accumulate_more_fuel; [reflexivity|exact Hret|done].
Qed.

(** ** C8 *)

Lemma quotas_mismatch num_samples w num_sources :
  len w <> num_sources ->
  quotas num_samples (Some w) num_sources = Raise AssertionError.
Proof.
  intros H. unfold quotas. simpl.
  destruct (Z.eqb_spec (len w) num_sources); [done|reflexivity].
Qed.

Lemma diagnostics_unit fs json_loads paths :
  diagnostics fs json_loads paths = Ok tt \/
  exists e, diagnostics fs json_loads paths = Raise e.
Proof.
  pose proof (returns_diagnostics fs json_loads paths) as H.
  destruct (diagnostics fs json_loads paths) as [[]|e|]; [by left|right; eauto|done].
Qed.

Lemma single_epoch_string_mismatch fs json_loads num_samples starting paths w wpg ws :
  len w <> len paths ->
  match diagnostics fs json_loads paths with
  | Ok _ =>
      _single_epoch_string fs json_loads num_samples starting paths (Some w) wpg ws
      = Raise AssertionError
  | r =>
      _single_epoch_string fs json_loads num_samples starting paths (Some w) wpg ws
      = bind r (fun _ => Raise AssertionError)
  end.
Proof.
  intros H. unfold _single_epoch_string, allocate.
  rewrite (quotas_mismatch _ _ _ H).
  destruct (diagnostics fs json_loads paths); done.
Qed.

(** ** C9: the heap outside the copy *)

Lemma touches_only_hret l {A} (a : A) : touches_only l (hret a).
Proof. by intros h l' _. Qed.

Lemma touches_only_hlift l {A} (r : result A) : touches_only l (hlift r).
Proof. by intros h l' _. Qed.

Lemma touches_only_hbind l {A B} (c : heap_op A) (k : A -> heap_op B) :
  touches_only l c -> (forall a, touches_only l (k a)) -> touches_only l (hbind c k).
Proof.
  intros Hc Hk h l' Hl'. unfold hbind.
  specialize (Hc h l' Hl'). destruct (c h) as [[a|e|] h1]; simpl in *; [|done|done].
  rewrite (Hk a h1 l' Hl'). done.
Qed.

Lemma touches_only_hfoldM l {A S} (body : S -> A -> heap_op S) (xs : list A) (s : S) :
  (forall s x, touches_only l (body s x)) -> touches_only l (hfoldM body xs s).
Proof.
  intros Hbody. revert s. induction xs as [|x xs IH]; intros s; simpl.
  - apply touches_only_hret.
  - apply touches_only_hbind; [apply Hbody|apply IH].
Qed.

Lemma touches_only_load_item l l0 i : touches_only l (load_item l0 i).
Proof. intros h l' _. unfold load_item. by destruct (h !! l0). Qed.

Lemma touches_only_store_item l i v : touches_only l (store_item l i v).
Proof.
  intros h l' Hl'. unfold store_item.
  destruct (h !! l) as [xs|]; [|done].
  destruct (py_setitem xs i v); simpl; [|done|done].
  by rewrite lookup_insert_ne.
Qed.

Ltac touches_step :=
  first
    [ apply touches_only_hret | apply touches_only_hlift
    | apply touches_only_load_item | apply touches_only_store_item
    | apply touches_only_hfoldM; intros
    | apply touches_only_hbind; [|intros] ].

Lemma touches_only_add_shard_heap manifests next ls i :
  touches_only next (add_shard_heap manifests next ls i).
Proof. unfold add_shard_heap. repeat touches_step. Qed.

Lemma touches_only_truncate_source_heap starting next tw ls i :
  touches_only next (truncate_source_heap starting next tw ls i).
Proof. unfold truncate_source_heap. repeat touches_step. Qed.

Lemma touches_only_accumulate_heap fuel manifests num_sources needed tw next ls :
  touches_only next (accumulate_heap fuel manifests num_sources needed tw next ls).
Proof.
  revert ls. induction fuel as [|fuel IH]; intros ls; simpl.
  - apply touches_only_hlift.
  - apply touches_only_hbind; [apply touches_only_hlift|]. intros [|].
    + apply touches_only_hbind; [|intros; apply IH].
      apply touches_only_hfoldM. intros. apply touches_only_add_shard_heap.
    + apply touches_only_hret.
Qed.

Lemma keeps_heap_hlift {A} (r : result A) : keeps_heap (hlift r).
Proof. by intros h l xs H. Qed.

Lemma keeps_heap_hbind {A B} (c : heap_op A) (k : A -> heap_op B) :
  keeps_heap c -> (forall a, keeps_heap (k a)) -> keeps_heap (hbind c k).
Proof.
  intros Hc Hk h l xs Hl. unfold hbind.
  specialize (Hc h l xs Hl). destruct (c h) as [[a|e|] h1]; simpl in *; [|done|done].
  by apply Hk.
Qed.

(** The copy is at a new location: a computation that only touches the copy
    keeps the heap. *)
Lemma keeps_heap_deepcopy {B} (starting : loc) (k : loc -> heap_op B) :
  (forall next, touches_only next (k next)) -> keeps_heap (hbind (deepcopy starting) k).
Proof.
  intros Hk h l xs Hl. unfold hbind, deepcopy.
  destruct (h !! starting) as [cursors|]; simpl; [|done].
  assert (l <> fresh (dom h)) as Hne.
  { intros E. apply (is_fresh (dom h)). rewrite <- E. apply elem_of_dom. eauto. }
  rewrite (Hk (fresh (dom h))) by done. by rewrite lookup_insert_ne.
Qed.

(** Every list that was on the heap before the call is on it after the call,
    unchanged, whether the call returns or raises. *)
Lemma single_epoch_string_heap_frame fs json_loads num_samples starting paths weights
    wpg ws :
  keeps_heap (_single_epoch_string_heap fs json_loads num_samples starting paths weights
                                        wpg ws).
Proof.
  unfold _single_epoch_string_heap.
  apply keeps_heap_hbind; [apply keeps_heap_hlift|intros _].
  apply keeps_heap_hbind; [apply keeps_heap_hlift|intros needed].
  apply keeps_heap_hbind; [apply keeps_heap_hlift|intros manifests].
  apply keeps_heap_deepcopy. intros next.
  apply touches_only_hbind; [apply touches_only_accumulate_heap|intros ls].
  apply touches_only_hbind.
  { apply touches_only_hfoldM. intros. apply touches_only_truncate_source_heap. }
  intros ls'. apply touches_only_hbind; [apply touches_only_hlift|intros].
  apply touches_only_hret.
Qed.

(** A weight vector of the wrong length: nothing on the heap is touched, not
    even the copy of the cursors is made. *)
Lemma single_epoch_string_heap_mismatch fs json_loads num_samples starting paths w wpg ws h :
  len w <> len paths ->
  (_single_epoch_string_heap fs json_loads num_samples starting paths (Some w) wpg ws h).2
  = h.
Proof.
  intros H. unfold _single_epoch_string_heap.
  unfold hbind at 1. unfold hlift at 1.
  destruct (diagnostics fs json_loads paths); simpl; try done.
  unfold hbind at 1. unfold hlift at 1.
  rewrite (quotas_mismatch _ _ _ H). done.
Qed.

(** ** C10: the lines of a manifest text *)

Lemma append_nil (s : string) : EmptyString +:+ s = s.
Proof. reflexivity. Qed.

Lemma append_cons (c : ascii) (s1 s2 : string) : String c s1 +:+ s2 = String c (s1 +:+ s2).
Proof. reflexivity. Qed.

Lemma append_assoc (s1 s2 s3 : string) : (s1 +:+ s2) +:+ s3 = s1 +:+ (s2 +:+ s3).
Proof.
  induction s1 as [|c s1 IH]; [done|]. by rewrite !append_cons, IH.
Qed.

Lemma split_on_line c s rest :
  has_char c s = false ->
  split_on c (s +:+ String c rest) = s :: split_on c rest.
Proof.
  induction s as [|c' s IH]; intros H.
  - rewrite append_nil. simpl. by rewrite Ascii.eqb_refl.
  - rewrite append_cons. simpl in *.
    apply orb_false_iff in H as [Hc Hs]. rewrite Hc, (IH Hs). done.
Qed.

Lemma split_on_last c s : has_char c s = false -> split_on c s = [s].
Proof.
  induction s as [|c' s IH]; simpl; intros H; [done|].
  apply orb_false_iff in H as [Hc Hs]. by rewrite Hc, (IH Hs).
Qed.

Lemma split_on_unlines segs last :
  Forall (fun s => has_char newline s = false) segs ->
  has_char newline last = false ->
  split_on newline (unlines segs +:+ last) = segs ++ [last].
Proof.
  intros Hsegs Hlast. induction Hsegs as [|s segs Hs _ IH]; simpl.
  - rewrite append_nil. by apply split_on_last.
  - rewrite append_assoc, append_cons, (split_on_line _ _ _ Hs), IH. done.
Qed.

Lemma py_slice_to_drop_last {A} (l : list A) (x : A) : py_slice_to (l ++ [x]) (-1) = l.
Proof.
  unfold py_slice_to, len. simpl. rewrite length_app. simpl.
  replace (Z.to_nat (-1 + Z.of_nat (length l + 1))) with (length l) by lia.
  by rewrite take_app_length.
Qed.

(** The text after the last newline is not a line of the manifest. *)
Lemma manifest_lines_unlines segs last :
  Forall (fun s => has_char newline s = false) segs ->
  has_char newline last = false ->
  manifest_lines (unlines segs +:+ last) = segs.
Proof.
  intros Hsegs Hlast. unfold manifest_lines.
  rewrite split_on_unlines by done. apply py_slice_to_drop_last.
Qed.

Lemma unlines_app segs last :
  unlines (segs ++ [last]) = unlines segs +:+ last +:+ String newline EmptyString.
Proof.
  induction segs as [|s segs IH]; simpl.
  - by rewrite append_nil.
  - by rewrite IH, !append_assoc, append_cons.
Qed.

(** ** Everything reads the manifests through [get_metadata_file] *)

Lemma mapM_ext {A B} (f g : A -> result B) (l : list A) :
  (forall x, f x = g x) -> mapM f l = mapM g l.
Proof. intros H. induction l as [|x l IH]; simpl; [done|]. by rewrite H, IH. Qed.

Section SameManifests.
Variables fs1 fs2 : string -> option string.
Variable json_loads : string -> option manifest_record.
Hypothesis same : forall path,
  get_metadata_file fs1 json_loads path = get_metadata_file fs2 json_loads path.

Lemma count_small_shards_same path :
  count_small_shards fs1 json_loads path = count_small_shards fs2 json_loads path.
Proof. unfold count_small_shards. by rewrite same. Qed.

Lemma are_sources_imbalanced_same paths :
  are_sources_imbalanced_with_each_other fs1 json_loads paths
  = are_sources_imbalanced_with_each_other fs2 json_loads paths.
Proof.
  unfold are_sources_imbalanced_with_each_other. f_equal.
  apply mapM_ext. intros p. by rewrite same.
Qed.

Lemma diagnostics_same paths :
  diagnostics fs1 json_loads paths = diagnostics fs2 json_loads paths.
Proof.
  unfold diagnostics. rewrite are_sources_imbalanced_same.
  by rewrite (mapM_ext _ _ paths count_small_shards_same).
Qed.

Lemma single_epoch_string_same num_samples starting paths weights wpg ws :
  _single_epoch_string fs1 json_loads num_samples starting paths weights wpg ws
  = _single_epoch_string fs2 json_loads num_samples starting paths weights wpg ws.
Proof.
  unfold _single_epoch_string, allocate.
  by rewrite diagnostics_same, (mapM_ext _ _ paths same).
Qed.

Lemma checkpoint_round_same shard_ids total_steps a paths manifests st :
  checkpoint_round fs1 json_loads shard_ids total_steps a paths manifests st
  = checkpoint_round fs2 json_loads shard_ids total_steps a paths manifests st.
Proof.
  unfold checkpoint_round, get_string_for_epoch.
  by rewrite single_epoch_string_same.
Qed.

Lemma checkpoint_rounds_same shard_ids fuel total_steps a paths manifests st :
  checkpoint_rounds fs1 json_loads shard_ids fuel total_steps a paths manifests st
  = checkpoint_rounds fs2 json_loads shard_ids fuel total_steps a paths manifests st.
Proof.
  revert st. induction fuel as [|fuel IH]; intros st; simpl; [done|].
  destruct (num_ltb (steps_done st) (PyInt total_steps)) as [[|]| |]; simpl; try done.
  rewrite checkpoint_round_same.
  destruct (checkpoint_round fs2 json_loads shard_ids total_steps a paths manifests st);
    simpl; auto.
Qed.

Lemma log_num_checkpoints_same is_master shard_ids fuel total_steps a :
  log_num_checkpoints fs1 json_loads is_master shard_ids fuel total_steps a
  = log_num_checkpoints fs2 json_loads is_master shard_ids fuel total_steps a.
Proof.
  unfold log_num_checkpoints. destruct (dataset_manifest a) as [paths|]; [|done].
  rewrite (mapM_ext _ _ paths same).
  destruct (mapM (get_metadata_file fs2 json_loads) paths); simpl; try done.
  destruct (mapM convert_metadata_to_dict a0); simpl; try done.
  by rewrite checkpoint_rounds_same.
Qed.
End SameManifests.

Lemma get_metadata_file_with_file fs json_loads path text text' p :
  fs path = Some text ->
  manifest_lines text' = manifest_lines text ->
  get_metadata_file (with_file fs path text') json_loads p
  = get_metadata_file fs json_loads p.
Proof.
  intros Hfs Hlines. unfold get_metadata_file, read_text, with_file.
  destruct (String.eqb_spec p path) as [->|]; [|done].
  rewrite Hfs. simpl. by rewrite Hlines.
Qed.

(** Every text is some lines, each ended by a newline, and a last segment
    without newline (empty when the text ends with a newline). *)
Lemma text_lines_and_last text :
  exists segs last,
    text = unlines segs +:+ last /\
    Forall (fun s => has_char newline s = false) segs /\
    has_char newline last = false.
Proof.
  induction text as [|c t (segs & last & -> & Hsegs & Hlast)].
  - exists [], EmptyString. by repeat split.
  - destruct (Ascii.eqb c newline) eqn:E.
    + apply Ascii.eqb_eq in E. subst c.
      exists (EmptyString :: segs), last. split; [|split; [|done]].
      * reflexivity.
      * by constructor.
    + destruct segs as [|s segs].
      * exists [], (String c last). split; [|split; [done|]].
        -- reflexivity.
        -- simpl. rewrite E. exact Hlast.
      * exists (String c s :: segs), last. split; [|split; [|done]].
        -- reflexivity.
        -- inversion Hsegs; subst. constructor; [|done]. simpl. by rewrite E.
Qed.

(** ** C4: the projection in closed form *)

Lemma scatter_spec m indexed acc :
  0 < m -> length acc = Z.to_nat m ->
  exists acc',
    foldM (scatter m) indexed acc = Ok acc' /\
    length acc' = length acc /\
    forall (g : nat) a, acc !! g = Some a ->
      acc' !! g = Some (a + sum_at m (Z.of_nat g) indexed).
Proof.
  intros Hm. revert acc. induction indexed as [|[i x] rest IH]; intros acc Hlen.
  - exists acc. simpl. split; [done|]. split; [done|].
    intros g a Hg. rewrite Hg. f_equal; lia.
  - pose proof (Z.mod_pos_bound i m Hm) as Hmod.
    assert (Z.to_nat (i mod m) < length acc)%nat as Hw by lia.
    destruct (lookup_lt_is_Some_2 _ _ Hw) as [old Hold].
    assert (scatter m acc (i, x) = Ok (<[Z.to_nat (i mod m) := old + x]> acc)) as Hstep.
    { unfold scatter, pymod. destruct (Z.eqb_spec m 0); [lia|]. simpl.
      revert Hw Hold. generalize (Z.to_nat (i mod m)) (Z2Nat.id (i mod m) ltac:(lia)).
      intros k <- Hw Hold.
      rewrite py_index_nat, Hold. simpl.
      rewrite py_setitem_nat. by destruct (decide _). }
    destruct (IH (<[Z.to_nat (i mod m) := old + x]> acc)) as (acc' & Hfold & Hlen' & Hget).
    { by rewrite length_insert. }
    exists acc'.
    change (foldM (scatter m) ((i, x) :: rest) acc)
      with (bind (scatter m acc (i, x)) (foldM (scatter m) rest)).
    rewrite Hstep. simpl. split; [done|].
    split; [by rewrite Hlen', length_insert|].
    intros g a Hg. simpl.
    destruct (decide (g = Z.to_nat (i mod m))) as [->|Hne].
    + rewrite (Hget _ (old + x)).
      * rewrite Z2Nat.id by lia. rewrite Z.eqb_refl.
        assert (a = old) by congruence. subst. f_equal; lia.
      * rewrite list_lookup_insert_eq by done. done.
    + rewrite (Hget _ a).
      * destruct (Z.eqb_spec (i mod m) (Z.of_nat g)); [lia|]. f_equal.
      * by rewrite list_lookup_insert_ne.
Qed.

Lemma scatter_from_zeros m indexed :
  0 < m ->
  foldM (scatter m) indexed (replicate (Z.to_nat m) 0)
  = Ok ((fun g => sum_at m g indexed) <$> range m).
Proof.
  intros Hm.
  destruct (scatter_spec m indexed (replicate (Z.to_nat m) 0) Hm) as (acc' & Hfold & Hlen & Hget).
  { by rewrite length_replicate. }
  rewrite Hfold. f_equal. rewrite length_replicate in Hlen.
  apply list_eq. intros g. unfold range. rewrite <- list_fmap_compose, list_lookup_fmap.
  destruct (decide (g < Z.to_nat m)%nat) as [Hlt|Hge].
  - rewrite lookup_seq_lt by done. simpl.
    rewrite (Hget g 0); [done|]. by apply lookup_replicate_2.
  - rewrite lookup_seq_ge by lia. simpl. apply lookup_ge_None. lia.
Qed.

Lemma samples_per_global_worker_closed num_global_workers num_samples_per_shard :
  0 < num_global_workers ->
  samples_per_global_worker num_global_workers num_samples_per_shard
  = Ok (samples_on_worker num_global_workers num_samples_per_shard
          <$> range num_global_workers).
Proof.
  intros H. unfold samples_per_global_worker.
  change (foldM (scatter num_global_workers)
            (zip (range (len num_samples_per_shard)) num_samples_per_shard)
            (replicate (Z.to_nat num_global_workers) 0) = 
          Ok (samples_on_worker num_global_workers num_samples_per_shard
                <$> range num_global_workers)).
  by rewrite scatter_from_zeros.
Qed.

Lemma mapM_Ok {A B} (f : A -> result B) (g : A -> B) (l : list A) :
  (forall x, x ∈ l -> f x = Ok (g x)) -> mapM f l = Ok (g <$> l).
Proof.
  induction l as [|x l IH]; intros H; simpl; [done|].
  rewrite H by left. simpl. rewrite IH; [done|].
  intros y Hy. apply H. by right.
Qed.

Lemma fold_left_add_from l a : fold_left Z.add l a = a + fold_left Z.add l 0.
Proof.
  revert a. induction l as [|y l IH]; intros a; simpl; [lia|].
  rewrite (IH (a + y)), (IH (0 + y)). lia.
Qed.

Lemma sum_cons x l : sum (x :: l) = x + sum l.
Proof. unfold sum. simpl. apply fold_left_add_from. Qed.

(** *** Arithmetic modulo [2^64] *)

Lemma in_int64_spec n : in_int64 n = true <-> - 2 ^ 63 <= n < 2 ^ 63.
Proof. unfold in_int64. rewrite andb_true_iff, Z.leb_le, Z.ltb_lt. done. Qed.

Lemma wrap64_in n : in_int64 n = true -> wrap64 n = n.
Proof. rewrite in_int64_spec. intros H. unfold wrap64. rewrite Z.mod_small; lia. Qed.

Lemma wrap64_range n : in_int64 (wrap64 n) = true.
Proof.
  apply in_int64_spec. unfold wrap64.
  pose proof (Z.mod_pos_bound (n + 2 ^ 63) (2 ^ 64) ltac:(lia)). lia.
Qed.

Lemma wrap64_shift n k : wrap64 (n + k * 2 ^ 64) = wrap64 n.
Proof.
  unfold wrap64. replace (n + k * 2 ^ 64 + 2 ^ 63) with (n + 2 ^ 63 + k * 2 ^ 64) by lia.
  by rewrite Z_mod_plus_full.
Qed.

Lemma wrap64_eqm n : exists k, wrap64 n = n + k * 2 ^ 64.
Proof.
  exists (- ((n + 2 ^ 63) / 2 ^ 64)). unfold wrap64.
  pose proof (Z.div_mod (n + 2 ^ 63) (2 ^ 64) ltac:(lia)). lia.
Qed.

Lemma wrap64_add_l a b : wrap64 (wrap64 a + b) = wrap64 (a + b).
Proof.
  destruct (wrap64_eqm a) as [k ->].
  replace (a + k * 2 ^ 64 + b) with (a + b + k * 2 ^ 64) by lia. apply wrap64_shift.
Qed.

Lemma wrap64_add_r a b : wrap64 (a + wrap64 b) = wrap64 (a + b).
Proof. rewrite Z.add_comm, wrap64_add_l. f_equal; lia. Qed.

Lemma wrap64_mul_l a b : wrap64 (wrap64 a * b) = wrap64 (a * b).
Proof.
  destruct (wrap64_eqm a) as [k ->].
  replace ((a + k * 2 ^ 64) * b) with (a * b + (k * b) * 2 ^ 64) by lia. apply wrap64_shift.
Qed.

(** *** The arrays of line 286 and their sum *)

Lemma mapM_floordiv global_batch_size nsamples batches :
  mapM (fun n => floordiv n global_batch_size) nsamples = Ok batches ->
  batches = (fun n => n / global_batch_size) <$> nsamples.
Proof.
  revert batches. induction nsamples as [|n nsamples IH]; intros batches H; simpl in H.
  - by inversion H.
  - inv_bind H. inv_bind H. inversion H; subst; clear H.
    unfold floordiv in Ha. destruct (global_batch_size =? 0); [done|].
    inversion Ha; subst. rewrite fmap_cons. f_equal. by apply IH.
Qed.

Lemma np_array_Ok l arr :
  np_array l = Ok arr -> arr = l /\ Forall (fun b => in_int64 b = true) l.
Proof.
  unfold np_array. destruct (forallb in_int64 l) eqn:E; [|done].
  intros [= <-]. split; [done|]. apply Forall_forall. intros b Hb.
  rewrite forallb_forall in E. apply E. by apply list_elem_of_In.
Qed.

Lemma np_array_in l :
  Forall (fun b => in_int64 b = true) l -> np_array l = Ok l.
Proof.
  intros H. unfold np_array.
  assert (forallb in_int64 l = true) as ->; [|done].
  apply forallb_forall. intros b Hb. rewrite Forall_forall in H. apply H.
  by apply list_elem_of_In.
Qed.

Lemma batches_per_global_worker_Ok global_batch_size nsamples arr :
  batches_per_global_worker global_batch_size nsamples = Ok arr ->
  arr = (fun n => n / global_batch_size) <$> nsamples /\
  Forall (fun n => in_int64 (n / global_batch_size) = true) nsamples.
Proof.
  unfold batches_per_global_worker. intros H. inv_bind H.
  apply mapM_floordiv in Ha. subst a.
  apply np_array_Ok in H as [-> Hall]. split; [done|].
  by rewrite Forall_fmap in Hall.
Qed.

Lemma batches_per_global_worker_closed global_batch_size nsamples :
  global_batch_size <> 0 ->
  Forall (fun n => in_int64 (n / global_batch_size) = true) nsamples ->
  batches_per_global_worker global_batch_size nsamples
  = Ok ((fun n => n / global_batch_size) <$> nsamples).
Proof.
  intros H Hall. unfold batches_per_global_worker.
  rewrite (mapM_Ok _ (fun n => n / global_batch_size)).
  - simpl. apply np_array_in. by rewrite Forall_fmap.
  - intros n _. unfold floordiv. by destruct (Z.eqb_spec global_batch_size 0).
Qed.

Lemma np_sum_arrays (f : list Z -> Z -> Z) (idx : list Z) (sources : list (list Z))
    (g : Z -> Z) :
  fold_left np_add ((fun s => f s <$> idx) <$> sources)
            (Array ((fun w => wrap64 (g w)) <$> idx))
  = Array ((fun w => wrap64 (g w + sum ((fun s => f s w) <$> sources))) <$> idx).
Proof.
  revert g. induction sources as [|s sources IH]; intros g.
  - simpl. f_equal. apply list_fmap_ext. intros _ w _. unfold sum. simpl. f_equal; lia.
  - rewrite fmap_cons. cbn [fold_left np_add].
    assert (zip_with (fun u v => wrap64 (u + v)) ((fun w => wrap64 (g w)) <$> idx)
                     (f s <$> idx)
            = (fun w => wrap64 (g w + f s w)) <$> idx) as E.
    { clear. induction idx as [|w idx IH]; [done|]. rewrite !fmap_cons. cbn [zip_with].
      by rewrite IH, wrap64_add_l. }
    rewrite E, (IH (fun w => g w + f s w)). f_equal. apply list_fmap_ext. intros _ w _.
    rewrite fmap_cons, sum_cons. f_equal; lia.
Qed.

Lemma np_sum_from_zero (f : list Z -> Z -> Z) (idx : list Z) (sources : list (list Z)) :
  sources <> [] ->
  fold_left np_add ((fun s => f s <$> idx) <$> sources) (Scalar 0)
  = Array ((fun w => wrap64 (sum ((fun s => f s w) <$> sources))) <$> idx).
Proof.
  destruct sources as [|s sources]; [done|]. intros _.
  rewrite fmap_cons. cbn [fold_left np_add].
  assert ((fun v => wrap64 (0 + v)) <$> (f s <$> idx)
          = (fun w => wrap64 (0 + f s w)) <$> idx) as E
    by (by rewrite <- list_fmap_compose).
  rewrite E, (np_sum_arrays f idx sources (fun w => 0 + f s w)).
  f_equal. apply list_fmap_ext. intros _ w _. rewrite fmap_cons, sum_cons. f_equal; lia.
Qed.

(** *** The batches of the gpus *)

Lemma gpu_entry_in x : gpu_entry x -> in_int64 (value x) = true.
Proof. intros [->|(n & -> & H)]; [done|done]. Qed.

Lemma num_add_gpu_entry x b :
  gpu_entry x -> num_add x (NpInt64 b) = Ok (NpInt64 (wrap64 (value x + b))).
Proof. intros [->|(n & -> & H)]; reflexivity. Qed.

Lemma sum_at_wrap m g (b : Z -> Z) ks :
  wrap64 (sum_at m g ((fun w => (w, wrap64 (b w))) <$> ks))
  = wrap64 (sum_at m g ((fun w => (w, b w)) <$> ks)).
Proof.
  induction ks as [|k ks IH]; [done|]. rewrite !fmap_cons. cbn [sum_at].
  rewrite <- wrap64_add_r, IH, wrap64_add_r.
  destruct (k mod m =? g); [apply wrap64_add_l|done].
Qed.

Lemma batches_per_gpu_from world_size (batches : np_value) (b : Z -> Z) ks acc :
  0 < world_size -> length acc = Z.to_nat world_size ->
  (forall k, k ∈ ks -> np_getitem batches k = Ok (b k)) ->
  Forall gpu_entry acc ->
  exists acc',
    foldM (gpu_step world_size batches) ks acc = Ok acc' /\
    length acc' = length acc /\
    Forall gpu_entry acc' /\
    forall (g : nat) x, acc !! g = Some x ->
      exists x', acc' !! g = Some x' /\
                 value x' = wrap64 (value x + sum_at world_size (Z.of_nat g)
                                                     ((fun w => (w, b w)) <$> ks)).
Proof.
  intros Hws. revert acc. induction ks as [|k ks IH]; intros acc Hlen Hget Hacc.
  - exists acc. simpl. split; [done|]. split; [done|]. split; [done|].
    intros g x Hg. exists x. split; [done|].
    rewrite Z.add_0_r, wrap64_in; [done|].
    apply gpu_entry_in. rewrite Forall_forall in Hacc. apply Hacc.
    by eapply list_elem_of_lookup_2.
  - pose proof (Z.mod_pos_bound k world_size Hws) as Hmod.
    assert (Z.to_nat (k mod world_size) < length acc)%nat as Hw by lia.
    destruct (lookup_lt_is_Some_2 _ _ Hw) as [old Hold].
    assert (gpu_entry old) as Hentry.
    { rewrite Forall_forall in Hacc. apply Hacc. by eapply list_elem_of_lookup_2. }
    set (new := NpInt64 (wrap64 (value old + b k))).
    destruct (IH (<[Z.to_nat (k mod world_size) := new]> acc))
      as (acc' & Hfold & Hlen' & Hacc' & Hval).
    { by rewrite length_insert. }
    { intros k' Hk'. apply Hget. by right. }
    { apply Forall_insert; [done|]. right. eexists. split; [done|]. apply wrap64_range. }
    exists acc'. split; [|split; [by rewrite Hlen', length_insert|split; [done|]]].
    + assert (gpu_step world_size batches acc k
              = Ok (<[Z.to_nat (k mod world_size) := new]> acc)) as Hstep.
      { unfold gpu_step, pymod. destruct (Z.eqb_spec world_size 0); [lia|]. simpl.
        clear Hfold Hval Hacc' Hlen'. revert Hw Hold.
        generalize (Z.to_nat (k mod world_size)) (Z2Nat.id (k mod world_size) ltac:(lia)).
        intros j <- Hw Hold.
        rewrite py_index_nat, Hold. simpl. rewrite Hget by left. simpl.
        rewrite (num_add_gpu_entry old (b k) Hentry). simpl.
        rewrite py_setitem_nat. by destruct (decide _). }
      change (foldM (gpu_step world_size batches) (k :: ks) acc)
        with (bind (gpu_step world_size batches acc k)
                   (foldM (gpu_step world_size batches) ks)).
      rewrite Hstep. exact Hfold.
    + intros g x Hg. rewrite fmap_cons. cbn [sum_at].
      destruct (decide (g = Z.to_nat (k mod world_size))) as [->|Hne].
      * assert (x = old) by congruence. subst x.
        destruct (Hval (Z.to_nat (k mod world_size)) new) as (x' & Hx' & Hv).
        { by rewrite list_lookup_insert_eq. }
        exists x'. split; [done|]. rewrite Hv. unfold new. simpl.
        rewrite Z2Nat.id by lia. rewrite Z.eqb_refl, wrap64_add_l. f_equal; lia.
      * destruct (Hval g x) as (x' & Hx' & Hv).
        { by rewrite list_lookup_insert_ne. }
        exists x'. split; [done|]. rewrite Hv.
        destruct (Z.eqb_spec (k mod world_size) (Z.of_nat g)); [lia|]. done.
Qed.

(** The gpu loop over an array with the entries [wrap64 (b w)]. *)
Lemma batches_per_gpu_closed world_size num_global_workers (b : Z -> Z) :
  0 < world_size ->
  exists out,
    batches_per_gpu world_size num_global_workers
      (Array ((fun w => wrap64 (b w)) <$> range num_global_workers)) = Ok out /\
    Forall gpu_entry out /\
    value <$> out
    = (fun g => wrap64 (sum_at world_size g ((fun w => (w, b w)) <$> range num_global_workers)))
        <$> range world_size.
Proof.
  intros Hws.
  unfold batches_per_gpu.
  destruct (batches_per_gpu_from world_size
              (Array ((fun w => wrap64 (b w)) <$> range num_global_workers))
              (fun w => wrap64 (b w)) (range num_global_workers)
              (replicate (Z.to_nat world_size) (PyInt 0)) Hws)
    as (out & Hfold & Hlen & Hout & Hval).
  { by rewrite length_replicate. }
  { intros k Hk. unfold range in Hk. apply list_elem_of_fmap in Hk as (j & -> & Hj).
    apply elem_of_seq in Hj. simpl.
    rewrite py_index_nat, list_lookup_fmap, range_lookup by lia. done. }
  { apply Forall_replicate. by left. }
  exists out. split; [done|]. split; [done|].
  rewrite length_replicate in Hlen.
  apply list_eq. intros g. unfold range at 2.
  rewrite <- list_fmap_compose, !list_lookup_fmap.
  destruct (decide (g < Z.to_nat world_size)%nat) as [Hlt|Hge].
  - rewrite lookup_seq_lt by done. simpl.
    destruct (Hval g (PyInt 0)) as (x' & -> & Hv); [by apply lookup_replicate_2|].
    simpl. f_equal. rewrite Hv. simpl. apply sum_at_wrap.
  - rewrite lookup_seq_ge by lia. simpl.
    rewrite (proj2 (lookup_ge_None out g)); [done|lia].
Qed.

Lemma batches_in_int64_Forall num_global_workers global_batch_size sources :
  batches_in_int64 num_global_workers global_batch_size sources <->
  Forall (fun l => Forall (fun n => in_int64 (n / global_batch_size) = true) l)
         ((fun s => samples_on_worker num_global_workers s <$> range num_global_workers)
            <$> sources).
Proof.
  unfold batches_in_int64. rewrite Forall_fmap, Forall_forall. split.
  - intros H s Hs. simpl. rewrite Forall_fmap, Forall_forall. intros w Hw. simpl.
    apply H; [done|]. unfold range in Hw. apply list_elem_of_fmap in Hw as (j & -> & Hj).
    apply elem_of_seq in Hj. lia.
  - intros H s w Hs Hw. specialize (H s Hs). simpl in H.
    rewrite Forall_fmap, Forall_forall in H. apply (H w).
    unfold range. apply list_elem_of_fmap. exists (Z.to_nat w). split; [lia|].
    apply elem_of_seq. lia.
Qed.

(** The projection, for at least one source, gpu and worker, a batch size
    other than zero and batch counts that fit 64 bits. *)
Lemma project_closed world_size num_global_workers global_batch_size sources :
  0 < world_size -> 0 < num_global_workers -> global_batch_size <> 0 ->
  sources <> [] ->
  batches_in_int64 num_global_workers global_batch_size sources ->
  exists out,
    project world_size num_global_workers global_batch_size sources = Ok out /\
    Forall gpu_entry out /\
    value <$> out = projected world_size num_global_workers global_batch_size sources.
Proof.
  intros Hws Hn Hgbs Hsources Hin. unfold project.
  rewrite (mapM_Ok _ (fun s => samples_on_worker num_global_workers s
                                 <$> range num_global_workers))
    by (intros; by apply samples_per_global_worker_closed).
  simpl.
  rewrite (mapM_Ok _ (fun l => (fun n => n / global_batch_size) <$> l)).
  2: { intros l Hl. apply batches_per_global_worker_closed; [done|].
       apply batches_in_int64_Forall in Hin. rewrite Forall_forall in Hin. by apply Hin. }
  simpl.
  assert ((fun l => (fun n => n / global_batch_size) <$> l)
            <$> ((fun s => samples_on_worker num_global_workers s
                             <$> range num_global_workers) <$> sources)
          = (fun s => (fun w => samples_on_worker num_global_workers s w / global_batch_size)
                        <$> range num_global_workers) <$> sources) as E.
  { rewrite <- list_fmap_compose. apply list_fmap_ext. intros _ s _. simpl.
    by rewrite <- list_fmap_compose. }
  rewrite E.
  rewrite (np_sum_from_zero
             (fun s w => samples_on_worker num_global_workers s w / global_batch_size))
    by done.
  apply (batches_per_gpu_closed world_size num_global_workers
           (batches_of_worker global_batch_size num_global_workers sources) Hws).
Qed.

(** For one source the two ways of counting batches agree. *)
Lemma batches_of_worker_one_source global_batch_size num_global_workers source w :
  batches_of_worker global_batch_size num_global_workers [source] w
  = batches_of_worker_pooled global_batch_size num_global_workers [source] w.
Proof.
  unfold batches_of_worker, batches_of_worker_pooled, sum. simpl. done.
Qed.

Lemma range_cons n : 0 < n -> range n = 0 :: (Z.of_nat <$> seq 1 (Z.to_nat n - 1)).
Proof.
  intros H. unfold range.
  replace (Z.to_nat n) with (S (Z.to_nat n - 1)) at 1 by lia. reflexivity.
Qed.

Lemma range_nil n : n <= 0 -> range n = [].
Proof. intros H. unfold range. by replace (Z.to_nat n) with 0%nat by lia. Qed.

Lemma zeros_replicate n : (fun _ : Z => 0) <$> range n = replicate (Z.to_nat n) 0.
Proof.
  unfold range. generalize 0%nat.
  induction (Z.to_nat n) as [|k IH]; intros a; simpl; [done|]. by rewrite IH.
Qed.

Lemma mapM_Ok_inv {A B} (f : A -> result B) (P : A -> Prop) (g : A -> B) (l : list A)
    (l' : list B) :
  (forall x y, f x = Ok y -> y = g x /\ P x) ->
  mapM f l = Ok l' -> l' = g <$> l /\ Forall P l.
Proof.
  intros Hf. revert l'. induction l as [|x l IH]; intros l' H; simpl in H.
  - inversion H. by split.
  - inv_bind H. inv_bind H. inversion H; subst; clear H.
    destruct (Hf _ _ Ha) as [-> HP]. destruct (IH _ Ha0) as [-> Hall].
    split; [done|by constructor].
Qed.

(** Whenever the projection returns, it returns the closed form modulo
    [2^64], in entries that are the Python [0] or an int64. *)
Lemma project_Ok_closed world_size num_global_workers global_batch_size sources out :
  project world_size num_global_workers global_batch_size sources = Ok out ->
  Forall gpu_entry out /\
  value <$> out = projected world_size num_global_workers global_batch_size sources.
Proof.
  intros H.
  destruct (Z.lt_ge_cases 0 num_global_workers) as [Hn|Hn].
  - destruct (Z.lt_ge_cases 0 world_size) as [Hws|Hws].
    + destruct sources as [|s sources].
      * exfalso. unfold project in H. simpl in H. unfold batches_per_gpu in H.
        rewrite (range_cons _ Hn) in H. simpl in H.
        unfold gpu_step at 1, pymod in H. destruct (Z.eqb_spec world_size 0); [lia|]. simpl in H.
        rewrite Z.mod_0_l in H by lia. unfold py_index in H. simpl in H.
        rewrite lookup_replicate_2 in H by lia. simpl in H. discriminate.
      * destruct (Z.eq_dec global_batch_size 0) as [->|Hgbs].
        -- exfalso. unfold project in H. simpl in H.
           rewrite samples_per_global_worker_closed in H by done. simpl in H.
           destruct (mapM (samples_per_global_worker num_global_workers) sources);
             simpl in H; try discriminate.
           unfold batches_per_global_worker in H. rewrite (range_cons _ Hn) in H.
           simpl in H. discriminate.
        -- assert (batches_in_int64 num_global_workers global_batch_size (s :: sources))
             as Hin.
           { apply batches_in_int64_Forall. unfold project in H.
             rewrite (mapM_Ok _ (fun s => samples_on_worker num_global_workers s
                                            <$> range num_global_workers)) in H
               by (intros; by apply samples_per_global_worker_closed).
             cbn [bind] in H. inv_bind H.
             apply (mapM_Ok_inv _ (fun l => Forall (fun n => in_int64 (n / global_batch_size)
                                                             = true) l)
                                (fun l => (fun n => n / global_batch_size) <$> l)) in Ha
               as [_ Hall]; [done|].
             intros l arr. apply batches_per_global_worker_Ok. }
           destruct (project_closed world_size num_global_workers global_batch_size
                       (s :: sources) Hws Hn Hgbs ltac:(done) Hin) as (out' & Hout & ? & ?).
           assert (out' = out) by congruence. by subst.
    + exfalso. unfold project in H. inv_bind H. inv_bind H.
      unfold batches_per_gpu in H. rewrite (range_cons _ Hn) in H. simpl in H.
      unfold gpu_step at 1, pymod in H.
      destruct (Z.eqb_spec world_size 0); [discriminate|]. simpl in H.
      rewrite Z.mod_0_l in H by lia. unfold py_index in H. simpl in H.
      replace (Z.to_nat world_size) with 0%nat in H by lia. simpl in H. discriminate.
  - unfold project in H. inv_bind H. inv_bind H.
    unfold batches_per_gpu in H. rewrite (range_nil _ Hn) in H. simpl in H.
    inversion H; subst out; clear H.
    split; [apply Forall_replicate; by left|].
    unfold projected, batches_of_gpu. rewrite (range_nil _ Hn). simpl.
    rewrite fmap_replicate. simpl. symmetry. apply zeros_replicate.
Qed.

(** ** C6: the pre-count *)

Lemma num_ltb_Ok x y c : num_ltb x y = Ok c -> c = (value x <? value y).
Proof.
  unfold num_ltb, as_int64. destruct x as [a|a], y as [b|b]; simpl.
  - by intros [= <-].
  - destruct (in_int64 a); simpl; [by intros [= <-]|done].
  - destruct (in_int64 b); simpl; [by intros [= <-]|done].
  - by intros [= <-].
Qed.

Lemma num_op_Ok op x y z :
  num_op op x y = Ok z ->
  match x, y with
  | PyInt a, PyInt b => z = PyInt (op a b)
  | _, _ => z = NpInt64 (wrap64 (op (value x) (value y)))
  end.
Proof.
  unfold num_op, as_int64. destruct x as [a|a], y as [b|b]; simpl.
  - by intros [= <-].
  - destruct (in_int64 a); simpl; [by intros [= <-]|done].
  - destruct (in_int64 b); simpl; [by intros [= <-]|done].
  - by intros [= <-].
Qed.

Lemma num_min_from l x m :
  foldM (fun m y => below <- num_ltb y m ;; Ok (if below then y else m)) l x = Ok m ->
  (m = x \/ m ∈ l) /\
  value m <= value x /\
  forall y, y ∈ l -> value m <= value y.
Proof.
  revert x. induction l as [|z l IH]; intros x H; simpl in H.
  - inversion H; subst. split; [by left|]. split; [lia|].
    intros y Hy. by apply elem_of_nil in Hy.
  - inv_bind H. inv_bind Ha. inversion Ha; subst; clear Ha.
    apply num_ltb_Ok in Ha0. subst a0.
    destruct (IH _ H) as (Hin & Hle & Hall).
    destruct (Z.ltb_spec (value z) (value x)) as [Hlt|Hge].
    + split; [right; destruct Hin as [->|Hin]; [by left|by right]|].
      split; [lia|].
      intros y Hy. apply elem_of_cons in Hy as [->|Hy]; [done|by apply Hall].
    + split; [destruct Hin as [->|Hin]; [by left|right; by right]|].
      split; [done|].
      intros y Hy. apply elem_of_cons in Hy as [->|Hy]; [lia|by apply Hall].
Qed.

Lemma num_min_spec l m :
  num_min l = Ok m -> m ∈ l /\ forall y, y ∈ l -> value m <= value y.
Proof.
  destruct l as [|x l]; simpl; intros H; [discriminate|].
  apply num_min_from in H as (Hin & Hle & Hall).
  split.
  - destruct Hin as [->|Hin]; [by left|by right].
  - intros y Hy. apply elem_of_cons in Hy as [->|Hy]; [done|by apply Hall].
Qed.

Lemma mapM_Forall2 {A B} (f : A -> result B) (l : list A) (l' : list B) :
  mapM f l = Ok l' -> Forall2 (fun x y => f x = Ok y) l l'.
Proof.
  revert l'. induction l as [|x l IH]; simpl; intros l' H.
  - inversion H. constructor.
  - inv_bind H. inv_bind H. inversion H; subst. constructor; eauto.
Qed.

(** The counts that line 274 reads are those of the dictionaries. *)
Lemma lookup_num_samples_spec shard_ids manifests shard_strings counts :
  lookup_num_samples manifests (shard_ids <$> shard_strings) = Ok counts ->
  counts_of_strings shard_ids manifests shard_strings counts.
Proof.
  unfold lookup_num_samples. intros H.
  pose proof (mapM_length _ _ _ H) as Hlen. rewrite range_length, len_to_nat in Hlen.
  split; [done|].
  intros i manifest Hi.
  assert (i < Z.to_nat (len manifests))%nat as Hlt.
  { rewrite len_to_nat. by eapply lookup_lt_Some. }
  destruct (mapM_lookup _ _ _ i _ H (range_lookup _ _ Hlt)) as (cs & Hcs & Hf).
  inv_bind Hf. inv_bind Hf.
  apply py_index_Ok_nat in Ha, Ha0.
  assert (a = manifest) by congruence. subst a.
  rewrite list_lookup_fmap in Ha0.
  destruct (shard_strings !! i) as [s|] eqn:Hs; [|done].
  inversion Ha0; subst a0; clear Ha0.
  exists s, cs. split; [done|]. split; [done|].
  apply mapM_Forall2 in Hf. eapply Forall2_impl; [exact Hf|].
  intros shard_id n. simpl. by destruct (manifest !! shard_id) as [n'|]; intros [= ->].
Qed.

Lemma checkpoint_round_step fs json_loads shard_ids total_steps a paths manifests st st' :
  in_int64 (value (steps_done st)) = true ->
  checkpoint_round fs json_loads shard_ids total_steps a paths manifests st = Ok st' ->
  checkpoint_step fs json_loads shard_ids total_steps a paths manifests st st'.
Proof.
  unfold checkpoint_round. intros Hin H.
  inv_bind H. destruct a0 as [[shard_strings totals] next].
  inv_bind H. rename a0 into counts, Ha0 into Hcounts.
  inv_bind H. rename a0 into per_gpu, Ha0 into Hproject.
  inv_bind H. rename a0 into steps_epoch, Ha0 into Hmin.
  inv_bind H. rename a0 into steps, Ha0 into Hadd.
  inv_bind H. rename a0 into above, Ha0 into Habove.
  inv_bind H. rename a0 into batch_tokens, Ha0 into Hbatch.
  inv_bind H. rename a0 into tokens, Ha0 into Htokens.
  inversion H; subst st'; clear H. simpl.
  apply lookup_num_samples_spec in Hcounts.
  apply project_Ok_closed in Hproject as [Hentries Hvalues].
  apply num_min_spec in Hmin as [Hmem Hmin].
  apply num_ltb_Ok in Habove. simpl in Habove. subst above.
  assert (value steps = wrap64 (value (steps_done st) + value steps_epoch)) as Hsteps.
  { rewrite Forall_forall in Hentries. specialize (Hentries _ Hmem).
    apply num_op_Ok in Hadd.
    destruct (steps_done st) as [s|s], Hentries as [->|(n & -> & Hn)]; simpl in *;
      subst steps; simpl; try done.
    rewrite Z.add_0_r. by rewrite wrap64_in. }
  exists shard_strings, totals, counts, per_gpu, steps_epoch, steps.
  split; [done|]. split; [done|]. split; [done|]. split; [done|]. split; [done|].
  split; [apply num_op_Ok in Hadd; by destruct (steps_done st), steps_epoch|].
  split; [done|]. split; [done|]. split; [|done].
  set (steps' := if total_steps <? value steps then PyInt total_steps else steps) in *.
  apply num_op_Ok in Hbatch, Htokens.
  destruct steps' as [n|n]; simpl in *; subst batch_tokens; simpl in *; subst tokens.
  - done.
  - by rewrite wrap64_mul_l.
Qed.

Lemma checkpoint_step_counters fs json_loads shard_ids total_steps a paths manifests st st' :
  checkpoint_step fs json_loads shard_ids total_steps a paths manifests st st' ->
  counters_ok total_steps a st'.
Proof.
  intros (strs & totals & counts & per_gpu & steps_epoch & steps & _ & _ & _ & _ & _ & _ &
          Hsteps & Hdone & Htokens & _).
  split; [|split; [|done]]; rewrite Hdone.
  - destruct (Z.ltb_spec total_steps (value steps)); simpl; lia.
  - destruct (Z.ltb_spec total_steps (value steps)); [by right|left].
    rewrite Hsteps. apply wrap64_range.
Qed.

Lemma checkpoint_rounds_counters fs json_loads shard_ids fuel total_steps a paths manifests
    st st' :
  counters_ok total_steps a st ->
  checkpoint_rounds fs json_loads shard_ids fuel total_steps a paths manifests st = Ok st' ->
  value (steps_done st') = total_steps /\ counters_ok total_steps a st'.
Proof.
  revert st. induction fuel as [|fuel IH]; intros st Hok H; simpl in H; [discriminate|].
  inv_bind H. apply num_ltb_Ok in Ha. simpl in Ha. subst a0.
  destruct (Z.ltb_spec (value (steps_done st)) total_steps) as [Hlt|Hge].
  - inv_bind H. apply (IH a0); [|done].
    eapply checkpoint_step_counters, checkpoint_round_step; [|exact Ha].
    destruct Hok as (_ & [Hin|Heq] & _); [done|]. rewrite Heq in Hlt. simpl in Hlt. lia.
  - inversion H; subst st'. split; [|done]. destruct Hok as (Hle & _). lia.
Qed.

Lemma checkpoint_rounds_run fs json_loads shard_ids fuel total_steps a paths manifests
    st st' :
  counters_ok total_steps a st ->
  checkpoint_rounds fs json_loads shard_ids fuel total_steps a paths manifests st = Ok st' ->
  exists k,
    precount_run (checkpoint_step fs json_loads shard_ids total_steps a paths manifests)
                 total_steps st st' k /\
    checkpoints_made st' = checkpoints_made st + Z.of_nat k.
Proof.
  revert st. induction fuel as [|fuel IH]; intros st Hok H; simpl in H; [discriminate|].
  inv_bind H. apply num_ltb_Ok in Ha. simpl in Ha. subst a0.
  destruct (Z.ltb_spec (value (steps_done st)) total_steps) as [Hlt|Hge].
  - inv_bind H. rename a0 into st1.
    assert (checkpoint_step fs json_loads shard_ids total_steps a paths manifests st st1)
      as Hstep.
    { apply checkpoint_round_step; [|done].
      destruct Hok as (_ & [Hin|Heq] & _); [done|]. rewrite Heq in Hlt. simpl in Hlt. lia. }
    destruct (IH st1 (checkpoint_step_counters _ _ _ _ _ _ _ _ _ Hstep) H) as (k & Hrun & Hk).
    exists (S k). split; [by eapply run_goes_on|].
    destruct Hstep as (? & ? & ? & ? & ? & ? & _ & _ & _ & _ & _ & _ & _ & _ & _ & Hmade).
    lia.
  - inversion H; subst st'. exists 0%nat. split; [by constructor|]. lia.
Qed.

Lemma mapM_mapM_Forall2 {A B C} (f : A -> result B) (g : B -> result C) l l1 l2 :
  mapM f l = Ok l1 -> mapM g l1 = Ok l2 ->
  Forall2 (fun x z => exists y, f x = Ok y /\ g y = Ok z) l l2.
Proof.
  intros H1 H2. apply mapM_Forall2 in H1, H2. revert l2 H2.
  induction H1 as [|x y l l1 Hxy _ IH]; intros l2 H2; inversion H2; subst; [constructor|].
  constructor; [by exists y|by apply IH].
Qed.

Lemma log_num_checkpoints_run fs json_loads is_master shard_ids fuel total_steps a paths r :
  dataset_manifest a = Some paths ->
  0 <= total_steps ->
  log_num_checkpoints fs json_loads is_master shard_ids fuel total_steps a = Ok r ->
  exists manifests k,
    Forall2 (fun path manifest_dict =>
               exists manifest, get_metadata_file fs json_loads path = Ok manifest /\
                                convert_metadata_to_dict manifest = Ok manifest_dict)
            paths manifests /\
    precount_run (checkpoint_step fs json_loads shard_ids total_steps a paths manifests)
                 total_steps
                 {| steps_done := PyInt 0;
                    tokens_seen := PyInt 0;
                    sim_next_shard_per_source := replicate (length paths) 0;
                    checkpoints_made := 0 |}
                 (final r) k /\
    checkpoints_made (final r) = Z.of_nat k.
Proof.
  intros Hpaths Hsteps. unfold log_num_checkpoints. rewrite Hpaths.
  intros H. inv_bind H. rename Ha into Hload.
  inv_bind H. rename Ha into Hdict.
  inv_bind H. rename Ha into Hrounds.
  inversion H; subst r; clear H. simpl.
  apply checkpoint_rounds_run in Hrounds as (k & Hrun & Hk).
  2: { split; [simpl; lia|]. split; [by left|]. reflexivity. }
  exists a1, k. split; [by eapply mapM_mapM_Forall2|]. split; [done|]. simpl in Hk. lia.
Qed.

Lemma log_num_checkpoints_final fs json_loads is_master shard_ids fuel total_steps a r :
  0 <= total_steps ->
  log_num_checkpoints fs json_loads is_master shard_ids fuel total_steps a = Ok r ->
  value (steps_done (final r)) = total_steps /\
  tokens_seen (final r)
  = match steps_done (final r) with
    | PyInt n => PyInt (n * global_batch_size a * seq_len a)
    | NpInt64 n => NpInt64 (wrap64 (n * global_batch_size a * seq_len a))
    end /\
  (in_int64 (total_steps * global_batch_size a * seq_len a) = true ->
   value (tokens_seen (final r)) = total_steps * global_batch_size a * seq_len a) /\
  warned r = is_master a && negb (checkpoints_made (final r) =? epochs a).
Proof.
  intros Hsteps. unfold log_num_checkpoints.
  destruct (dataset_manifest a) as [paths|]; [|discriminate].
  intros H. inv_bind H. rename Ha into Hload.
  inv_bind H. rename Ha into Hdict.
  inv_bind H. rename Ha into Hrounds.
  inversion H; subst r; clear H. simpl.
  apply checkpoint_rounds_counters in Hrounds as (Hdone & _ & _ & Htokens).
  2: { split; [simpl; lia|]. split; [by left|]. reflexivity. }
  split; [done|]. split; [done|]. split; [|done].
  intros Hin. rewrite Htokens.
  destruct (steps_done a2) as [n|n]; simpl in *; subst n; [done|by apply wrap64_in].
Qed.

(** ** C7: records as decoded *)

Lemma get_metadata_file_decoded fs json_loads path records :
  get_metadata_file fs json_loads path = Ok records ->
  exists text,
    fs path = Some text /\
    Forall2 (fun line m => json_loads line = Some m) (manifest_lines text) records.
Proof.
  unfold get_metadata_file, read_text. intros H.
  destruct (fs path) as [text|]; [|discriminate]. simpl in H.
  exists text. split; [done|].
  apply mapM_Forall2 in H. eapply Forall2_impl; [exact H|].
  intros line m. unfold loads. destruct (json_loads line); intros E; congruence.
Qed.

Lemma record_num_samples_fallback m n :
  record_num_samples m = Ok n <->
  num_sequences m = Some n \/ (num_sequences m = None /\ num_chunks m = Some n).
Proof.
  unfold record_num_samples.
  destruct (num_sequences m), (num_chunks m); split; intros H;
    try (destruct H as [H|[H1 H2]]); try congruence; try (left; congruence);
    try (right; split; congruence).
Qed.

Lemma complete_cases (m : manifest_record) :
  (exists name n, shard m = Some name /\ record_num_samples m = Ok n /\ complete m) \/
  (~ complete m /\ (shard m = None \/ record_num_samples m = Raise KeyError)).
Proof.
  unfold complete, record_num_samples.
  destruct m as [[s|] [n|] [c|]]; simpl.
  all: try (left; eexists _, _; split; [done|]; split; [done|];
            split; [by eexists|]; (by left; eexists) || (by right; eexists)).
  all: right; split; [|by eauto].
  all: intros (Hs & Hc); try (by destruct Hs as [? ?]).
  all: destruct Hc as [[? ?]|[? ?]]; done.
Qed.

(** The loop of [convert_metadata_to_dict] from any dictionary. *)
Lemma convert_loop manifest : forall d0 : gmap string Z,
  let body := fun (manifest_dict : gmap string Z) m =>
    match shard m, num_sequences m with
    | Some s, Some n => Ok (<[s := n]> manifest_dict)
    | _, _ =>
        s <- record_shard m ;;
        match num_chunks m with
        | Some n => Ok (<[s := n]> manifest_dict)
        | None => Raise KeyError
        end
    end in
  (Forall complete manifest /\
   exists d, foldM body manifest d0 = Ok d /\
             forall name, d !! name = match last_count name manifest with
                                      | Some n => Some n
                                      | None => d0 !! name
                                      end) \/
  (~ Forall complete manifest /\ foldM body manifest d0 = Raise KeyError).
Proof.
  induction manifest as [|m manifest IH]; intros d0; cbv zeta in *;
    match goal with |- context [foldM ?f _ _] => set (body := f) end;
    try fold body in IH.
  - left. split; [constructor|]. exists d0. by split.
  - destruct (complete_cases m) as [(s & v & Hs & Hv & Hm)|[Hm Hbad]].
    + assert (body d0 m = Ok (<[s := v]> d0)) as Hbody.
      { unfold body, record_shard. unfold record_num_samples in Hv.
        destruct m as [[s'|] [n|] [c|]]; simpl in *; congruence. }
      simpl. fold body. rewrite Hbody. simpl.
      destruct (IH (<[s := v]> d0)) as [(Hall & d & Hd & Hlook)|(Hall & Hd)]; try fold body in Hd.
      * left. split; [by constructor|]. exists d. split; [done|].
        intros name. rewrite Hlook.
        destruct (last_count name manifest); [done|].
        rewrite Hs, Hv. destruct (decide (Some s = Some name)) as [[= ->]|Hne].
        -- by rewrite lookup_insert_eq.
        -- rewrite lookup_insert_ne; [done|congruence].
      * right. split; [|done]. intros H. inversion H; subst. done.
    + right. split; [intros H; by inversion H|].
      assert (body d0 m = Raise KeyError) as Hbody.
      { unfold body, record_shard. unfold record_num_samples in Hbad.
        destruct m as [[s'|] [n|] [c|]]; simpl in *; try done;
          destruct Hbad; done. }
      simpl. fold body. by rewrite Hbody.
Qed.

Lemma last_count_Some name manifest n :
  last_count name manifest = Some n ->
  exists m, m ∈ manifest /\ shard m = Some name /\ record_num_samples m = Ok n.
Proof.
  induction manifest as [|m0 manifest IH]; simpl; [done|].
  destruct (last_count name manifest) as [n'|].
  - intros [= ->]. destruct (IH eq_refl) as (m & Hm & ?). exists m. split; [by right|done].
  - destruct (decide (shard m0 = Some name)) as [Hs|]; [|done].
    destruct (record_num_samples m0) as [n0| |] eqn:Hn; [|done|done].
    intros [= ->]. exists m0. split; [by left|done].
Qed.

Lemma last_count_None name manifest m :
  Forall complete manifest -> last_count name manifest = None ->
  m ∈ manifest -> shard m <> Some name.
Proof.
  induction manifest as [|m0 manifest IH]; intros Hall Hnone Hm; [by inversion Hm|].
  apply Forall_cons in Hall as [Hm0 Hall]. simpl in Hnone.
  destruct (last_count name manifest) eqn:Hrest; [done|].
  apply elem_of_cons in Hm as [->|Hm]; [|by apply IH].
  destruct (decide (shard m0 = Some name)) as [Hs|]; [|done].
  destruct (complete_cases m0) as [(s & v & _ & Hv & _)|[Hbad _]]; [|done].
  by rewrite Hv in Hnone.
Qed.

(** The dictionary of the pre-count holds, under every name, a count read
    with the fallback from a record of that name, and has every record's
    name as a key. *)
Lemma convert_metadata_to_dict_counts manifest d :
  convert_metadata_to_dict manifest = Ok d ->
  (forall name n, d !! name = Some n ->
     exists m, m ∈ manifest /\ shard m = Some name /\ record_num_samples m = Ok n) /\
  (forall m, m ∈ manifest ->
     exists name n, shard m = Some name /\ record_num_samples m = Ok n /\
                    is_Some (d !! name)).
Proof.
  intros H. unfold convert_metadata_to_dict in H.
  destruct (convert_loop manifest ∅) as [(Hall & d' & Hd & Hlook)|(_ & Hd)];
    cbv zeta in *; rewrite Hd in H; [|done].
  assert (d' = d) by congruence. subst d'.
  split.
  - intros name n Hn. rewrite Hlook in Hn.
    destruct (last_count name manifest) as [n'|] eqn:Hlast; [|done].
    assert (n' = n) by congruence. subst. by apply last_count_Some.
  - intros m Hm. pose proof Hall as Hall'. rewrite Forall_forall in Hall'.
    destruct (complete_cases m) as [(name & n & Hs & Hn & _)|[Hbad _]];
      [|by destruct Hbad; apply Hall'].
    exists name, n. split; [done|]. split; [done|]. rewrite Hlook.
    destruct (last_count name manifest) eqn:Hlast; [by eexists|].
    by destruct (last_count_None name manifest m Hall Hlast Hm).
Qed.

(** The counts of the diagnostics are read record by record with the
    fallback: all of them, or a [KeyError] for a record without count. *)
Lemma shard_sizes_cases data :
  (exists sizes, shard_sizes data = Ok sizes /\
                 Forall2 (fun m s => record_num_samples m = Ok s) data sizes) \/
  (shard_sizes data = Raise KeyError /\
   exists m, m ∈ data /\ num_sequences m = None /\ num_chunks m = None).
Proof.
  unfold shard_sizes. induction data as [|m data IH]; simpl.
  - left. exists []. split; [done|constructor].
  - destruct (record_num_samples m) as [n|e|] eqn:Hn; simpl.
    + destruct IH as [(sizes & -> & Hall)|[-> (m' & Hm' & Hnone)]]; simpl.
      * left. exists (n :: sizes). split; [done|]. by constructor.
      * right. split; [done|]. exists m'. split; [by right|done].
    + unfold record_num_samples in Hn.
      destruct (num_sequences m) eqn:Hseq; [done|].
      destruct (num_chunks m) eqn:Hch; [done|].
      inversion Hn; subst e.
      right. split; [done|]. exists m. split; [by left|done].
    + unfold record_num_samples in Hn.
      by destruct (num_sequences m), (num_chunks m).
Qed.

(** Fuel that is not used up is not missed. *)
Lemma checkpoint_rounds_more_fuel fs json_loads shard_ids fuel fuel' total_steps a paths
    manifests st r :
  checkpoint_rounds fs json_loads shard_ids fuel total_steps a paths manifests st = r ->
  r <> OutOfFuel -> (fuel <= fuel')%nat ->
  checkpoint_rounds fs json_loads shard_ids fuel' total_steps a paths manifests st = r.
Proof.
  revert fuel' st. induction fuel as [|fuel IH]; intros fuel' st H Hr Hle; simpl in H.
  - congruence.
  - destruct fuel' as [|fuel']; [lia|]. simpl.
    destruct (num_ltb (steps_done st) (PyInt total_steps)) as [[|]| |]; simpl in *;
      try done.
    destruct (checkpoint_round fs json_loads shard_ids total_steps a paths manifests st);
      simpl in *; try done.
    apply IH; [done|done|lia].
Qed.

Lemma log_num_checkpoints_more_fuel fs json_loads is_master shard_ids fuel fuel'
    total_steps a r :
  log_num_checkpoints fs json_loads is_master shard_ids fuel total_steps a = r ->
  r <> OutOfFuel -> (fuel <= fuel')%nat ->
  log_num_checkpoints fs json_loads is_master shard_ids fuel' total_steps a = r.
Proof.
  unfold log_num_checkpoints. intros H Hr Hle.
  destruct (dataset_manifest a) as [paths|]; [|done].
  destruct (mapM (get_metadata_file fs json_loads) paths) as [ms| |]; simpl in *; try done.
  destruct (mapM convert_metadata_to_dict ms) as [ds| |]; simpl in *; try done.
  destruct (checkpoint_rounds fs json_loads shard_ids fuel total_steps a paths ds _)
    as [st| |] eqn:E; simpl in H; try done.
  - rewrite (checkpoint_rounds_more_fuel _ _ _ _ fuel' _ _ _ _ _ _ E); done.
  - rewrite (checkpoint_rounds_more_fuel _ _ _ _ fuel' _ _ _ _ _ _ E); done.
Qed.

(** ** The allocator on the heap computes what the allocator on values does *)

Ltac sim_destruct t :=
  let E := fresh "E" in
  destruct t eqn:E; simpl;
  repeat match goal with
         | H : ?x = _ |- context [?x] => rewrite H; simpl
         end;
  try done.

Lemma add_shard_simulates manifests next h st i :
  h !! next = Some (next_shard_per_source st) ->
  simulates next h (add_shard_heap manifests next (lists_of st) i) (add_shard manifests st i).
Proof.
  intros Hnext. unfold simulates, add_shard, add_shard_heap, hbind, hlift, load_item,
    store_item, hret. simpl. rewrite Hnext.
  sim_destruct (py_index manifests i).
  sim_destruct (py_index (next_shard_per_source st) i).
  sim_destruct (py_index a a0).
  sim_destruct (record_shard a1).
  sim_destruct (record_num_samples a1).
  sim_destruct (py_index (shard_list_per_source st) i).
  sim_destruct (py_setitem (shard_list_per_source st) i (a4 ++ [a2])).
  sim_destruct (py_index (num_samples_per_source st) i).
  sim_destruct (py_setitem (num_samples_per_source st) i (a6 ++ [a3])).
  sim_destruct (py_setitem (next_shard_per_source st) i (a0 + 1)).
Qed.

Lemma truncate_source_simulates starting cursors next tw h st i :
  starting <> next ->
  h !! starting = Some cursors ->
  h !! next = Some (next_shard_per_source st) ->
  simulates next h (truncate_source_heap starting next tw (lists_of st) i)
            (truncate_source cursors tw st i).
Proof.
  intros Hne Hstart Hnext. unfold simulates, truncate_source, truncate_source_heap, hbind,
    hlift, load_item, store_item, hret. simpl.
  sim_destruct (py_index (shard_list_per_source st) i).
  sim_destruct (floordiv (len a) tw).
  sim_destruct (py_setitem (shard_list_per_source st) i (py_slice_to a (a0 * tw))).
  sim_destruct (py_index (num_samples_per_source st) i).
  sim_destruct (py_setitem (num_samples_per_source st) i (py_slice_to a2 (a0 * tw))).
  sim_destruct (py_index cursors i).
  sim_destruct (py_setitem (next_shard_per_source st) i (a4 + len (py_slice_to a (a0 * tw)))).
Qed.

(** A loop simulates a loop when the bodies do, from every heap that agrees
    with [h] outside [next]. *)
Lemma hfoldM_simulates next (keep : loc) (kept : list Z)
    (body_heap : local_lists -> Z -> heap_op local_lists)
    (body : alloc_state -> Z -> result alloc_state) :
  keep <> next ->
  (forall h st i, h !! keep = Some kept -> h !! next = Some (next_shard_per_source st) ->
     simulates next h (body_heap (lists_of st) i) (body st i)) ->
  forall l h st, h !! keep = Some kept -> h !! next = Some (next_shard_per_source st) ->
    simulates next h (hfoldM body_heap l (lists_of st)) (foldM body l st).
Proof.
  intros Hne Hbody l. induction l as [|i l IH]; intros h st Hkeep Hnext.
  - unfold simulates. simpl. unfold hret. by rewrite insert_id.
  - cbn [hfoldM foldM]. specialize (Hbody h st i Hkeep Hnext).
    unfold simulates in *. unfold hbind.
    destruct (body st i) as [st1| |]; cbn [bind].
    + rewrite Hbody.
      assert (<[next := next_shard_per_source st1]> h !! keep = Some kept) as Hkeep1
        by (by rewrite lookup_insert_ne).
      assert (<[next := next_shard_per_source st1]> h !! next
              = Some (next_shard_per_source st1)) as Hnext1
        by (by rewrite lookup_insert_eq).
      specialize (IH _ st1 Hkeep1 Hnext1).
      destruct (foldM body l st1) as [st'| |]; [|done|done].
      by rewrite IH, insert_insert_eq.
    + destruct (body_heap (lists_of st) i h) as [r h']. simpl in *. by subst.
    + destruct (body_heap (lists_of st) i h) as [r h']. simpl in *. by subst.
Qed.

Lemma keep_accumulating_heap_eq needed tw st :
  keep_accumulating_heap needed tw (lists_of st) = keep_accumulating needed tw st.
Proof. reflexivity. Qed.

Lemma accumulate_simulates fuel manifests num_sources needed tw next (keep : loc) kept :
  keep <> next ->
  forall h st, h !! keep = Some kept -> h !! next = Some (next_shard_per_source st) ->
    simulates next h
      (accumulate_heap fuel manifests num_sources needed tw next (lists_of st))
      (accumulate fuel manifests num_sources needed tw st).
Proof.
  intros Hne. induction fuel as [|fuel IH]; intros h st Hkeep Hnext.
  - done.
  - cbn [accumulate accumulate_heap]. unfold simulates, hbind, hlift.
    rewrite keep_accumulating_heap_eq.
    destruct (keep_accumulating needed tw st) as [[|]| |]; cbn [bind]; try done.
    + pose proof (hfoldM_simulates next keep kept (add_shard_heap manifests next)
                    (add_shard manifests) Hne
                    (fun h st i _ Hn => add_shard_simulates manifests next h st i Hn)
                    (range num_sources) h st Hkeep Hnext) as Hround.
      unfold simulates, accumulate_round in *.
      destruct (foldM (add_shard manifests) (range num_sources) st) as [st1| |]; cbn [bind].
      * rewrite Hround.
        assert (<[next := next_shard_per_source st1]> h !! keep = Some kept) as Hkeep1
          by (by rewrite lookup_insert_ne).
        assert (<[next := next_shard_per_source st1]> h !! next
                = Some (next_shard_per_source st1)) as Hnext1
          by (by rewrite lookup_insert_eq).
        specialize (IH _ st1 Hkeep1 Hnext1).
        destruct (accumulate fuel manifests num_sources needed tw st1) as [st'| |];
          [|done|done].
        by rewrite IH, insert_insert_eq.
      * destruct (hfoldM _ _ _ h) as [r h']. simpl in *. by subst.
      * destruct (hfoldM _ _ _ h) as [r h']. simpl in *. by subst.
    + unfold hret. by rewrite insert_id.
Qed.

Lemma hbind_hlift {A B} (r : result A) (k : A -> heap_op B) (h : heap) :
  hbind (hlift r) k h
  = match r with
    | Ok a => k a h
    | Raise e => (Raise e, h)
    | OutOfFuel => (OutOfFuel, h)
    end.
Proof. by destruct r. Qed.

Lemma hbind_Ok {A B} (c : heap_op A) (k : A -> heap_op B) (h h' : heap) (a : A) :
  c h = (Ok a, h') -> hbind c k h = k a h'.
Proof. unfold hbind. by intros ->. Qed.

Lemma hbind_not_Ok {A B} (c : heap_op A) (k : A -> heap_op B) (h : heap) :
  (forall a, (c h).1 <> Ok a) ->
  (hbind c k h).1 = match (c h).1 with
                    | Ok _ => OutOfFuel
                    | Raise e => Raise e
                    | OutOfFuel => OutOfFuel
                    end.
Proof.
  unfold hbind. destruct (c h) as [[a|e|] h']; simpl; intros H; try done.
  by destruct (H a).
Qed.

(** The call on the heap returns what the call on the list at [starting]
    returns, with the cursors at a location that was not on the heap. *)
Lemma single_epoch_string_heap_refines fs json_loads num_samples starting paths weights
    wpg ws h cursors :
  h !! starting = Some cursors ->
  match _single_epoch_string fs json_loads num_samples cursors paths weights wpg ws with
  | Ok (shard_strings, totals, next_shards) =>
      _single_epoch_string_heap fs json_loads num_samples starting paths weights wpg ws h
      = (Ok (shard_strings, totals, fresh (dom h)), <[fresh (dom h) := next_shards]> h)
  | Raise e =>
      (_single_epoch_string_heap fs json_loads num_samples starting paths weights wpg ws h).1
      = Raise e
  | OutOfFuel =>
      (_single_epoch_string_heap fs json_loads num_samples starting paths weights wpg ws h).1
      = OutOfFuel
  end.
Proof.
  intros Hstart.
  unfold _single_epoch_string, _single_epoch_string_heap, allocate, committed, accumulated,
    truncate.
  rewrite hbind_hlift.
  destruct (diagnostics fs json_loads paths) as [[]| |]; cbn [bind]; try done.
  rewrite hbind_hlift.
  destruct (quotas num_samples weights (len paths)) as [needed| |]; cbn [bind]; try done.
  rewrite hbind_hlift.
  destruct (mapM (get_metadata_file fs json_loads) paths) as [manifests| |]; cbn [bind];
    try done.
  set (next := fresh (dom h)).
  assert (starting <> next) as Hne.
  { intros E. apply (is_fresh (dom h)). fold next. rewrite <- E. apply elem_of_dom. eauto. }
  set (h1 := <[next := cursors]> h).
  rewrite (hbind_Ok (deepcopy starting) _ h h1 next)
    by (unfold deepcopy; by rewrite Hstart).
  assert (h1 !! starting = Some cursors) as Hkeep by (unfold h1; by rewrite lookup_insert_ne).
  assert (h1 !! next = Some cursors) as Hnext by (unfold h1; by rewrite lookup_insert_eq).
  pose proof (accumulate_simulates (rounds_bound manifests) manifests (len paths) needed
                (wpg * ws) next starting cursors Hne h1
                (initial_state cursors (len paths)) Hkeep Hnext) as Hacc.
  unfold simulates in Hacc.
  change (lists_of (initial_state cursors (len paths)))
    with {| local_shard_lists := replicate (Z.to_nat (len paths)) [];
            local_num_samples := replicate (Z.to_nat (len paths)) [] |} in Hacc.
  destruct (accumulate (rounds_bound manifests) manifests (len paths) needed (wpg * ws)
              (initial_state cursors (len paths))) as [acc| |]; cbn [bind].
  2,3: rewrite hbind_not_Ok; rewrite Hacc; done.
  rewrite (hbind_Ok _ _ _ _ _ Hacc).
  set (h2 := <[next := next_shard_per_source acc]> h1).
  assert (h2 !! starting = Some cursors) as Hkeep2 by (unfold h2; by rewrite lookup_insert_ne).
  assert (h2 !! next = Some (next_shard_per_source acc)) as Hnext2
    by (unfold h2; by rewrite lookup_insert_eq).
  pose proof (hfoldM_simulates next starting cursors
                (truncate_source_heap starting next (wpg * ws))
                (truncate_source cursors (wpg * ws)) Hne
                (fun h st i Hk Hn =>
                   truncate_source_simulates starting cursors next (wpg * ws) h st i Hne Hk Hn)
                (range (len paths)) h2 acc Hkeep2 Hnext2) as Htr.
  unfold simulates in Htr.
  destruct (foldM (truncate_source cursors (wpg * ws)) (range (len paths)) acc) as [st| |];
    cbn [bind].
  2,3: rewrite hbind_not_Ok; rewrite Htr; done.
  rewrite (hbind_Ok _ _ _ _ _ Htr), hbind_hlift. cbn [lists_of local_shard_lists].
  destruct (mapM _ (range (len paths))) as [strs| |]; cbn [bind]; try done.
  unfold hret. cbn [lists_of local_num_samples]. f_equal.
  unfold h2, h1. by rewrite !insert_insert_eq.
Qed.

(** * The claims of the specification *)

(** C1. A call of the allocator that returns gives, for every source, the
    starting cursor plus the number of shards kept by the truncation, not
    plus the number accumulated; the shards dropped are the manifest records
    from the returned cursor on. With one source of ten shards of 100
    samples, [world_size=2], [workers_per_gpu=1] and [num_samples=250],
    three shards are accumulated, two are kept (200 samples) and the cursor
    moves from 0 to 2. *)
Theorem cursor_is_start_plus_committed :
  (forall fs json_loads num_samples starting paths weights wpg ws
          shard_strings totals next_shards,
     _single_epoch_string fs json_loads num_samples starting paths weights wpg ws
     = Ok (shard_strings, totals, next_shards) ->
     cursor_commit_policy fs json_loads num_samples starting paths weights wpg ws
                          next_shards) /\
  mapM (get_metadata_file ten_shards_fs json_loads_manifest) [ten_shards_path]
  = Ok [ten_shards] /\
  quotas 250 None 1 = Ok [250] /\
  accumulated [250] [0] [ten_shards] 1 (1 * 2)
  = Ok {| next_shard_per_source := [3];
          shard_list_per_source := [["shard_0"; "shard_1"; "shard_2"]];
          num_samples_per_source := [[100; 100; 100]] |} /\
  _single_epoch_string ten_shards_fs json_loads_manifest 250 [0] [ten_shards_path] None 1 2
  = Ok (["data/{shard_0,shard_1}.tar"], [200], [2]).
Proof.
  split; [intros; by eapply cursor_commit_policy_holds|].
  repeat split; vm_compute; reflexivity.
Qed.

Lemma cursor_is_start_plus_committed_witness :
  cursor_commit_policy ten_shards_fs json_loads_manifest 250 [0] [ten_shards_path] None 1 2
                       [2].
Proof.
  apply (proj1 cursor_is_start_plus_committed ten_shards_fs json_loads_manifest 250 [0]
               [ten_shards_path] None 1 2 ["data/{shard_0,shard_1}.tar"] [200] [2]).
  vm_compute. reflexivity.
Defined.

(** C2. For non-negative numbers of workers and gpus, a call that returns
    keeps for every source a prefix of the accumulated shard list whose
    length is the largest multiple of [total_workers = workers_per_gpu *
    world_size] not above the accumulated length (a truncation, nothing is
    added), and the returned cursor is not below the starting cursor. *)
Theorem committed_length_multiple_of_workers fs json_loads num_samples starting paths
    weights wpg ws shard_strings totals next_shards :
  0 <= wpg -> 0 <= ws ->
  _single_epoch_string fs json_loads num_samples starting paths weights wpg ws
  = Ok (shard_strings, totals, next_shards) ->
  worker_aligned fs json_loads num_samples starting paths weights wpg ws
                 shard_strings totals next_shards.
Proof. apply worker_aligned_holds. Qed.

Lemma committed_length_multiple_of_workers_witness :
  worker_aligned ten_shards_fs json_loads_manifest 250 [0] [ten_shards_path] None 1 2
                 ["data/{shard_0,shard_1}.tar"] [200] [2].
Proof.
  apply committed_length_multiple_of_workers; [lia|lia|].
  vm_compute. reflexivity.
Defined.



(** C4, as the code has it. Shard [i] of a source goes to global worker
    [i mod (world_size * workers_per_gpu)]; a worker's batches are counted
    source by source, [floor(samples of the source on the worker /
    global_batch_size)], and added over the sources; global worker [w]
    belongs to gpu [w mod world_size], and the output has, for every gpu, the
    sum of the batches of its workers. The batch counts are int64 numbers of
    numpy, so the sums are taken modulo [2^64]: whenever the projection
    returns, it returns this closed form modulo [2^64], in entries that are
    an int64 or the untouched Python [0], and the closed form itself when
    that fits 64 bits for every gpu; it returns for at least one source, gpu
    and worker, a batch size other than zero and batch counts per source and
    worker that fit 64 bits. With one source a worker's batches are the
    floor of all its samples. Modulo [2^64] means: the one integer from
    [-2^63] up to [2^63 - 1] that differs by a multiple of [2^64]. Two
    sources with one shard of [2^62] samples each, on one worker with batch
    size 1, give the gpu [-2^63] batches; one source with two shards on two
    workers and three gpus leaves the third gpu at the Python [0]. *)
Theorem projection_batches_per_source :
  (forall world_size num_global_workers global_batch_size sources out,
     project world_size num_global_workers global_batch_size sources = Ok out ->
     value <$> out = projected world_size num_global_workers global_batch_size sources /\
     Forall gpu_entry out /\
     ((forall g, 0 <= g < world_size ->
         in_int64 (batches_of_gpu
                     (batches_of_worker global_batch_size num_global_workers sources)
                     world_size num_global_workers g) = true) ->
      value <$> out
      = batches_of_gpu (batches_of_worker global_batch_size num_global_workers sources)
                       world_size num_global_workers
          <$> range world_size)) /\
  (forall world_size num_global_workers global_batch_size sources,
     0 < world_size -> 0 < num_global_workers -> global_batch_size <> 0 ->
     sources <> [] ->
     batches_in_int64 num_global_workers global_batch_size sources ->
     exists out,
       project world_size num_global_workers global_batch_size sources = Ok out /\
       value <$> out = projected world_size num_global_workers global_batch_size sources) /\
  (forall global_batch_size num_global_workers source w,
     batches_of_worker global_batch_size num_global_workers [source] w
     = batches_of_worker_pooled global_batch_size num_global_workers [source] w) /\
  (forall n,
     (in_int64 n = true <-> - 2 ^ 63 <= n < 2 ^ 63) /\
     in_int64 (wrap64 n) = true /\
     exists k, wrap64 n = n + k * 2 ^ 64) /\
  project 2 4 8 [[100; 100; 100; 100; 50; 50; 50; 50]; [5; 5; 5; 5]]
  = Ok [NpInt64 36; NpInt64 36] /\
  project 3 2 1 [[5; 7]] = Ok [NpInt64 5; NpInt64 7; PyInt 0] /\
  project 1 1 1 [[2 ^ 62]; [2 ^ 62]] = Ok [NpInt64 (- 2 ^ 63)].
Proof.
  split; [|split; [|split; [|split; [|split; [|split]]]]].
  - intros world_size num_global_workers global_batch_size sources out H.
    apply project_Ok_closed in H as [Hentries Hvalues].
    split; [done|]. split; [done|].
    intros Hin. rewrite Hvalues. unfold projected.
    apply list_eq. intros i. rewrite !list_lookup_fmap.
    destruct (range world_size !! i) as [g|] eqn:Hg; [|done]. simpl. f_equal.
    apply wrap64_in, Hin.
    unfold range in Hg. rewrite list_lookup_fmap in Hg.
    destruct (seq 0 (Z.to_nat world_size) !! i) as [j|] eqn:Hj; [|done].
    apply lookup_seq in Hj as [-> Hj]. inversion Hg; subst. lia.
  - intros world_size num_global_workers global_batch_size sources Hws Hn Hgbs Hsources Hin.
    destruct (project_closed _ _ _ _ Hws Hn Hgbs Hsources Hin) as (out & Hout & _ & Hvalues).
    by exists out.
  - intros. apply batches_of_worker_one_source.
  - intros n. split; [apply in_int64_spec|]. split; [apply wrap64_range|apply wrap64_eqm].
  - vm_compute. reflexivity.
  - vm_compute. reflexivity.
  - vm_compute. reflexivity.
Qed.

Lemma projection_batches_per_source_witness :
  value <$> [NpInt64 36; NpInt64 36]
  = projected 2 4 8 [[100; 100; 100; 100; 50; 50; 50; 50]; [5; 5; 5; 5]].
Proof.
  pose proof (proj1 projection_batches_per_source 2 4 8
                [[100; 100; 100; 100; 50; 50; 50; 50]; [5; 5; 5; 5]]
                [NpInt64 36; NpInt64 36]) as H.
  destruct H as (Hvalues & _).
  - vm_compute. reflexivity.
  - exact Hvalues.
Defined.

(** C4, as the claim words it, fails with two sources: each puts a shard of
    5 samples on the only worker and the batch size is 8. The code counts no
    batch for the worker, the floor of its 10 samples together is 1; so the
    pre-count makes no step in a round, and runs out of shards before its
    first step. *)
Lemma batches_pooled_counterexample :
  project 1 1 8 [[5]; [5]] = Ok [NpInt64 0] /\
  batches_of_gpu (batches_of_worker_pooled 8 1 [[5]; [5]]) 1 1 <$> range 1 = [1] /\
  _single_epoch_string small_shards_fs json_loads_manifest 10 [0; 0]
                       ["a/manifest.jsonl"; "b/manifest.jsonl"] None 1 1
  = Ok (["a/a0.tar"; "b/b0.tar"], [5; 5], [1; 1]) /\
  checkpoint_round small_shards_fs json_loads_manifest shard_ids_simple 1 small_shards_args
                   ["a/manifest.jsonl"; "b/manifest.jsonl"]
                   [ {[ "a0" := 5; "a1" := 5 ]}; {[ "b0" := 5; "b1" := 5 ]} ]
                   {| steps_done := PyInt 0; tokens_seen := PyInt 0;
                      sim_next_shard_per_source := [0; 0]; checkpoints_made := 0 |}
  = Ok {| steps_done := NpInt64 0; tokens_seen := NpInt64 0;
          sim_next_shard_per_source := [1; 1]; checkpoints_made := 1 |} /\
  log_num_checkpoints small_shards_fs json_loads_manifest is_master_rank0 shard_ids_simple
                      5 1 small_shards_args
  = Raise IndexError.
Proof. repeat split; vm_compute; reflexivity. Qed.

(** C5. When, after some rounds and with the stop condition still unmet, the
    cursor of a source is past the end of its manifest, the call raises
    [IndexError] (the exhaustion error of the specification; the handler
    logs and raises it again): the sources before it in the round are served,
    the access for this source raises, and the exception leaves the round,
    the loop, [_single_epoch_string] and [get_string_for_epoch] as it is,
    with no further attempt. A round in which every cursor is on a record
    does not raise. With a manifest of three shards and a fourth one needed,
    three rounds go through and the fourth raises. *)
Theorem exhaustion_raises_IndexError :
  (forall fs json_loads num_samples starting paths weights wpg ws needed manifests k st i,
     diagnostics fs json_loads paths = Ok tt ->
     quotas num_samples weights (len paths) = Ok needed ->
     mapM (get_metadata_file fs json_loads) paths = Ok manifests ->
     rounds k manifests (len paths) (initial_state starting (len paths)) = Ok st ->
     (forall j, (j <= k)%nat ->
        exists stj,
          rounds j manifests (len paths) (initial_state starting (len paths)) = Ok stj /\
          keep_accumulating needed (wpg * ws) stj = Ok true) ->
     (i < length paths)%nat ->
     exhausted manifests st i ->
     (forall j, (j < i)%nat -> servable manifests st j) ->
     (exists st_i,
        foldM (add_shard manifests) (range (Z.of_nat i)) st = Ok st_i /\
        add_shard manifests st_i (Z.of_nat i) = Raise IndexError) /\
     accumulate_round manifests (len paths) st = Raise IndexError /\
     _single_epoch_string fs json_loads num_samples starting paths weights wpg ws
     = Raise IndexError /\
     get_string_for_epoch fs json_loads num_samples starting paths weights wpg ws false
     = Raise IndexError) /\
  (forall manifests num_sources st,
     length (shard_list_per_source st) = Z.to_nat num_sources ->
     length (num_samples_per_source st) = Z.to_nat num_sources ->
     (forall i, (i < Z.to_nat num_sources)%nat -> servable manifests st i) ->
     exists st', accumulate_round manifests num_sources st = Ok st') /\
  rounds 3 [three_shards] 1 (initial_state [0] 1)
  = Ok {| next_shard_per_source := [3];
          shard_list_per_source := [["shard_0"; "shard_1"; "shard_2"]];
          num_samples_per_source := [[100; 100; 100]] |} /\
  _single_epoch_string three_shards_fs json_loads_manifest 350 [0] ["data/manifest.jsonl"]
                       None 1 1
  = Raise IndexError /\
  _single_epoch_string three_shards_fs json_loads_manifest 300 [0] ["data/manifest.jsonl"]
                       None 1 1
  = Ok (["data/{shard_0,shard_1,shard_2}.tar"], [300], [3]).
Proof.
  split; [|split; [|repeat split; vm_compute; reflexivity]].
  - intros fs json_loads num_samples starting paths weights wpg ws needed manifests k st i
           Hdiag Hq Hman Hk Hbefore Hi Hex Hserv.
    rewrite <- len_to_nat in Hi.
    pose proof (after_rounds_rounds _ _ _ k 0%nat _ _
                  (after_rounds_initial manifests starting (len paths)) Hk)
      as (L1 & L2 & _).
    destruct (accumulate_round_exhausted _ _ _ _ Hi L1 L2 Hex Hserv)
      as (st_i & Hpre & Hfail & Hround).
    destruct (accumulated_exhausted needed starting manifests (len paths) (wpg * ws)
                k st i Hk Hbefore Hi Hex Hserv) as (_ & Hacc).
    assert (_single_epoch_string fs json_loads num_samples starting paths weights wpg ws
            = Raise IndexError) as Hcall.
    { unfold _single_epoch_string, allocate, committed.
      rewrite Hdiag, Hq, Hman. simpl. by rewrite Hacc. }
    split; [by exists st_i|]. split; [done|]. split; [done|].
    unfold get_string_for_epoch. done.
  - intros. by apply accumulate_round_servable.
Qed.

Lemma exhaustion_raises_IndexError_witness :
  accumulate_round [three_shards] 1
    {| next_shard_per_source := [3];
       shard_list_per_source := [["shard_0"; "shard_1"; "shard_2"]];
       num_samples_per_source := [[100; 100; 100]] |}
  = Raise IndexError /\
  _single_epoch_string three_shards_fs json_loads_manifest 350 [0] ["data/manifest.jsonl"]
                       None 1 1
  = Raise IndexError.
Proof.
  pose proof (proj1 exhaustion_raises_IndexError three_shards_fs json_loads_manifest 350 [0]
                ["data/manifest.jsonl"] None 1 1 [350] [three_shards] 3%nat
                {| next_shard_per_source := [3];
                   shard_list_per_source := [["shard_0"; "shard_1"; "shard_2"]];
                   num_samples_per_source := [[100; 100; 100]] |} 0%nat) as H.
  destruct H as (_ & Hround & Hcall & _).
  - vm_compute. reflexivity.
  - vm_compute. reflexivity.
  - vm_compute. reflexivity.
  - vm_compute. reflexivity.
  - intros j Hj.
    destruct j as [|[|[|[|j]]]]; [| | | |lia];
      eexists; (split; [vm_compute; reflexivity|vm_compute; reflexivity]).
  - simpl. lia.
  - exists three_shards, 3. repeat split. vm_compute. discriminate.
  - intros j Hj. lia.
  - split; [exact Hround|exact Hcall].
Defined.

(** C6, as the code has it. A round of the pre-count asks the allocator for
    the shards of the checkpoint, looks their sample counts up in the
    dictionaries of the manifests, projects them on the gpus and takes the
    smallest batch count over the gpus; it adds this to the steps, sets the
    steps to [total_steps] when they would pass it, sets the tokens to
    [steps * global_batch_size * seq_len] and counts one checkpoint. After
    the first round the counters are int64 numbers of numpy: the sum and the
    product are taken modulo [2^64], except for the product of a round that
    has set the steps to [total_steps], which is exact. For
    [0 <= total_steps], a call that returns has gone from the counters at 0
    through such rounds, one for every checkpoint it counts and each entered
    with the steps below [total_steps], over the dictionaries of its
    manifests; it ends with
    [steps_done = total_steps], and with [tokens_seen = total_steps *
    global_batch_size * seq_len] when this product fits 64 bits; it has
    logged the warning exactly when the process is the master and the
    checkpoints made differ from the epochs requested; what it returns does
    not depend on the bound given to the model for the number of rounds,
    once the bound is large enough. With [total_steps=1000],
    [global_batch_size=8] and [seq_len=1024] on two shards of 4800 samples
    it ends with 1000 steps and [1000*8*1024] tokens. With one shard of
    [2^62] samples, [global_batch_size=1], [seq_len=4] and
    [total_steps=2^62] it ends with [2^62] steps and 0 tokens. *)
Theorem precount_reaches_total_steps :
  (forall fs json_loads shard_ids total_steps a paths manifests st st',
     in_int64 (value (steps_done st)) = true ->
     checkpoint_round fs json_loads shard_ids total_steps a paths manifests st = Ok st' ->
     checkpoint_step fs json_loads shard_ids total_steps a paths manifests st st' /\
     counters_ok total_steps a st') /\
  (forall fs json_loads is_master shard_ids fuel total_steps a r,
     0 <= total_steps ->
     log_num_checkpoints fs json_loads is_master shard_ids fuel total_steps a = Ok r ->
     value (steps_done (final r)) = total_steps /\
     tokens_seen (final r)
     = match steps_done (final r) with
       | PyInt n => PyInt (n * global_batch_size a * seq_len a)
       | NpInt64 n => NpInt64 (wrap64 (n * global_batch_size a * seq_len a))
       end /\
     (in_int64 (total_steps * global_batch_size a * seq_len a) = true ->
      value (tokens_seen (final r)) = total_steps * global_batch_size a * seq_len a) /\
     warned r = is_master a && negb (checkpoints_made (final r) =? epochs a)) /\
  (forall fs json_loads is_master shard_ids fuel total_steps a paths r,
     dataset_manifest a = Some paths ->
     0 <= total_steps ->
     log_num_checkpoints fs json_loads is_master shard_ids fuel total_steps a = Ok r ->
     exists manifests k,
       Forall2 (fun path manifest_dict =>
                  exists manifest, get_metadata_file fs json_loads path = Ok manifest /\
                                   convert_metadata_to_dict manifest = Ok manifest_dict)
               paths manifests /\
       precount_run (checkpoint_step fs json_loads shard_ids total_steps a paths manifests)
                    total_steps
                    {| steps_done := PyInt 0;
                       tokens_seen := PyInt 0;
                       sim_next_shard_per_source := replicate (length paths) 0;
                       checkpoints_made := 0 |}
                    (final r) k /\
       checkpoints_made (final r) = Z.of_nat k) /\
  (forall fs json_loads is_master shard_ids fuel fuel' total_steps a r,
     log_num_checkpoints fs json_loads is_master shard_ids fuel total_steps a = r ->
     r <> OutOfFuel -> (fuel <= fuel')%nat ->
     log_num_checkpoints fs json_loads is_master shard_ids fuel' total_steps a = r) /\
  log_num_checkpoints two_big_shards_fs json_loads_manifest is_master_rank0 shard_ids_simple
                      3 1000 (precount_args 1 0)
  = Ok {| final := {| steps_done := PyInt 1000;
                      tokens_seen := PyInt (1000 * 8 * 1024);
                      sim_next_shard_per_source := [2];
                      checkpoints_made := 2 |};
          warned := true |} /\
  log_num_checkpoints huge_shard_fs json_loads_manifest is_master_rank0 shard_ids_simple
                      2 (2 ^ 62) huge_shard_args
  = Ok {| final := {| steps_done := NpInt64 (2 ^ 62);
                      tokens_seen := NpInt64 0;
                      sim_next_shard_per_source := [1];
                      checkpoints_made := 1 |};
          warned := false |}.
Proof.
  split; [|split; [|split; [|split; [|split]]]].
  - intros fs json_loads shard_ids total_steps a paths manifests st st' Hin H.
    pose proof (checkpoint_round_step _ _ _ _ _ _ _ _ _ Hin H) as Hstep.
    split; [done|]. by eapply checkpoint_step_counters.
  - intros. by eapply log_num_checkpoints_final.
  - intros. by eapply log_num_checkpoints_run.
  - intros. by eapply log_num_checkpoints_more_fuel.
  - vm_compute. reflexivity.
  - vm_compute. reflexivity.
Qed.

Lemma precount_reaches_total_steps_witness :
  let r := {| final := {| steps_done := PyInt 1000;
                          tokens_seen := PyInt (1000 * 8 * 1024);
                          sim_next_shard_per_source := [2];
                          checkpoints_made := 2 |};
              warned := false |} in
  value (steps_done (final r)) = 1000 /\
  tokens_seen (final r)
  = match steps_done (final r) with
    | PyInt n => PyInt (n * global_batch_size (precount_args 2 0)
                        * seq_len (precount_args 2 0))
    | NpInt64 n => NpInt64 (wrap64 (n * global_batch_size (precount_args 2 0)
                                    * seq_len (precount_args 2 0)))
    end /\
  (in_int64 (1000 * global_batch_size (precount_args 2 0) * seq_len (precount_args 2 0))
   = true ->
   value (tokens_seen (final r))
   = 1000 * global_batch_size (precount_args 2 0) * seq_len (precount_args 2 0)) /\
  warned r = is_master_rank0 (precount_args 2 0)
             && negb (checkpoints_made (final r) =? epochs (precount_args 2 0)).
Proof.
  apply (proj1 (proj2 precount_reaches_total_steps) two_big_shards_fs json_loads_manifest
               is_master_rank0 shard_ids_simple 3%nat 1000 (precount_args 2 0)).
  - lia.
  - vm_compute. reflexivity.
Defined.

(** C6, as the claim words it, fails off the master process: on rank 1 two
    checkpoints are made where one epoch was requested, and no warning is
    logged. *)
Lemma no_warning_off_master :
  log_num_checkpoints two_big_shards_fs json_loads_manifest is_master_rank0 shard_ids_simple
                      3 1000 (precount_args 1 1)
  = Ok {| final := {| steps_done := PyInt 1000;
                      tokens_seen := PyInt (1000 * 8 * 1024);
                      sim_next_shard_per_source := [2];
                      checkpoints_made := 2 |};
          warned := false |} /\
  epochs (precount_args 1 1) = 1.
Proof. split; vm_compute; reflexivity. Qed.

(** C7, as the code has it. [get_metadata_file] returns the records as
    decoded, one per line, each with its count under the field name it has in
    the file; the count is read by every consumer with the same lookup,
    "num_sequences" and, when that is absent, "num_chunks". The allocator
    reads it so in every round. The dictionary of the pre-count has every
    record's name as a key, and what it holds under a name is the count that
    this lookup gives for a record of that name: for the record itself when
    no other has its name. [count_small_shards] and
    [are_sources_imbalanced_with_each_other] return only when the lookup
    gives a count for every record of the manifest, and raise [KeyError] for
    a record that has neither field. On the manifest with "a" under
    "num_sequences" and "b" under "num_chunks" the dictionary holds both
    counts and one shard is counted as small. *)
Theorem records_as_decoded_fallback_in_consumers :
  (forall fs json_loads path records,
     get_metadata_file fs json_loads path = Ok records ->
     exists text,
       fs path = Some text /\
       Forall2 (fun line m => json_loads line = Some m) (manifest_lines text) records) /\
  (forall m n,
     record_num_samples m = Ok n <->
     num_sequences m = Some n \/ (num_sequences m = None /\ num_chunks m = Some n)) /\
  (forall manifests num_sources st st',
     accumulate_round manifests num_sources st = Ok st' ->
     forall i, (i < Z.to_nat num_sources)%nat -> shard_added manifests i st st') /\
  (forall manifest d,
     convert_metadata_to_dict manifest = Ok d ->
     (forall m, m ∈ manifest ->
        exists name n, shard m = Some name /\ record_num_samples m = Ok n /\
                       is_Some (d !! name)) /\
     (forall name n, d !! name = Some n ->
        exists m, m ∈ manifest /\ shard m = Some name /\ record_num_samples m = Ok n) /\
     (forall m name,
        m ∈ manifest -> shard m = Some name ->
        (forall m', m' ∈ manifest -> shard m' = Some name -> m' = m) ->
        exists n, record_num_samples m = Ok n /\ d !! name = Some n)) /\
  (forall fs json_loads path data,
     get_metadata_file fs json_loads path = Ok data ->
     (forall k, count_small_shards fs json_loads path = Ok k ->
        exists sizes, Forall2 (fun m s => record_num_samples m = Ok s) data sizes) /\
     (are_sources_imbalanced_with_each_other fs json_loads [path] = Ok tt <->
      exists sizes, Forall2 (fun m s => record_num_samples m = Ok s) data sizes) /\
     ((exists m, m ∈ data /\ num_sequences m = None /\ num_chunks m = None) ->
      count_small_shards fs json_loads path = Raise KeyError /\
      are_sources_imbalanced_with_each_other fs json_loads [path] = Raise KeyError)) /\
  convert_metadata_to_dict
    [ {| shard := Some "a"; num_sequences := Some 7; num_chunks := None |};
      {| shard := Some "b"; num_sequences := None; num_chunks := Some 9 |} ]
  = Ok (<[ "b"%string := 9 ]> (<[ "a"%string := 7 ]> (∅ : gmap string Z))) /\
  count_small_shards mixed_fields_fs json_loads_manifest "data/manifest.jsonl" = Ok 1.
Proof.
  split; [|split; [|split; [|split; [|split; [|split]]]]].
  - apply get_metadata_file_decoded.
  - apply record_num_samples_fallback.
  - intros manifests num_sources st st' H. by apply accumulate_round_spec in H as (? & _).
  - intros manifest d H. apply convert_metadata_to_dict_counts in H as [Hcounts Hnames].
    split; [done|]. split; [done|].
    intros m name Hm Hname Honly.
    destruct (Hnames m Hm) as (name' & n & Hname' & Hn & [n' Hn']).
    assert (name' = name) by congruence. subst name'.
    destruct (Hcounts name n' Hn') as (m' & Hm' & Hs' & Hc').
    rewrite (Honly m' Hm' Hs') in Hc'.
    exists n. split; [done|]. congruence.
  - intros fs json_loads path data Hread.
    unfold count_small_shards, are_sources_imbalanced_with_each_other. simpl.
    rewrite Hread. simpl.
    destruct (shard_sizes_cases data) as [(sizes & -> & Hall)|[-> (m & Hm & Hseq & Hch)]];
      simpl.
    + split; [intros; by exists sizes|]. split; [split; [intros; by exists sizes|done]|].
      intros (m & Hm & Hseq & Hch). exfalso.
      apply list_elem_of_lookup_1 in Hm as (i & Hi).
      destruct (Forall2_lookup_l _ _ _ _ _ Hall Hi) as (s & _ & Hs).
      unfold record_num_samples in Hs. by rewrite Hseq, Hch in Hs.
    + split; [done|]. split; [|done]. split; [done|].
      intros (sizes & Hall). exfalso.
      apply list_elem_of_lookup_1 in Hm as (i & Hi).
      destruct (Forall2_lookup_l _ _ _ _ _ Hall Hi) as (s & _ & Hs).
      unfold record_num_samples in Hs. by rewrite Hseq, Hch in Hs.
  - reflexivity.
  - vm_compute. reflexivity.
Qed.

Lemma records_as_decoded_fallback_in_consumers_witness :
  exists text,
    mixed_fields_fs "data/manifest.jsonl" = Some text /\
    Forall2 (fun line m => json_loads_manifest line = Some m) (manifest_lines text)
      [ {| shard := Some "a"; num_sequences := Some 7; num_chunks := None |};
        {| shard := Some "b"; num_sequences := None; num_chunks := Some 9 |} ].
Proof.
  apply (proj1 records_as_decoded_fallback_in_consumers mixed_fields_fs json_loads_manifest
               "data/manifest.jsonl").
  vm_compute. reflexivity.
Defined.

(** C7, as the claim words it, fails: the loader leaves the count of the
    second record under "num_chunks" and that of the first under
    "num_sequences", so no one field holds the count of every record, and the
    allocator, downstream, reads both. *)
Lemma loader_keeps_field_names :
  get_metadata_file mixed_fields_fs json_loads_manifest "data/manifest.jsonl"
  = Ok [ {| shard := Some "a"; num_sequences := Some 7; num_chunks := None |};
         {| shard := Some "b"; num_sequences := None; num_chunks := Some 9 |} ] /\
  _single_epoch_string mixed_fields_fs json_loads_manifest 16 [0] ["data/manifest.jsonl"]
                       None 1 1
  = Ok (["data/{a,b}.tar"], [16], [2]).
Proof. split; vm_compute; reflexivity. Qed.

(** C8. With a weight vector whose length is not the number of sources the
    call never returns a result: the assertion of line 433 (the configuration
    error of the specification) is raised as soon as the manifest diagnostics
    that precede it have passed, before any manifest is loaded for the
    allocation, and on the heap nothing is touched, not even the copy of the
    cursors is made. *)
Theorem weights_mismatch_fails_before_allocation fs json_loads num_samples starting paths
    w wpg ws :
  len w <> len paths ->
  (exists e, _single_epoch_string fs json_loads num_samples starting paths (Some w) wpg ws
             = Raise e) /\
  (diagnostics fs json_loads paths = Ok tt ->
   _single_epoch_string fs json_loads num_samples starting paths (Some w) wpg ws
   = Raise AssertionError) /\
  quotas num_samples (Some w) (len paths) = Raise AssertionError /\
  forall (start : loc) (h : heap),
    (_single_epoch_string_heap fs json_loads num_samples start paths (Some w) wpg ws h).2
    = h.
Proof.
  intros H. pose proof (single_epoch_string_mismatch fs json_loads num_samples starting
                          paths w wpg ws H) as Hcall.
  split; [|split; [|split]].
  - destruct (diagnostics_unit fs json_loads paths) as [E|[e E]]; rewrite E in Hcall.
    + eauto.
    + exists e. by rewrite Hcall.
  - intros E. by rewrite E in Hcall.
  - by apply quotas_mismatch.
  - intros. by apply single_epoch_string_heap_mismatch.
Qed.

Lemma weights_mismatch_fails_before_allocation_witness :
  _single_epoch_string ten_shards_fs json_loads_manifest 250 [0] [ten_shards_path]
                       (Some [1%float; 1%float]) 1 2
  = Raise AssertionError.
Proof.
  refine (proj1 (proj2 (weights_mismatch_fails_before_allocation ten_shards_fs
                          json_loads_manifest 250 [0] [ten_shards_path]
                          [1%float; 1%float] 1 2 _)) _).
  - vm_compute. discriminate.
  - vm_compute. reflexivity.
Defined.

(** C9. The allocator is given the location of the caller's cursor list. It
    copies the list to a location that was not on the heap and works on the
    copy: after the call, whether it returned or raised, every list that was
    on the heap is there unchanged, the caller's cursors among them; and the
    call returns what the allocator on values returns from the caller's
    cursors, the cursors it returns being at the new location. *)
Theorem caller_cursors_untouched fs json_loads num_samples starting paths weights wpg ws
    (h : heap) cursors :
  h !! starting = Some cursors ->
  let after :=
    _single_epoch_string_heap fs json_loads num_samples starting paths weights wpg ws h in
  (forall l xs, h !! l = Some xs -> after.2 !! l = Some xs) /\
  after.2 !! starting = Some cursors /\
  h !! fresh (dom h) = None /\
  match _single_epoch_string fs json_loads num_samples cursors paths weights wpg ws with
  | Ok (shard_strings, totals, next_shards) =>
      after = (Ok (shard_strings, totals, fresh (dom h)),
               <[fresh (dom h) := next_shards]> h)
  | Raise e => after.1 = Raise e
  | OutOfFuel => False
  end.
Proof.
  intros Hstart after.
  split; [intros l xs Hl; by apply single_epoch_string_heap_frame|].
  split; [by apply single_epoch_string_heap_frame|].
  split; [apply not_elem_of_dom, is_fresh|].
  pose proof (single_epoch_string_heap_refines fs json_loads num_samples starting paths
                weights wpg ws h cursors Hstart) as Href.
  pose proof (single_epoch_string_returns fs json_loads num_samples cursors paths weights
                wpg ws) as Hret.
  destruct (_single_epoch_string fs json_loads num_samples cursors paths weights wpg ws)
    as [[[strs totals] next]|e|]; done.
Qed.

Lemma caller_cursors_untouched_witness :
  (_single_epoch_string_heap two_sources_fs json_loads_manifest 400 0%nat
     ["a/manifest.jsonl"; "b/manifest.jsonl"] None 1 1 {[ 0%nat := [0; 0] ]}).1
  = Raise IndexError /\
  (_single_epoch_string_heap two_sources_fs json_loads_manifest 400 0%nat
     ["a/manifest.jsonl"; "b/manifest.jsonl"] None 1 1 {[ 0%nat := [0; 0] ]}).2 !! 0%nat
  = Some [0; 0] /\
  (_single_epoch_string_heap two_sources_fs json_loads_manifest 400 0%nat
     ["a/manifest.jsonl"; "b/manifest.jsonl"] None 1 1 {[ 0%nat := [0; 0] ]}).2 !! 1%nat
  = Some [2; 1].
Proof.
  split; [vm_compute; reflexivity|].
  split; [|vm_compute; reflexivity].
  refine (proj1 (proj2 (caller_cursors_untouched two_sources_fs json_loads_manifest 400 0%nat
                          ["a/manifest.jsonl"; "b/manifest.jsonl"] None 1 1
                          {[ 0%nat := [0; 0] ]} [0; 0] _))).
  vm_compute. reflexivity.
Defined.

(** C10. The reader splits the text at the newlines and leaves the last
    segment out. Every text is some lines, each ended by a newline, followed
    by a last segment without newline (the text ends with a newline exactly
    when that segment is empty). The records read are those of the lines:
    the last segment is not decoded, whatever it holds, and no error is
    raised for it; with a newline added at the end of the file it is the last
    record. The allocator, the diagnostics and the pre-count all give what
    they give on the file cut after its last newline. *)
Theorem last_segment_dropped fs json_loads path text :
  fs path = Some text ->
  exists segs last,
    text = unlines segs +:+ last /\
    Forall (fun s => has_char newline s = false) segs /\
    has_char newline last = false /\
    get_metadata_file fs json_loads path = mapM (loads json_loads) segs /\
    get_metadata_file (with_file fs path (text +:+ String newline EmptyString))
                      json_loads path
    = mapM (loads json_loads) (segs ++ [last]) /\
    let cut := with_file fs path (unlines segs) in
    (forall num_samples starting paths weights wpg ws,
       _single_epoch_string fs json_loads num_samples starting paths weights wpg ws
       = _single_epoch_string cut json_loads num_samples starting paths weights wpg ws) /\
    (forall p, count_small_shards fs json_loads p = count_small_shards cut json_loads p) /\
    (forall paths,
       are_sources_imbalanced_with_each_other fs json_loads paths
       = are_sources_imbalanced_with_each_other cut json_loads paths) /\
    (forall is_master shard_ids fuel total_steps a,
       log_num_checkpoints fs json_loads is_master shard_ids fuel total_steps a
       = log_num_checkpoints cut json_loads is_master shard_ids fuel total_steps a).
Proof.
  intros Hfs.
  destruct (text_lines_and_last text) as (segs & last & -> & Hsegs & Hlast).
  exists segs, last. split; [done|]. split; [done|]. split; [done|].
  assert (manifest_lines (unlines segs +:+ last) = segs) as Hlines
    by (by apply manifest_lines_unlines).
  assert (forall lines, Forall (fun s => has_char newline s = false) lines ->
                        manifest_lines (unlines lines) = lines) as Hwhole.
  { intros lines Hall.
    rewrite <- (manifest_lines_unlines lines EmptyString Hall eq_refl) at 2.
    f_equal. clear. induction (unlines lines) as [|c s IH]; [done|].
    by rewrite append_cons, <- IH. }
  split; [|split].
  - unfold get_metadata_file, read_text. rewrite Hfs. simpl. by rewrite Hlines.
  - unfold get_metadata_file, read_text, with_file. rewrite String.eqb_refl. simpl.
    rewrite append_assoc, <- unlines_app.
    rewrite Hwhole; [done|]. apply Forall_app. split; [done|]. by constructor.
  - assert (forall p, get_metadata_file fs json_loads p
                      = get_metadata_file (with_file fs path (unlines segs)) json_loads p)
      as Hsame.
    { intros p. symmetry. eapply get_metadata_file_with_file; [exact Hfs|].
      rewrite Hwhole by done. congruence. }
    cbv zeta. split; [|split; [|split]].
    + intros. by apply single_epoch_string_same.
    + intros. by apply count_small_shards_same.
    + intros. by apply are_sources_imbalanced_same.
    + intros. by apply log_num_checkpoints_same.
Qed.

Lemma last_segment_dropped_witness :
  (exists segs last,
     manifest_line "a" "num_sequences" "7" +:+ manifest_line_text "b" "num_chunks" "9"
     = unlines segs +:+ last /\
     get_metadata_file (one_file "data/manifest.jsonl"
                          (manifest_line "a" "num_sequences" "7"
                           +:+ manifest_line_text "b" "num_chunks" "9"))
                       json_loads_manifest "data/manifest.jsonl"
     = mapM (loads json_loads_manifest) segs) /\
  get_metadata_file (one_file "data/manifest.jsonl"
                       (manifest_line "a" "num_sequences" "7"
                        +:+ manifest_line_text "b" "num_chunks" "9"))
                    json_loads_manifest "data/manifest.jsonl"
  = Ok [ {| shard := Some "a"; num_sequences := Some 7; num_chunks := None |} ] /\
  get_metadata_file (one_file "data/manifest.jsonl"
                       (manifest_line "a" "num_sequences" "7"
                        +:+ manifest_line "b" "num_chunks" "9"))
                    json_loads_manifest "data/manifest.jsonl"
  = Ok [ {| shard := Some "a"; num_sequences := Some 7; num_chunks := None |};
         {| shard := Some "b"; num_sequences := None; num_chunks := Some 9 |} ].
Proof.
  split; [|split; vm_compute; reflexivity].
  destruct (last_segment_dropped
              (one_file "data/manifest.jsonl"
                 (manifest_line "a" "num_sequences" "7"
                  +:+ manifest_line_text "b" "num_chunks" "9"))
              json_loads_manifest "data/manifest.jsonl"
              (manifest_line "a" "num_sequences" "7"
               +:+ manifest_line_text "b" "num_chunks" "9"))
    as (segs & last & Htext & _ & _ & Hread & _).
  - vm_compute. reflexivity.
  - exists segs, last. split; [exact Htext|exact Hread].
Defined.

(** * Further properties of the code *)

(** ** The reader *)

Lemma split_on_cons c s : exists w ws, split_on c s = w :: ws.
Proof.
  induction s as [|c' s (w & ws & IH)]; simpl; [by eauto|].
  destruct (Ascii.eqb c' c); [by eauto|]. rewrite IH. eauto.
Qed.

Lemma split_on_length c s : length (split_on c s) = S (count_char c s).
Proof.
  induction s as [|c' s IH]; simpl; [done|].
  destruct (Ascii.eqb c' c); simpl; [by rewrite IH|].
  destruct (split_on_cons c s) as (w & ws & E). rewrite E in *. simpl in *. lia.
Qed.

Lemma split_on_app c s1 s2 :
  split_on c (s1 +:+ String c s2) = split_on c s1 ++ split_on c s2.
Proof.
  induction s1 as [|c' s1 IH].
  - rewrite append_nil. simpl. by rewrite Ascii.eqb_refl.
  - rewrite append_cons. simpl. rewrite IH.
    destruct (Ascii.eqb c' c); [done|].
    destruct (split_on_cons c s1) as (w & ws & E). by rewrite E.
Qed.

Lemma manifest_lines_length text : length (manifest_lines text) = count_char newline text.
Proof.
  unfold manifest_lines, py_slice_to, len.
  rewrite length_take, split_on_length. simpl. lia.
Qed.

Lemma count_char_has_char c s : has_char c s = false <-> count_char c s = 0%nat.
Proof.
  induction s as [|c' s IH]; simpl; [done|].
  destruct (Ascii.eqb c' c); simpl; [split; [done|lia]|]. exact IH.
Qed.

Lemma loads_cases json_loads line :
  (exists m, json_loads line = Some m /\ loads json_loads line = Ok m) \/
  (json_loads line = None /\ loads json_loads line = Raise JSONDecodeError).
Proof. unfold loads. destruct (json_loads line); eauto. Qed.

(** Reading the lines fails with [JSONDecodeError] exactly when one of them
    does not decode. *)
Lemma mapM_loads_cases json_loads lines :
  (exists records, mapM (loads json_loads) lines = Ok records /\
                   Forall (fun line => json_loads line <> None) lines) \/
  (mapM (loads json_loads) lines = Raise JSONDecodeError /\
   exists line, line ∈ lines /\ json_loads line = None).
Proof.
  induction lines as [|line lines IH]; simpl.
  - left. eauto.
  - destruct (loads_cases json_loads line) as [(m & Hm & ->)|[Hm ->]]; simpl.
    + destruct IH as [(records & -> & Hall)|[-> (l & Hl & Hnone)]]; simpl.
      * left. eexists. split; [done|]. constructor; [congruence|done].
      * right. split; [done|]. exists l. split; [by constructor|done].
    + right. split; [done|]. exists line. split; [by constructor|done].
Qed.

(** X1. [get_metadata_file] reads one record for every newline character of
    the file: a call that returns gives as many records as the text has
    newlines, and a text without any newline (the empty file among them)
    gives the empty manifest, whatever it holds and without any decoding
    error. *)
Theorem one_record_per_newline fs json_loads path text :
  fs path = Some text ->
  (forall records,
     get_metadata_file fs json_loads path = Ok records ->
     length records = count_char newline text) /\
  (has_char newline text = false -> get_metadata_file fs json_loads path = Ok []).
Proof.
  intros Hfs. unfold get_metadata_file, read_text. rewrite Hfs. simpl. split.
  - intros records H. apply mapM_length in H. by rewrite H, manifest_lines_length.
  - intros H. apply count_char_has_char in H.
    pose proof (manifest_lines_length text) as Hlen. rewrite H in Hlen.
    destruct (manifest_lines text); [done|discriminate].
Qed.

Lemma one_record_per_newline_witness :
  length [ {| shard := Some "a"; num_sequences := Some 7; num_chunks := None |};
           {| shard := Some "b"; num_sequences := None; num_chunks := Some 9 |} ]
  = count_char newline mixed_fields_text /\
  get_metadata_file (one_file "m.jsonl" "not a manifest") json_loads_manifest "m.jsonl"
  = Ok [].
Proof.
  split.
  - apply (proj1 (one_record_per_newline mixed_fields_fs json_loads_manifest
                    "data/manifest.jsonl" mixed_fields_text eq_refl)).
    vm_compute. reflexivity.
  - apply (proj2 (one_record_per_newline (one_file "m.jsonl" "not a manifest")
                    json_loads_manifest "m.jsonl" "not a manifest" eq_refl)).
    vm_compute. reflexivity.
Defined.

(** X3. A blank line anywhere before the end of the file (two newlines in a
    row, or a newline at the very start) makes [get_metadata_file] raise
    [JSONDecodeError], for a decoder that like [json.loads] rejects the empty
    string. *)
Theorem blank_line_raises fs json_loads path before after :
  json_loads EmptyString = None ->
  (fs path = Some (before +:+ String newline (String newline after)) ->
   get_metadata_file fs json_loads path = Raise JSONDecodeError) /\
  (fs path = Some (String newline after) ->
   get_metadata_file fs json_loads path = Raise JSONDecodeError).
Proof.
  intros Hempty.
  assert (forall text lines rest,
            fs path = Some text ->
            manifest_lines text = lines ++ EmptyString :: rest ->
            get_metadata_file fs json_loads path = Raise JSONDecodeError) as Hblank.
  { intros text lines rest Hfs Hlines.
    unfold get_metadata_file, read_text. rewrite Hfs. simpl.
    destruct (mapM_loads_cases json_loads (manifest_lines text))
      as [(records & _ & Hall)|[E _]]; [|done].
    rewrite Hlines, Forall_forall in Hall.
    destruct (Hall EmptyString); [|done].
    apply elem_of_app. right. by constructor. }
  assert (forall s, exists rest, split_on newline s = rest ++ [List.last (split_on newline s) s])
    as Hlast.
  { intros s. destruct (split_on_cons newline s) as (w & ws & E). rewrite E.
    destruct (exists_last (l := w :: ws)) as (l' & x & E'); [done|].
    rewrite E'. exists l'. by rewrite last_last. }
  split; intros Hfs.
  - destruct (Hlast after) as (rest & Hrest).
    apply (Hblank _ (split_on newline before) rest Hfs).
    unfold manifest_lines. rewrite split_on_app.
    change (String newline after) with (EmptyString +:+ String newline after).
    rewrite split_on_app. simpl (split_on newline EmptyString).
    rewrite Hrest.
    replace (split_on newline before ++ [EmptyString] ++ rest ++ [List.last (split_on newline after) after])
      with ((split_on newline before ++ EmptyString :: rest) ++ [List.last (split_on newline after) after])
      by (by rewrite <- !app_assoc).
    apply py_slice_to_drop_last.
  - destruct (Hlast after) as (rest & Hrest).
    apply (Hblank _ [] rest Hfs).
    unfold manifest_lines.
    change (String newline after) with (EmptyString +:+ String newline after).
    rewrite split_on_app. simpl (split_on newline EmptyString).
    rewrite Hrest.
    change ([EmptyString] ++ rest ++ [List.last (split_on newline after) after])
      with ((EmptyString :: rest) ++ [List.last (split_on newline after) after]).
    apply py_slice_to_drop_last.
Qed.

Lemma blank_line_raises_witness :
  get_metadata_file
    (one_file "m.jsonl"
       (manifest_line "a" "num_sequences" "7"
        +:+ String newline (String newline (manifest_line "b" "num_sequences" "9"))))
    json_loads_manifest "m.jsonl"
  = Raise JSONDecodeError.
Proof.
  refine (proj1 (blank_line_raises _ json_loads_manifest "m.jsonl"
                   (manifest_line "a" "num_sequences" "7")
                   (manifest_line "b" "num_sequences" "9") _) _).
  - vm_compute. reflexivity.
  - vm_compute. reflexivity.
Defined.

(** ** The dictionary of a manifest *)

(** X4. The dictionary that [convert_metadata_to_dict] returns maps every
    shard name of the manifest to the sample count of the last record with
    that name (a later record overwrites an earlier one), and holds no other
    key; when no two records share a name every record is found with its own
    count. *)
Theorem dict_holds_last_count manifest d :
  convert_metadata_to_dict manifest = Ok d ->
  (forall name, d !! name = last_count name manifest) /\
  (NoDup (shard <$> manifest) ->
   forall m, m ∈ manifest ->
     exists name n, shard m = Some name /\ record_num_samples m = Ok n /\
                    d !! name = Some n).
Proof.
  intros H. unfold convert_metadata_to_dict in H.
  destruct (convert_loop manifest ∅) as [(Hall & d' & Hd & Hlook)|(_ & Hd)];
    cbv zeta in *; rewrite Hd in H; [|done].
  assert (d' = d) by congruence. subst d'.
  assert (forall name, d !! name = last_count name manifest) as Hlast.
  { intros name. rewrite Hlook. by destruct (last_count name manifest). }
  split; [done|].
  intros Hnd m Hm. rewrite Forall_forall in Hall.
  destruct (complete_cases m) as [(name & n & Hs & Hn & _)|[Hbad _]];
    [|by destruct Hbad; apply Hall].
  exists name, n. split; [done|]. split; [done|]. rewrite Hlast.
  clear -Hnd Hm Hs Hn. induction manifest as [|m0 manifest IH]; [by inversion Hm|].
  simpl in Hnd. apply NoDup_cons in Hnd as [Hnotin Hnd]. simpl.
  apply elem_of_cons in Hm as [->|Hm].
  - assert (last_count name manifest = None) as ->.
    { clear -Hnotin Hs. rewrite Hs in Hnotin.
      induction manifest as [|m1 manifest IH]; [done|]. simpl in *.
      apply not_elem_of_cons in Hnotin as [Hne Hnotin].
      rewrite (IH Hnotin). destruct (decide (shard m1 = Some name)); [congruence|done]. }
    rewrite Hs, Hn. by destruct (decide (Some name = Some name)).
  - by rewrite (IH Hnd Hm).
Qed.

Lemma dict_holds_last_count_witness :
  (<[ "a"%string := 9 ]> (<[ "a"%string := 7 ]> (∅ : gmap string Z))) !! "a"%string
  = last_count "a"
      [ {| shard := Some "a"; num_sequences := Some 7; num_chunks := None |};
        {| shard := Some "a"; num_sequences := None; num_chunks := Some 9 |} ] /\
  exists name n,
    shard {| shard := Some "b"; num_sequences := None; num_chunks := Some 9 |} = Some name /\
    record_num_samples {| shard := Some "b"; num_sequences := None; num_chunks := Some 9 |}
    = Ok n /\
    (<[ "b"%string := 9 ]> (<[ "a"%string := 7 ]> (∅ : gmap string Z))) !! name = Some n.
Proof.
  split.
  - refine (proj1 (dict_holds_last_count
                     [ {| shard := Some "a"; num_sequences := Some 7; num_chunks := None |};
                       {| shard := Some "a"; num_sequences := None; num_chunks := Some 9 |} ]
                     _ _) _).
    reflexivity.
  - refine (proj2 (dict_holds_last_count
                     [ {| shard := Some "a"; num_sequences := Some 7; num_chunks := None |};
                       {| shard := Some "b"; num_sequences := None; num_chunks := Some 9 |} ]
                     _ _) _ _ _).
    + reflexivity.
    + simpl. apply NoDup_cons. split; [|apply NoDup_singleton].
      intros H. apply list_elem_of_singleton in H. discriminate.
    + apply elem_of_cons. right. apply list_elem_of_singleton. reflexivity.
Defined.

(** X5. [convert_metadata_to_dict] returns a dictionary exactly when every
    record has a "shard" and one of the two count fields, and raises
    [KeyError] exactly when some record lacks the name or both counts. *)
Theorem dict_needs_complete_records manifest :
  (Forall complete manifest <-> exists d, convert_metadata_to_dict manifest = Ok d) /\
  (~ Forall complete manifest <-> convert_metadata_to_dict manifest = Raise KeyError).
Proof.
  unfold convert_metadata_to_dict.
  destruct (convert_loop manifest ∅) as [(Hall & d & Hd & _)|(Hall & Hd)];
    cbv zeta in *; rewrite Hd.
  - split; split; try done; eauto.
  - split; split; try done. intros (d & ?). done.
Qed.

Lemma dict_needs_complete_records_witness :
  convert_metadata_to_dict
    [ {| shard := Some "a"; num_sequences := Some 7; num_chunks := None |};
      {| shard := Some "b"; num_sequences := None; num_chunks := None |} ]
  = Raise KeyError.
Proof.
  apply (proj2 (dict_needs_complete_records _)).
  intros H. inversion H as [|m l _ H']; subst.
  inversion H' as [|m' l' Hb _]; subst.
  destruct Hb as (_ & [[? ?]|[? ?]]); done.
Defined.

(** ** The chunks of a manifest *)

Lemma mapM_app {A B} (f : A -> result B) (l1 l2 : list A) :
  mapM f (l1 ++ l2)
  = (y1 <- mapM f l1 ;; y2 <- mapM f l2 ;; Ok (y1 ++ y2)).
Proof.
  induction l1 as [|x l1 IH]; simpl.
  - by destruct (mapM f l2).
  - destruct (f x); simpl; try done. rewrite IH.
    destruct (mapM f l1); simpl; try done. by destruct (mapM f l2).
Qed.

Lemma mapM_snoc {A B} (f : A -> result B) (l : list A) (x : A) ys y :
  mapM f l = Ok ys -> f x = Ok y -> mapM f (l ++ [x]) = Ok (ys ++ [y]).
Proof. intros Hl Hx. rewrite mapM_app, Hl. simpl. by rewrite Hx. Qed.

Lemma mapM_concat {A B} (f : A -> result B) (groups : list (list A)) (yss : list (list B)) :
  Forall2 (fun g ys => mapM f g = Ok ys) groups yss ->
  mapM f (concat groups) = Ok (concat yss).
Proof.
  induction 1 as [|g ys groups yss Hg _ IH]; simpl; [done|].
  by rewrite mapM_app, Hg, IH.
Qed.

Lemma sum_app l1 l2 : sum (l1 ++ l2) = sum l1 + sum l2.
Proof.
  unfold sum. rewrite fold_left_app.
  rewrite (fold_left_add_from l2 (fold_left Z.add l1 0)). done.
Qed.

Lemma sum_snoc l x : sum (l ++ [x]) = sum l + x.
Proof. rewrite sum_app. unfold sum. simpl. lia. Qed.

Lemma shard_sizes_concat groups chunk_count_list :
  Forall2 (fun g count => exists counts, shard_sizes g = Ok counts /\ count = sum counts)
          groups chunk_count_list ->
  exists counts, shard_sizes (concat groups) = Ok counts /\ sum chunk_count_list = sum counts.
Proof.
  induction 1 as [|g c groups cl (cs & Hg & ->) _ (counts & IH & Hsum)]; simpl.
  - by exists [].
  - exists (cs ++ counts). unfold shard_sizes in *. rewrite mapM_app, Hg, IH. simpl.
    split; [done|]. rewrite sum_app, sum_cons. lia.
Qed.

(** What the loop of [get_shards_for_chunk] has made of the records [seen]:
    the closed chunks [groups] and the open one. *)
Lemma chunk_loop num_samples metadata :
  forall seen shard_list curr_shard_list chunk_count_list curr_chunk_count st groups open,
    concat groups ++ open = seen ->
    chunked (concat groups) groups shard_list chunk_count_list ->
    (forall g, g ∈ groups ->
       exists counts, shard_sizes g = Ok counts /\ closes_at num_samples counts) ->
    mapM record_shard open = Ok curr_shard_list ->
    (exists counts, shard_sizes open = Ok counts /\ curr_chunk_count = sum counts /\
                    stays_open num_samples counts) ->
    foldM (chunk_step num_samples) metadata
          (shard_list, curr_shard_list, chunk_count_list, curr_chunk_count) = Ok st ->
    exists groups' open' shard_list' curr_shard_list' chunk_count_list' curr_chunk_count',
      st = (shard_list', curr_shard_list', chunk_count_list', curr_chunk_count') /\
      concat groups' ++ open' = seen ++ metadata /\
      chunked (concat groups') groups' shard_list' chunk_count_list' /\
      (forall g, g ∈ groups' ->
         exists counts, shard_sizes g = Ok counts /\ closes_at num_samples counts) /\
      mapM record_shard open' = Ok curr_shard_list' /\
      (exists counts, shard_sizes open' = Ok counts /\ curr_chunk_count' = sum counts /\
                      stays_open num_samples counts).
Proof.
  induction metadata as [|m metadata IH];
    intros seen sl cur cl cc st groups open Hseen Hch Hclosed Hcur (cs & Hcs & Hcc & Hopen) H.
  - simpl in H. inversion H; subst. exists groups, open, sl, cur, cl, (sum cs).
    rewrite app_nil_r. split; [done|]. split; [done|]. split; [done|].
    split; [done|]. split; [done|]. by exists cs.
  - simpl in H. inv_bind H. unfold chunk_step in Ha.
    inv_bind Ha. rename a0 into n, Ha0 into Hn.
    inv_bind Ha. rename a0 into name, Ha0 into Hname.
    assert (mapM record_shard (open ++ [m]) = Ok (cur ++ [name])) as Hcur'
      by (by apply mapM_snoc).
    assert (shard_sizes (open ++ [m]) = Ok (cs ++ [n])) as Hcs'
      by (unfold shard_sizes in *; by apply mapM_snoc).
    assert (forall k, (0 < k <= length cs)%nat -> sum (take k (cs ++ [n])) < num_samples)
      as Hprefix.
    { intros k Hk. rewrite take_app_le by lia. by apply Hopen. }
    destruct (Z.leb_spec num_samples (cc + n)) as [Hle|Hlt]; inversion Ha; subst; clear Ha.
    + destruct Hch as (_ & Hne & Hnames & Hcounts).
      apply (IH ((concat groups ++ open) ++ [m]) _ _ _ _ _ (groups ++ [open ++ [m]]) [])
        in H as Hrest.
      * destruct Hrest as (groups' & open' & sl' & cur' & cl' & cc' & -> & Hcat & Hrest).
        exists groups', open', sl', cur', cl', cc'. split; [done|].
        split; [by rewrite Hcat, <- app_assoc|]. done.
      * rewrite concat_app. simpl. by rewrite !app_nil_r, app_assoc.
      * split; [done|]. split; [|split].
        -- apply Forall_app. split; [done|]. constructor; [|done]. by destruct open.
        -- apply Forall2_app; [done|]. by constructor.
        -- apply Forall2_app; [done|]. constructor; [|done].
           exists (cs ++ [n]). split; [done|]. by rewrite sum_snoc.
      * intros g Hg. apply elem_of_app in Hg as [Hg|Hg]; [by apply Hclosed|].
        apply list_elem_of_singleton in Hg as ->.
        exists (cs ++ [n]). split; [done|]. split; [by rewrite sum_snoc|].
        intros k Hk. rewrite length_app in Hk. simpl in Hk. apply Hprefix. lia.
      * done.
      * exists []. split; [done|]. split; [done|]. intros k Hk. simpl in Hk. lia.
    + apply (IH ((concat groups ++ open) ++ [m]) _ _ _ _ _ groups (open ++ [m]))
        in H as Hrest.
      * destruct Hrest as (groups' & open' & sl' & cur' & cl' & cc' & -> & Hcat & Hrest).
        exists groups', open', sl', cur', cl', cc'. split; [done|].
        split; [by rewrite Hcat, <- app_assoc|]. done.
      * by rewrite app_assoc.
      * done.
      * done.
      * done.
      * exists (cs ++ [n]). split; [done|]. split; [by rewrite sum_snoc|].
        intros k Hk. rewrite length_app in Hk. simpl in Hk.
        destruct (decide (k <= length cs)%nat); [apply Hprefix; lia|].
        rewrite take_ge by (rewrite length_app; simpl; lia). rewrite sum_snoc. lia.
Qed.

Lemma chunks_of_spec num_samples metadata shard_list chunk_count_list :
  chunks_of num_samples metadata = Ok (shard_list, chunk_count_list) ->
  exists groups,
    chunked metadata groups shard_list chunk_count_list /\
    forall j g, groups !! j = Some g ->
      exists counts,
        shard_sizes g = Ok counts /\
        ((S j < length groups)%nat -> closes_at num_samples counts) /\
        ((S j = length groups)%nat ->
         closes_at num_samples counts \/ stays_open num_samples counts).
Proof.
  unfold chunks_of. intros H. inv_bind H.
  apply (chunk_loop num_samples metadata [] [] [] [] 0 a [] []) in Ha
    as (groups & open & sl & cur & cl & cc & -> & Hcat & Hch & Hclosed & Hcur &
        (cs & Hcs & -> & Hopen)).
  2: done.
  2: { by repeat split; constructor. }
  2: { intros g Hg. by inversion Hg. }
  2: done.
  2: { exists []. split; [done|]. split; [done|]. intros k Hk. simpl in Hk. lia. }
  simpl in Hcat. pose proof (mapM_length _ _ _ Hcur) as Hlen.
  destruct Hch as (_ & Hne & Hnames & Hcounts).
  destruct (Z.ltb_spec 0 (len cur)) as [Hpos|Hzero]; inversion H; subst; clear H.
  - exists (groups ++ [open]). split.
    + split; [|split; [|split]].
      * rewrite concat_app. simpl. by rewrite app_nil_r.
      * apply Forall_app. split; [done|]. constructor; [|done].
        intros ->. unfold len in Hpos. simpl in Hlen. lia.
      * apply Forall2_app; [done|]. by constructor.
      * apply Forall2_app; [done|]. constructor; [|done]. by exists cs.
    + intros j g Hj. rewrite length_app. simpl.
      apply lookup_app_Some in Hj as [Hj|(Hge & Hj)].
      * destruct (Hclosed g) as (counts & Hg & Hcl); [by eapply list_elem_of_lookup_2|].
        exists counts. split; [done|]. split; [done|]. by left.
      * apply list_lookup_singleton_Some in Hj as [Hj <-].
        exists cs. split; [done|]. split; [lia|]. by right.
  - assert (open = []) as ->.
    { destruct open; [done|]. unfold len in Hzero. simpl in Hlen. lia. }
    rewrite app_nil_r.
    exists groups. split; [by split; [|split; [|split]]|].
    intros j g Hj.
    destruct (Hclosed g) as (counts & Hg & Hcl); [by eapply list_elem_of_lookup_2|].
    exists counts. split; [done|]. split; [done|]. by left.
Qed.

(** The loop goes through when every record has a name and a count. *)
Lemma chunk_loop_total num_samples metadata :
  Forall complete metadata ->
  forall st, exists st', foldM (chunk_step num_samples) metadata st = Ok st'.
Proof.
  induction 1 as [|m metadata Hm _ IH]; intros st; simpl; [by eauto|].
  destruct st as [[[sl cur] cl] cc].
  destruct (complete_cases m) as [(name & n & Hs & Hn & _)|[Hbad _]]; [|done].
  unfold chunk_step. rewrite Hn. simpl.
  unfold record_shard. rewrite Hs. simpl.
  destruct (num_samples <=? cc + n); simpl; apply IH.
Qed.

(** X6. The chunks that [get_shards_for_chunk] cuts a manifest into cover it
    without loss or repetition: put one after the other they are the shard
    names of the manifest in its order, no chunk is empty, there is one count
    for every chunk, and the counts add up to the samples of the manifest. *)
Theorem chunks_cover_manifest num_samples metadata shard_list chunk_count_list :
  chunks_of num_samples metadata = Ok (shard_list, chunk_count_list) ->
  mapM record_shard metadata = Ok (concat shard_list) /\
  Forall (fun chunk => chunk <> []) shard_list /\
  length chunk_count_list = length shard_list /\
  exists counts, shard_sizes metadata = Ok counts /\ sum chunk_count_list = sum counts.
Proof.
  intros H. apply chunks_of_spec in H as (groups & (Hcat & Hne & Hnames & Hcounts) & _).
  subst metadata. split; [by apply mapM_concat|]. split; [|split].
  - clear -Hne Hnames. induction Hnames as [|g names groups sl Hg _ IH]; [done|].
    inversion Hne; subst. constructor; [|by apply IH].
    intros ->. destruct g; [done|]. simpl in Hg.
    destruct (record_shard m); simpl in Hg; try done.
    destruct (mapM record_shard g); done.
  - apply Forall2_length in Hnames, Hcounts. congruence.
  - by apply shard_sizes_concat.
Qed.

Lemma chunks_cover_manifest_witness :
  mapM record_shard ten_shards
  = Ok (concat [["shard_0"; "shard_1"; "shard_2"]; ["shard_3"; "shard_4"; "shard_5"];
                ["shard_6"; "shard_7"; "shard_8"]; ["shard_9"]]) /\
  Forall (fun chunk => chunk <> [])
         [["shard_0"; "shard_1"; "shard_2"]; ["shard_3"; "shard_4"; "shard_5"];
          ["shard_6"; "shard_7"; "shard_8"]; ["shard_9"]] /\
  length [300; 300; 300; 100]
  = length [["shard_0"; "shard_1"; "shard_2"]; ["shard_3"; "shard_4"; "shard_5"];
            ["shard_6"; "shard_7"; "shard_8"]; ["shard_9"]] /\
  exists counts, shard_sizes ten_shards = Ok counts /\ sum [300; 300; 300; 100] = sum counts.
Proof.
  apply (chunks_cover_manifest 250 ten_shards).
  vm_compute. reflexivity.
Defined.

(** X7. Every chunk of [get_shards_for_chunk] but the last is closed by the
    first record with which its running sample count reaches [num_samples]:
    its count is at least [num_samples] and the count without its last shard
    is below. The last chunk is either closed in the same way or holds the
    records left over, with a count below [num_samples]. *)
Theorem chunks_close_at_num_samples num_samples metadata shard_list chunk_count_list :
  chunks_of num_samples metadata = Ok (shard_list, chunk_count_list) ->
  (exists groups,
     chunked metadata groups shard_list chunk_count_list /\
     forall j g, groups !! j = Some g ->
       exists counts,
         shard_sizes g = Ok counts /\
         ((S j < length groups)%nat -> closes_at num_samples counts) /\
         ((S j = length groups)%nat ->
          closes_at num_samples counts \/ stays_open num_samples counts)) /\
  (forall j count, chunk_count_list !! j = Some count ->
     (S j < length chunk_count_list)%nat -> num_samples <= count).
Proof.
  intros H. apply chunks_of_spec in H as (groups & Hch & Hgroups).
  split; [by exists groups|].
  intros j count Hj Hlt.
  destruct Hch as (_ & _ & _ & Hcounts).
  pose proof (Forall2_length _ _ _ Hcounts) as Hlen.
  destruct (Forall2_lookup_r _ _ _ _ _ Hcounts Hj) as (g & Hg & counts & Hsizes & ->).
  destruct (Hgroups j g Hg) as (counts' & Hsizes' & Hclose & _).
  assert (counts' = counts) by congruence. subst.
  apply Hclose. lia.
Qed.

Lemma chunks_close_at_num_samples_witness :
  (exists groups,
     chunked ten_shards groups
             [["shard_0"; "shard_1"; "shard_2"]; ["shard_3"; "shard_4"; "shard_5"];
              ["shard_6"; "shard_7"; "shard_8"]; ["shard_9"]]
             [300; 300; 300; 100] /\
     forall j g, groups !! j = Some g ->
       exists counts,
         shard_sizes g = Ok counts /\
         ((S j < length groups)%nat -> closes_at 250 counts) /\
         ((S j = length groups)%nat -> closes_at 250 counts \/ stays_open 250 counts)) /\
  (forall j count, [300; 300; 300; 100] !! j = Some count ->
     (S j < length [300; 300; 300; 100])%nat -> 250 <= count).
Proof.
  apply (chunks_close_at_num_samples 250 ten_shards).
  vm_compute. reflexivity.
Defined.

Lemma pymod_Ok a b : b <> 0 -> pymod a b = Ok (a mod b).
Proof. intros H. unfold pymod. by destruct (Z.eqb_spec b 0). Qed.

(** X8. For a manifest that is not empty and whose records all have a name
    and a count, [get_shards_for_chunk] returns for every chunk number, a
    negative one included, the chunk and the count at position [chunk] modulo
    the number of chunks, so that the chunks come around again; for an empty
    manifest it raises [ZeroDivisionError]. *)
Theorem get_shards_for_chunk_wraps fs json_loads num_samples path metadata :
  get_metadata_file fs json_loads path = Ok metadata ->
  (metadata = [] ->
   forall chunk,
     get_shards_for_chunk fs json_loads num_samples chunk path = Raise ZeroDivisionError) /\
  (metadata <> [] -> Forall complete metadata ->
   exists shard_list chunk_count_list,
     chunks_of num_samples metadata = Ok (shard_list, chunk_count_list) /\
     shard_list <> [] /\
     forall chunk, exists shards count,
       shard_list !! Z.to_nat (chunk mod len shard_list) = Some shards /\
       chunk_count_list !! Z.to_nat (chunk mod len shard_list) = Some count /\
       get_shards_for_chunk fs json_loads num_samples chunk path = Ok (shards, count) /\
       get_shards_for_chunk fs json_loads num_samples (chunk + len shard_list) path
       = Ok (shards, count)).
Proof.
  intros Hread. split.
  - intros -> chunk. unfold get_shards_for_chunk. rewrite Hread. reflexivity.
  - intros Hne Hall.
    destruct (chunk_loop_total num_samples metadata Hall ([], [], [], 0)) as (st & Hst).
    assert (exists sl cl, chunks_of num_samples metadata = Ok (sl, cl)) as (sl & cl & Hch).
    { unfold chunks_of. rewrite Hst. simpl. destruct st as [[[sl cur] cl] cc].
      destruct (0 <? len cur); eauto. }
    exists sl, cl. split; [done|].
    pose proof Hch as Hspec. apply chunks_of_spec in Hspec
      as (groups & (Hcat & Hgne & Hnames & Hcounts) & _).
    pose proof (Forall2_length _ _ _ Hnames) as Hl1.
    pose proof (Forall2_length _ _ _ Hcounts) as Hl2.
    assert (sl <> []) as Hsl.
    { intros ->. destruct groups; [|done]. simpl in Hcat. by subst. }
    split; [done|].
    assert (0 < len sl) as Hpos.
    { unfold len. destruct sl; [done|]. simpl. lia. }
    assert (len cl = len sl) as Hlen by (unfold len; lia).
    assert (forall chunk, exists shards count,
              sl !! Z.to_nat (chunk mod len sl) = Some shards /\
              cl !! Z.to_nat (chunk mod len sl) = Some count /\
              get_shards_for_chunk fs json_loads num_samples chunk path = Ok (shards, count))
      as Hget.
    { intros chunk.
      pose proof (Z.mod_pos_bound chunk (len sl) Hpos) as Hb.
      destruct (lookup_lt_is_Some_2 sl (Z.to_nat (chunk mod len sl))) as (shards & Hs);
        [unfold len in *; lia|].
      destruct (lookup_lt_is_Some_2 cl (Z.to_nat (chunk mod len sl))) as (count & Hc);
        [unfold len in *; lia|].
      exists shards, count. split; [done|]. split; [done|].
      unfold get_shards_for_chunk. rewrite Hread. simpl. rewrite Hch. simpl.
      rewrite Hlen, pymod_Ok by lia. simpl.
      rewrite <- (Z2Nat.id (chunk mod len sl)) by lia.
      rewrite !py_index_nat, Hs, Hc. done. }
    intros chunk. destruct (Hget chunk) as (shards & count & Hs & Hc & Hg).
    exists shards, count. split; [done|]. split; [done|]. split; [done|].
    destruct (Hget (chunk + len sl)) as (shards' & count' & Hs' & Hc' & Hg').
    rewrite Hg'.
    replace ((chunk + len sl) mod len sl) with (chunk mod len sl) in Hs', Hc'.
    + congruence.
    + rewrite <- (Z.mul_1_l (len sl)) at 2. by rewrite Z.mod_add by lia.
Qed.

Lemma get_shards_for_chunk_wraps_witness :
  get_shards_for_chunk ten_shards_fs json_loads_manifest 250 (-1) ten_shards_path
  = Ok (["shard_9"], 100) /\
  get_shards_for_chunk (one_file "m.jsonl" "") json_loads_manifest 250 0 "m.jsonl"
  = Raise ZeroDivisionError.
Proof.
  split.
  - destruct (proj2 (get_shards_for_chunk_wraps ten_shards_fs json_loads_manifest 250
                       ten_shards_path ten_shards eq_refl))
      as (sl & cl & Hch & _ & Hall).
    + discriminate.
    + unfold complete. repeat constructor; simpl; eauto.
    + destruct (Hall (-1)) as (shards & count & Hs & Hc & Hg & _).
      rewrite Hg. assert (sl = [["shard_0"; "shard_1"; "shard_2"]; ["shard_3"; "shard_4"; "shard_5"];
                                ["shard_6"; "shard_7"; "shard_8"]; ["shard_9"]] /\
                          cl = [300; 300; 300; 100]) as [-> ->].
      { vm_compute in Hch. by inversion Hch. }
      vm_compute in Hs, Hc. congruence.
  - apply (proj1 (get_shards_for_chunk_wraps (one_file "m.jsonl" "") json_loads_manifest 250
                    "m.jsonl" [] eq_refl) eq_refl).
Defined.

(** ** Sources that ran out *)

Lemma source_exhausted_from_spec fs json_loads lists sources : forall k : nat,
  (source_exhausted_from fs json_loads (Z.of_nat k) sources lists = Ok false <->
   forall j p, sources !! j = Some p -> fits fs json_loads lists (k + j) p) /\
  (source_exhausted_from fs json_loads (Z.of_nat k) sources lists = Ok true <->
   exists j p,
     sources !! j = Some p /\ overdrawn fs json_loads lists (k + j) p /\
     forall j' p', (j' < j)%nat -> sources !! j' = Some p' ->
       fits fs json_loads lists (k + j') p').
Proof.
  induction sources as [|source rest IH]; intros k; simpl.
  - split; split.
    + intros _ j p Hj. done.
    + done.
    + done.
    + intros (j & p & Hj & _). done.
  - destruct (IH (S k)) as [IHf IHt].
    replace (Z.of_nat k + 1) with (Z.of_nat (S k)) by lia.
    destruct (get_metadata_file fs json_loads source) as [data|e|] eqn:Hdata; simpl.
    2,3: split; split; try done.
    2,4: intros H; destruct (H 0%nat source eq_refl) as (d & l & Hd & _); congruence.
    2,3: intros (j & p & Hj & (d & l & Hd & Hl & Hlt) & Hbefore);
         destruct j as [|j]; simpl in Hj;
         [inversion Hj; subst; congruence|];
         destruct (Hbefore 0%nat source ltac:(lia) eq_refl) as (d' & l' & Hd' & _); congruence.
    rewrite py_index_nat.
    destruct (lists !! k) as [shard_list|] eqn:Hlist; simpl.
    2: { split; split; try done.
         - intros H. destruct (H 0%nat source eq_refl) as (d & l & _ & Hl & _).
           rewrite Nat.add_0_r in Hl. congruence.
         - intros (j & p & Hj & (d & l & Hd & Hl & Hlt) & Hbefore).
           destruct j as [|j]; simpl in Hj.
           + rewrite Nat.add_0_r in Hl. congruence.
           + destruct (Hbefore 0%nat source ltac:(lia) eq_refl) as (d' & l' & _ & Hl' & _).
             rewrite Nat.add_0_r in Hl'. congruence. }
    destruct (Z.ltb_spec (len data) (len shard_list)) as [Hlt|Hge].
    + split; split; try done.
      * intros H. destruct (H 0%nat source eq_refl) as (d & l & Hd & Hl & Hle).
        rewrite Nat.add_0_r in Hl. assert (d = data) by congruence.
        assert (l = shard_list) by congruence. subst. lia.
      * intros _. exists 0%nat, source. split; [done|]. split.
        -- exists data, shard_list. by rewrite Nat.add_0_r.
        -- intros j' p' Hj'. lia.
    + rewrite IHf, IHt. split; split.
      * intros H [|j] p Hj; simpl in Hj.
        -- inversion Hj; subst. exists data, shard_list. by rewrite Nat.add_0_r.
        -- replace (k + S j)%nat with (S k + j)%nat by lia. by apply H.
      * intros H j p Hj. replace (S k + j)%nat with (k + S j)%nat by lia. by apply H.
      * intros (j & p & Hj & Hover & Hbefore). exists (S j), p. split; [done|].
        replace (k + S j)%nat with (S k + j)%nat by lia. split; [done|].
        intros [|j'] p' Hlt' Hj'; simpl in Hj'.
        -- inversion Hj'; subst. exists data, shard_list. by rewrite Nat.add_0_r.
        -- replace (k + S j')%nat with (S k + j')%nat by lia. apply Hbefore; [lia|done].
      * intros (j & p & Hj & (d & l & Hd & Hl & Hlt') & Hbefore).
        destruct j as [|j]; simpl in Hj.
        -- inversion Hj; subst. rewrite Nat.add_0_r in Hl.
           assert (d = data) by congruence. assert (l = shard_list) by congruence.
           subst. lia.
        -- exists j, p. split; [done|].
           replace (S k + j)%nat with (k + S j)%nat by lia.
           split; [by exists d, l|].
           intros j' p' Hlt'' Hj'.
           replace (S k + j')%nat with (k + S j')%nat by lia.
           apply (Hbefore (S j') p'); [lia|done].
Qed.

(** X9. [source_exhausted] answers [True] exactly when some source has a
    shard list longer than its manifest and every source before it has not
    (the sources after the first such one are not read at all), and [False]
    exactly when the shard list of every source fits its manifest. *)
Theorem source_exhausted_first_overdrawn fs json_loads paths shard_list_per_source :
  (source_exhausted fs json_loads paths shard_list_per_source = Ok false <->
   forall i path, paths !! i = Some path -> fits fs json_loads shard_list_per_source i path) /\
  (source_exhausted fs json_loads paths shard_list_per_source = Ok true <->
   exists i path,
     paths !! i = Some path /\ overdrawn fs json_loads shard_list_per_source i path /\
     forall j before, (j < i)%nat -> paths !! j = Some before ->
       fits fs json_loads shard_list_per_source j before).
Proof.
  unfold source_exhausted.
  exact (source_exhausted_from_spec fs json_loads shard_list_per_source paths 0).
Qed.

Lemma source_exhausted_first_overdrawn_witness :
  source_exhausted three_shards_fs json_loads_manifest
    ["data/manifest.jsonl"; "missing.jsonl"] [["a"; "b"; "c"; "d"]]
  = Ok true.
Proof.
  apply (proj2 (source_exhausted_first_overdrawn three_shards_fs json_loads_manifest
                  ["data/manifest.jsonl"; "missing.jsonl"] [["a"; "b"; "c"; "d"]])).
  exists 0%nat, "data/manifest.jsonl"%string. split; [reflexivity|]. split.
  - exists three_shards, ["a"; "b"; "c"; "d"]%string.
    split; [vm_compute; reflexivity|]. split; [reflexivity|]. vm_compute. reflexivity.
  - intros j before Hj. lia.
Defined.

(** ** The allocator at its edges *)

Lemma mapM_pointwise {A B} (f : A -> result B) (xs : list A) (ys : list B) :
  length xs = length ys ->
  (forall j x, xs !! j = Some x -> exists y, ys !! j = Some y /\ f x = Ok y) ->
  mapM f xs = Ok ys.
Proof.
  revert ys. induction xs as [|x xs IH]; intros [|y ys] Hlen H; simpl in *; try done.
  destruct (H 0%nat x eq_refl) as (y' & [= <-] & ->). simpl.
  rewrite (IH ys); [done|lia|]. intros j x' Hj. apply (H (S j) x' Hj).
Qed.

Lemma py_slice_to_take {A} (l : list A) k : exists n, py_slice_to l k = take n l.
Proof. unfold py_slice_to. eauto. Qed.

Lemma py_slice_to_same_length {A B} (l1 : list A) (l2 : list B) k :
  length l1 = length l2 ->
  exists n, py_slice_to l1 k = take n l1 /\ py_slice_to l2 k = take n l2.
Proof.
  intros H. unfold py_slice_to, len. rewrite H. eauto.
Qed.

(** What a call that returns has served to source [i]: the records of its
    manifest from the starting cursor up to the cursor returned. *)
Lemma single_epoch_string_slice fs json_loads num_samples starting paths weights wpg ws
    shard_strings totals next_shards :
  Forall (fun s => 0 <= s) starting ->
  _single_epoch_string fs json_loads num_samples starting paths weights wpg ws
  = Ok (shard_strings, totals, next_shards) ->
  forall i path, paths !! i = Some path ->
    exists manifest start next names counts,
      get_metadata_file fs json_loads path = Ok manifest /\
      starting !! i = Some start /\
      next_shards !! i = Some next /\
      len names = next - start /\
      mapM record_shard (py_slice manifest start next) = Ok names /\
      shard_sizes (py_slice manifest start next) = Ok counts /\
      length (py_slice manifest start next) = length names /\
      shard_strings !! i = Some (shard_string path names) /\
      totals !! i = Some (sum counts).
Proof.
  intros Hnonneg H i path Hpath.
  apply single_epoch_string_trace in H
    as (needed & manifests & acc & st & Htrace & Hlen & -> & -> & Hstrs).
  destruct Htrace as (_ & Hman & Hacc & Htrunc).
  apply accumulated_trace in Hacc as (k & _ & (_ & _ & _ & Hin & _)).
  apply truncate_spec in Htrunc as (Htr & _ & _).
  assert (i < Z.to_nat (len paths))%nat as Hi.
  { rewrite len_to_nat. by eapply lookup_lt_Some. }
  destruct (Hin i Hi) as (sl & ns & Hsl & Hns & Hk & Hnext & (Hlens & Hrun)).
  destruct (Htr i Hi) as (start & sl' & ns' & Htw & Hstart & Hsl' & Hns' & Hkept & Hkns & Hcur).
  assert (sl' = sl) by congruence. assert (ns' = ns) by congruence. subst sl' ns'.
  destruct (mapM_lookup _ _ _ i path Hman Hpath) as (manifest & Hmanifest & Hread).
  destruct (Hstrs i path Hpath) as (kept & Hkept' & Hstr).
  destruct (py_slice_to_same_length sl ns
              (len sl / (wpg * ws) * (wpg * ws)) (eq_sym Hlens)) as (n & En & En').
  rewrite En in Hkept, Hcur. rewrite En' in Hkns.
  assert (kept = take n sl) by congruence. subst kept.
  assert (0 <= start) as Hstart0.
  { rewrite Forall_forall in Hnonneg. apply Hnonneg. by eapply list_elem_of_lookup_2. }
  set (nk := length (take n sl)).
  assert (forall j name, take n sl !! j = Some name ->
            exists m count, manifest !! (Z.to_nat start + j)%nat = Some m /\
                            shard m = Some name /\ record_num_samples m = Ok count /\
                            take n ns !! j = Some count) as Hserved.
  { intros j name Hj.
    pose proof (lookup_lt_Some _ _ _ Hj) as Hjlt. rewrite length_take in Hjlt.
    rewrite lookup_take_lt in Hj by lia.
    destruct (Hrun j name Hj) as (manifest' & start' & m & count & Hm' & Hs' & Hm & Hname & Hc & Hcount).
    assert (manifest' = manifest) by congruence. assert (start' = start) by congruence.
    subst. exists m, count.
    replace (start + Z.of_nat j) with (Z.of_nat (Z.to_nat start + j)) in Hm by lia.
    apply py_index_Ok_nat in Hm. split; [done|]. split; [done|]. split; [done|].
    rewrite lookup_take_lt by lia. done. }
  assert (length (take n ns) = nk) as Hnsk.
  { unfold nk. rewrite !length_take. lia. }
  assert (py_slice manifest start (start + len (take n sl))
          = take nk (drop (Z.to_nat start) manifest)) as Eslice.
  { unfold py_slice, len. fold nk. f_equal. lia. }
  assert (length (take nk (drop (Z.to_nat start) manifest)) = nk) as Hslen.
  { rewrite length_take, length_drop.
    destruct nk as [|nk'] eqn:Enk; [lia|].
    destruct (lookup_lt_is_Some_2 (take n sl) nk') as (name & Hname); [fold nk; lia|].
    destruct (Hserved nk' name Hname) as (m & count & Hm & _).
    apply lookup_lt_Some in Hm. lia. }
  assert (forall j x, take nk (drop (Z.to_nat start) manifest) !! j = Some x ->
            (j < nk)%nat /\ manifest !! (Z.to_nat start + j)%nat = Some x) as Hx.
  { intros j x Hj. pose proof (lookup_lt_Some _ _ _ Hj) as Hjlt. rewrite Hslen in Hjlt.
    split; [done|]. rewrite lookup_take_lt, lookup_drop in Hj by done. done. }
  exists manifest, start, (start + len (take n sl)), (take n sl), (take n ns).
  split; [done|]. split; [done|]. split; [done|]. split; [lia|].
  rewrite Eslice. split; [|split; [|split; [|split]]].
  - apply mapM_pointwise; [by rewrite Hslen|].
    intros j x Hj. destruct (Hx j x Hj) as (Hjlt & Hm).
    destruct (lookup_lt_is_Some_2 (take n sl) j) as (name & Hname); [by fold nk|].
    destruct (Hserved j name Hname) as (m & count & Hm' & Hs & _).
    exists name. split; [done|]. unfold record_shard.
    assert (m = x) by congruence. subst. by rewrite Hs.
  - unfold shard_sizes. apply mapM_pointwise; [by rewrite Hslen, Hnsk|].
    intros j x Hj. destruct (Hx j x Hj) as (Hjlt & Hm).
    destruct (lookup_lt_is_Some_2 (take n sl) j) as (name & Hname); [by fold nk|].
    destruct (Hserved j name Hname) as (m & count & Hm' & _ & Hc & Hcount).
    exists count. split; [done|]. assert (m = x) by congruence. by subst.
  - by rewrite Hslen.
  - done.
  - by rewrite list_lookup_fmap, Hkns.
Qed.

(** X10. With cursors that are not negative, a call of the allocator that
    returns has served every source a run of consecutive records of its
    manifest: those from its starting cursor up to, and without, the cursor
    returned. The shard string is made of their names and the sample total
    is the sum of their counts. *)
Theorem allocation_is_manifest_slice fs json_loads num_samples starting paths weights wpg ws
    shard_strings totals next_shards :
  Forall (fun s => 0 <= s) starting ->
  _single_epoch_string fs json_loads num_samples starting paths weights wpg ws
  = Ok (shard_strings, totals, next_shards) ->
  forall i path, paths !! i = Some path ->
    exists manifest start next names counts,
      get_metadata_file fs json_loads path = Ok manifest /\
      starting !! i = Some start /\
      next_shards !! i = Some next /\
      len names = next - start /\
      mapM record_shard (py_slice manifest start next) = Ok names /\
      shard_sizes (py_slice manifest start next) = Ok counts /\
      length (py_slice manifest start next) = length names /\
      shard_strings !! i = Some (shard_string path names) /\
      totals !! i = Some (sum counts).
Proof. apply single_epoch_string_slice. Qed.

Lemma allocation_is_manifest_slice_witness :
  exists manifest start next names counts,
    get_metadata_file ten_shards_fs json_loads_manifest ten_shards_path = Ok manifest /\
    [4] !! 0%nat = Some start /\
    [6] !! 0%nat = Some next /\
    len names = next - start /\
    mapM record_shard (py_slice manifest start next) = Ok names /\
    shard_sizes (py_slice manifest start next) = Ok counts /\
    length (py_slice manifest start next) = length names /\
    ["data/{shard_4,shard_5}.tar"] !! 0%nat = Some (shard_string ten_shards_path names) /\
    [200] !! 0%nat = Some (sum counts).
Proof.
  apply (allocation_is_manifest_slice ten_shards_fs json_loads_manifest 250 [4]
           [ten_shards_path] None 1 2 ["data/{shard_4,shard_5}.tar"] [200] [6]).
  - repeat constructor. lia.
  - vm_compute. reflexivity.
  - reflexivity.
Defined.

Lemma count_small_shards_empty fs json_loads path :
  get_metadata_file fs json_loads path = Ok [] ->
  count_small_shards fs json_loads path = Raise ValueError.
Proof. intros H. unfold count_small_shards. by rewrite H. Qed.

(** X11. A source whose manifest has no record makes the allocator raise
    [ValueError], from the [max] of no shard sizes in [count_small_shards],
    as soon as the manifest diagnostics reach it: the sources before it have
    passed theirs, and nothing is allocated. A manifest file without any
    newline is such a source. *)
Theorem empty_manifest_raises_ValueError fs json_loads num_samples starting before path after
    weights wpg ws smalls :
  are_sources_imbalanced_with_each_other fs json_loads (before ++ path :: after) = Ok tt ->
  mapM (count_small_shards fs json_loads) before = Ok smalls ->
  (get_metadata_file fs json_loads path = Ok [] ->
   count_small_shards fs json_loads path = Raise ValueError /\
   _single_epoch_string fs json_loads num_samples starting (before ++ path :: after)
                        weights wpg ws
   = Raise ValueError) /\
  (forall text, fs path = Some text -> has_char newline text = false ->
   _single_epoch_string fs json_loads num_samples starting (before ++ path :: after)
                        weights wpg ws
   = Raise ValueError).
Proof.
  intros Himb Hbefore.
  assert (get_metadata_file fs json_loads path = Ok [] ->
          _single_epoch_string fs json_loads num_samples starting (before ++ path :: after)
                               weights wpg ws
          = Raise ValueError) as Hcall.
  { intros Hempty. unfold _single_epoch_string, allocate, diagnostics.
    rewrite Himb. destruct (1 <? len (before ++ path :: after)); simpl.
    all: rewrite mapM_app, Hbefore; simpl.
    all: by rewrite (count_small_shards_empty _ _ _ Hempty). }
  split.
  - intros Hempty. split; [by apply count_small_shards_empty|by apply Hcall].
  - intros text Hfs Hnone. apply Hcall.
    unfold get_metadata_file, read_text. rewrite Hfs. simpl.
    apply count_char_has_char in Hnone.
    pose proof (manifest_lines_length text) as Hlen. rewrite Hnone in Hlen.
    by destruct (manifest_lines text).
Qed.

Lemma empty_manifest_raises_ValueError_witness :
  _single_epoch_string
    (one_file "m.jsonl" (manifest_line_text "shard_0" "num_sequences" "100"))
    json_loads_manifest 100 [0] ["m.jsonl"] None 1 1
  = Raise ValueError.
Proof.
  refine (proj2 (empty_manifest_raises_ValueError
                   (one_file "m.jsonl" (manifest_line_text "shard_0" "num_sequences" "100"))
                   json_loads_manifest 100 [0] [] "m.jsonl" [] None 1 1 [] _ _)
                (manifest_line_text "shard_0" "num_sequences" "100") _ _).
  - vm_compute. reflexivity.
  - reflexivity.
  - vm_compute. reflexivity.
  - vm_compute. reflexivity.
Defined.

(** X12. With [num_workers_per_gpu * world_size = 0] and at least one source
    the allocator never returns normally: once the accumulation has ended,
    the division of line 478 raises [ZeroDivisionError]. *)
Theorem zero_workers_never_return fs json_loads num_samples starting paths weights wpg ws :
  wpg * ws = 0 -> paths <> [] ->
  (exists e, _single_epoch_string fs json_loads num_samples starting paths weights wpg ws
             = Raise e) /\
  (forall needed manifests acc,
     diagnostics fs json_loads paths = Ok tt ->
     quotas num_samples weights (len paths) = Ok needed ->
     mapM (get_metadata_file fs json_loads) paths = Ok manifests ->
     accumulated needed starting manifests (len paths) (wpg * ws) = Ok acc ->
     _single_epoch_string fs json_loads num_samples starting paths weights wpg ws
     = Raise ZeroDivisionError).
Proof.
  intros Hzero Hne.
  assert (0 < Z.to_nat (len paths))%nat as Hpos.
  { rewrite len_to_nat. destruct paths; [done|simpl; lia]. }
  split.
  - pose proof (single_epoch_string_returns fs json_loads num_samples starting paths weights
                  wpg ws) as Hret.
    destruct (_single_epoch_string fs json_loads num_samples starting paths weights wpg ws)
      as [[[strs totals] nexts]|e|] eqn:H; [|by eauto|done].
    exfalso. apply single_epoch_string_trace in H
      as (needed & manifests & acc & st & (_ & _ & _ & Htrunc) & _).
    apply truncate_spec in Htrunc as (Htr & _ & _).
    destruct (Htr 0%nat Hpos) as (start & sl & ns & Htw & _). done.
  - intros needed manifests acc Hdiag Hq Hman Hacc.
    unfold _single_epoch_string, allocate, committed.
    rewrite Hdiag, Hq. simpl. rewrite Hman. simpl. rewrite Hacc. simpl.
    apply accumulated_trace in Hacc as (k & _ & (L1 & _ & _ & Hin & _)).
    destruct (Hin 0%nat Hpos) as (sl & ns & Hsl & _).
    unfold truncate. rewrite range_cons by lia. simpl.
    unfold truncate_source at 1.
    change 0 with (Z.of_nat 0) at 1. rewrite py_index_nat, Hsl. simpl.
    rewrite Hzero. reflexivity.
Qed.

Lemma zero_workers_never_return_witness :
  _single_epoch_string ten_shards_fs json_loads_manifest 250 [0] [ten_shards_path] None 0 2
  = Raise ZeroDivisionError.
Proof.
  refine (proj2 (zero_workers_never_return ten_shards_fs json_loads_manifest 250 [0]
                   [ten_shards_path] None 0 2 _ _)
                [250] [ten_shards]
                {| next_shard_per_source := [3];
                   shard_list_per_source := [["shard_0"; "shard_1"; "shard_2"]];
                   num_samples_per_source := [[100; 100; 100]] |} _ _ _ _).
  - reflexivity.
  - discriminate.
  - vm_compute. reflexivity.
  - vm_compute. reflexivity.
  - vm_compute. reflexivity.
  - vm_compute. reflexivity.
Defined.

(** X13. Weights that add up to zero make the allocator raise
    [ZeroDivisionError] in the computation of the quotas, for at least one
    source and a [num_samples] that converts to a float: after the manifest
    diagnostics and before any manifest is loaded for the allocation. *)
Theorem zero_sum_weights_raise fs json_loads num_samples starting paths w wpg ws n :
  len w = len paths -> paths <> [] ->
  PrimFloat.eqb (float_sum w) 0%float = true ->
  float_of_int num_samples = Ok n ->
  quotas num_samples (Some w) (len paths) = Raise ZeroDivisionError /\
  (diagnostics fs json_loads paths = Ok tt ->
   _single_epoch_string fs json_loads num_samples starting paths (Some w) wpg ws
   = Raise ZeroDivisionError).
Proof.
  intros Hlen Hne Hsum Hn.
  assert (quotas num_samples (Some w) (len paths) = Raise ZeroDivisionError) as Hq.
  { unfold quotas. simpl. rewrite Hlen, Z.eqb_refl.
    unfold needed_samples_per_source.
    assert (0 < len paths) as Hpos by (unfold len; destruct paths; [done|simpl; lia]).
    rewrite range_cons by done. simpl.
    unfold needed_samples at 1.
    destruct w as [|w0 w]; [unfold len in *; simpl in *; lia|].
    change (py_index (w0 :: w) 0) with (Ok w0 : result float). simpl.
    rewrite Hn. simpl. unfold float_div. rewrite Hsum. reflexivity. }
  split; [done|].
  intros Hdiag. unfold _single_epoch_string, allocate. by rewrite Hdiag, Hq.
Qed.

Lemma zero_sum_weights_raise_witness :
  _single_epoch_string ten_shards_fs json_loads_manifest 250 [0] [ten_shards_path]
                       (Some [0%float]) 1 2
  = Raise ZeroDivisionError.
Proof.
  refine (proj2 (zero_sum_weights_raise ten_shards_fs json_loads_manifest 250 [0]
                   [ten_shards_path] [0%float] 1 2 250%float _ _ _ _) _).
  - reflexivity.
  - discriminate.
  - vm_compute. reflexivity.
  - vm_compute. reflexivity.
  - vm_compute. reflexivity.
Defined.

(** ** Shard strings *)

Lemma join_split_on c s : join (String c EmptyString) (split_on c s) = s.
Proof.
  induction s as [|x s IH]; [done|]. simpl.
  destruct (split_on_cons c s) as (w & ws & E). rewrite E in *.
  destruct (Ascii.eqb_spec x c) as [->|Hne].
  - change (join (String c EmptyString) (EmptyString :: w :: ws))
      with (EmptyString +:+ String c EmptyString +:+ join (String c EmptyString) (w :: ws)).
    by rewrite IH.
  - destruct ws as [|w' ws].
    + simpl in *. by rewrite IH.
    + change (join (String c EmptyString) (String x w :: w' :: ws))
        with (String x w +:+ String c EmptyString +:+ join (String c EmptyString) (w' :: ws)).
      change (join (String c EmptyString) (w :: w' :: ws))
        with (w +:+ String c EmptyString +:+ join (String c EmptyString) (w' :: ws)) in IH.
      rewrite append_cons. by rewrite IH.
Qed.

Lemma shard_root_of_path dir file :
  has_char slash file = false ->
  join "/" (py_slice_to (split_on slash (dir +:+ String slash file)) (-1)) = dir.
Proof.
  intros H. rewrite split_on_app, (split_on_last _ _ H), py_slice_to_drop_last.
  apply join_split_on.
Qed.

(** X14. The shard string of a source puts its shards in the directory of
    the manifest: for a path [dir/file] it is [dir/name.tar] for one shard
    and [dir/{name,...}.tar] otherwise (for no shard too), wrapped into
    [pipe:aws s3 cp ... -] when the path starts with [s3]. A manifest path
    without any slash gives shard strings that start at the root [/]. *)
Theorem shard_string_in_manifest_directory dir file names :
  has_char slash file = false ->
  let braces :=
    match names with
    | [only] => only +:+ ".tar"
    | _ => "{" +:+ join "," names +:+ "}.tar"
    end in
  shard_string (dir +:+ String slash file) names
  = (if String.prefix "s3" (dir +:+ String slash file)
     then "pipe:aws s3 cp " +:+ (dir +:+ "/" +:+ braces) +:+ " -"
     else dir +:+ "/" +:+ braces) /\
  shard_string file names
  = (if String.prefix "s3" file
     then "pipe:aws s3 cp " +:+ ("/" +:+ braces) +:+ " -"
     else "/" +:+ braces).
Proof.
  intros H braces. unfold shard_string. split.
  - rewrite (shard_root_of_path dir file H).
    destruct names as [|only [|second rest]]; subst braces; cbv beta iota;
      by rewrite ?append_assoc.
  - rewrite (split_on_last _ _ H).
    change (py_slice_to [file] (-1)) with (@nil string).
    change (join "/" []) with EmptyString. rewrite append_nil.
    destruct names as [|only [|second rest]]; subst braces; cbv beta iota;
      by rewrite ?append_assoc.
Qed.

Lemma shard_string_in_manifest_directory_witness :
  shard_string "s3://bucket/data/manifest.jsonl" ["a"; "b"]
  = "pipe:aws s3 cp s3://bucket/data/{a,b}.tar -"%string /\
  shard_string "manifest.jsonl" ["a"] = "/a.tar"%string.
Proof.
  split.
  - apply (proj1 (shard_string_in_manifest_directory "s3://bucket/data" "manifest.jsonl"
                    ["a"; "b"] eq_refl)).
  - apply (proj2 (shard_string_in_manifest_directory "" "manifest.jsonl" ["a"] eq_refl)).
Defined.

(** ** The pre-count comes to an end *)

(** With workers, a call of the allocator that returns moves every cursor by
    at least the number of workers, and leaves it inside the manifest. *)
Lemma single_epoch_string_progress fs json_loads num_samples starting paths weights wpg ws
    shard_strings totals next_shards :
  Forall (fun s => 0 <= s) starting ->
  length starting = length paths ->
  0 < wpg -> 0 < ws ->
  _single_epoch_string fs json_loads num_samples starting paths weights wpg ws
  = Ok (shard_strings, totals, next_shards) ->
  length next_shards = length paths /\
  forall i path, paths !! i = Some path ->
    exists manifest start next,
      get_metadata_file fs json_loads path = Ok manifest /\
      starting !! i = Some start /\
      next_shards !! i = Some next /\
      start + wpg * ws <= next <= len manifest.
Proof.
  intros Hnonneg Hlen Hwpg Hws H.
  pose proof (single_epoch_string_slice _ _ _ _ _ _ _ _ _ _ _ Hnonneg H) as Hslice.
  apply single_epoch_string_trace in H
    as (needed & manifests & acc & st & Htrace & _ & -> & _ & _).
  destruct Htrace as (Hq & _ & Hacc & Htrunc).
  apply quota_formula_holds in Hq as (used & total & _ & _ & Hneeded & _).
  pose proof (accumulates_in_rounds_holds _ _ _ _ _ _ Hneeded Hacc) as (k & _ & Hstop & _).
  apply accumulated_trace in Hacc as (k' & _ & (_ & _ & L3 & _ & _)).
  apply truncate_spec in Htrunc as (Htr & (Hsame & _ & _) & _).
  split; [congruence|].
  intros i path Hpath.
  assert (i < Z.to_nat (len paths))%nat as Hi.
  { rewrite len_to_nat. by eapply lookup_lt_Some. }
  destruct (Hstop i Hi) as (sl & ns & quota & Hsl & _ & _ & Hshards & _).
  destruct (Htr i Hi) as (start & sl' & ns' & _ & Hstart & Hsl' & _ & _ & _ & Hcur).
  assert (sl' = sl) by congruence. subst sl'.
  assert (0 < wpg * ws) as Hpos by nia.
  destruct (largest_multiple (len sl) (wpg * ws) (len_nonneg sl) Hpos) as (Hcut0 & Hcut1 & _).
  rewrite py_slice_to_nonneg in Hcur by done.
  rewrite len_take in Hcur by lia.
  assert (1 <= len sl / (wpg * ws)) as Hmult.
  { apply Z.div_le_lower_bound; lia. }
  destruct (Hslice i path Hpath)
    as (manifest & start' & next & names & counts & Hread & Hstart' & Hnext & Hnames & _ & _ &
        Hin & _).
  assert (start' = start) by congruence. subst start'.
  assert (next = start + len sl / (wpg * ws) * (wpg * ws)) by congruence. subst next.
  exists manifest, start, (start + len sl / (wpg * ws) * (wpg * ws)).
  split; [done|]. split; [done|]. split; [done|]. split; [nia|].
  assert (0 <= start) as Hstart0.
  { rewrite Forall_forall in Hnonneg. apply Hnonneg. by eapply list_elem_of_lookup_2. }
  unfold py_slice in Hin. rewrite length_take, length_drop in Hin.
  unfold len in *. nia.
Qed.




Lemma cursors_after_initial fs json_loads a paths :
  cursors_after fs json_loads a paths 0
    {| steps_done := PyInt 0; tokens_seen := PyInt 0;
       sim_next_shard_per_source := replicate (length paths) 0;
       checkpoints_made := 0 |}.
Proof.
  unfold cursors_after. simpl. split; [done|]. split; [by rewrite length_replicate|].
  split; [by apply Forall_replicate|].
  intros i path Hpath. exists 0.
  split; [apply lookup_replicate_2; by eapply lookup_lt_Some|].
  split; [lia|]. intros manifest _. apply len_nonneg.
Qed.

Lemma cursors_after_round fs json_loads shard_ids total_steps a paths manifests r st st' :
  0 < workers a -> 0 < world_size a ->
  cursors_after fs json_loads a paths r st ->
  checkpoint_round fs json_loads shard_ids total_steps a paths manifests st = Ok st' ->
  cursors_after fs json_loads a paths (r + 1) st' /\
  forall i path, paths !! i = Some path ->
    exists manifest c c',
      get_metadata_file fs json_loads path = Ok manifest /\
      sim_next_shard_per_source st !! i = Some c /\
      sim_next_shard_per_source st' !! i = Some c' /\
      c + 1 <= c' <= len manifest.
Proof.
  intros Hw Hws (Hmade & Hlen & Hnonneg & Hcursors) H.
  unfold checkpoint_round in H. inv_bind H. destruct a0 as [[strs totals] nexts].
  unfold get_string_for_epoch in Ha.
  destruct (single_epoch_string_progress _ _ _ _ _ _ _ _ _ _ _ Hnonneg Hlen Hw Hws Ha)
    as (Hlen' & Hprogress).
  do 7 inv_bind H. inversion H; subst st'; clear H.
  unfold cursors_after. simpl.
  assert (0 < workers a * world_size a) as Hpos by nia.
  split; [split; [lia|]; split; [done|]; split|].
  - apply Forall_lookup. intros i c' Hc'.
    destruct (lookup_lt_is_Some_2 paths i) as (path & Hpath).
    { rewrite <- Hlen'. by eapply lookup_lt_Some. }
    destruct (Hprogress i path Hpath) as (manifest & start & next & _ & Hstart & Hnext & Hle).
    assert (next = c') by congruence. subst.
    rewrite Forall_forall in Hnonneg.
    assert (0 <= start) by (apply Hnonneg; by eapply list_elem_of_lookup_2). lia.
  - intros i path Hpath.
    destruct (Hprogress i path Hpath) as (manifest & start & next & Hread & Hstart & Hnext & Hle).
    destruct (Hcursors i path Hpath) as (c & Hc & Hrc & _).
    assert (c = start) by congruence. subst c.
    exists next. split; [done|]. split; [nia|].
    intros manifest' Hread'. assert (manifest' = manifest) by congruence. subst. lia.
  - intros i path Hpath.
    destruct (Hprogress i path Hpath) as (manifest & start & next & Hread & Hstart & Hnext & Hle).
    exists manifest, start, next. split; [done|]. split; [done|]. split; [done|]. nia.
Qed.

Lemma checkpoint_rounds_cursors fs json_loads shard_ids total_steps a paths manifests :
  0 < workers a -> 0 < world_size a ->
  forall fuel r st st',
    cursors_after fs json_loads a paths r st ->
    checkpoint_rounds fs json_loads shard_ids fuel total_steps a paths manifests st = Ok st' ->
    cursors_after fs json_loads a paths (checkpoints_made st') st'.
Proof.
  intros Hw Hws. induction fuel as [|fuel IH]; intros r st st' Hinv H; simpl in H; [done|].
  inv_bind H. rename a0 into more, Ha into Hmore. destruct more.
  - inv_bind H.
    destruct (cursors_after_round _ _ _ _ _ _ _ _ _ _ Hw Hws Hinv Ha) as (Hinv' & _).
    by apply (IH (r + 1) a0).
  - inversion H; subst st'. destruct Hinv as (Hmade & ?). rewrite Hmade. by split.
Qed.




(** X16. With positive numbers of workers and gpus, every checkpoint of the
    pre-count takes at least [workers * world_size] shards of every source:
    when [log_num_checkpoints] returns, the number of checkpoints made times
    the number of workers is at most the number of records of each manifest. *)
Theorem checkpoints_bounded_by_shards fs json_loads is_master shard_ids fuel total_steps a
    paths r :
  dataset_manifest a = Some paths ->
  0 < workers a -> 0 < world_size a ->
  log_num_checkpoints fs json_loads is_master shard_ids fuel total_steps a = Ok r ->
  forall path manifest,
    path ∈ paths ->
    get_metadata_file fs json_loads path = Ok manifest ->
    checkpoints_made (final r) * (workers a * world_size a) <= len manifest.
Proof.
  intros Hpaths Hw Hws H path manifest Hin Hread.
  unfold log_num_checkpoints in H. rewrite Hpaths in H.
  inv_bind H. inv_bind H. inv_bind H. inversion H; subst r; clear H. simpl.
  apply (checkpoint_rounds_cursors _ _ _ _ _ _ _ Hw Hws _ 0) in Ha1
    as (_ & _ & _ & Hcursors); [|apply cursors_after_initial].
  apply list_elem_of_lookup_1 in Hin as (i & Hi).
  destruct (Hcursors i path Hi) as (c & _ & Hle & Hmax).
  specialize (Hmax manifest Hread). lia.
Qed.

Lemma checkpoints_bounded_by_shards_witness :
  2 * (workers (precount_args 1 0) * world_size (precount_args 1 0))
  <= len [ {| shard := Some "shard_0"; num_sequences := Some 4800; num_chunks := None |};
           {| shard := Some "shard_1"; num_sequences := Some 4800; num_chunks := None |} ].
Proof.
  refine (checkpoints_bounded_by_shards two_big_shards_fs json_loads_manifest
            is_master_rank0 shard_ids_simple 3 1000 (precount_args 1 0)
            ["data/manifest.jsonl"]
            {| final := {| steps_done := PyInt 1000;
                           tokens_seen := PyInt (1000 * 8 * 1024);
                           sim_next_shard_per_source := [2];
                           checkpoints_made := 2 |};
               warned := true |} _ _ _ _ "data/manifest.jsonl" _ _ _).
  - reflexivity.
  - reflexivity.
  - reflexivity.
  - vm_compute. reflexivity.
  - apply list_elem_of_singleton. reflexivity.
  - vm_compute. reflexivity.
Defined.

(** ** The pre-count without sources *)

Lemma single_epoch_string_no_source fs json_loads num_samples weights wpg ws :
  (forall w, weights = Some w -> w = []) ->
  _single_epoch_string fs json_loads num_samples [] [] weights wpg ws = Ok ([], [], []).
Proof.
  intros Hw. destruct weights as [w|]; [rewrite (Hw w eq_refl)|]; reflexivity.
Qed.

Lemma num_min_zeros k : num_min (replicate (S k) (PyInt 0)) = Ok (PyInt 0).
Proof. simpl. induction k as [|k IH]; simpl; [done|]. exact IH. Qed.

Lemma checkpoint_round_no_source fs json_loads shard_ids total_steps a steps_before
    tokens_before made :
  (forall w, train_data_mix_weights a = Some w -> w = []) ->
  checkpoint_round fs json_loads shard_ids total_steps a [] []
    {| steps_done := steps_before; tokens_seen := tokens_before;
       sim_next_shard_per_source := []; checkpoints_made := made |}
  = (num_batches_per_gpu <-
       batches_per_gpu (world_size a) (world_size a * workers a) (Scalar 0) ;;
     steps_epoch <- num_min num_batches_per_gpu ;;
     steps <- num_add steps_before steps_epoch ;;
     above <- num_ltb (PyInt total_steps) steps ;;
     let steps := if above then PyInt total_steps else steps in
     batch_tokens <- num_mul steps (PyInt (global_batch_size a)) ;;
     tokens <- num_mul batch_tokens (PyInt (seq_len a)) ;;
     Ok {| steps_done := steps;
           tokens_seen := tokens;
           sim_next_shard_per_source := [];
           checkpoints_made := made + 1 |}).
Proof.
  intros Hw. unfold checkpoint_round, get_string_for_epoch. simpl.
  rewrite (single_epoch_string_no_source _ _ _ _ _ _ Hw). reflexivity.
Qed.

(** X17. With an empty list of manifests and steps to count, the pre-count
    never returns normally. With workers and gpus its first round raises
    [TypeError], when it indexes the [sum] of no array, the integer 0; with
    gpus and no worker every round counts 0 steps and the loop goes on for
    ever (the model is cut off at every bound); with no gpu the first round
    raises [ValueError], from the [min] of no batch count. *)
Theorem precount_without_sources fs json_loads is_master shard_ids total_steps a :
  dataset_manifest a = Some [] ->
  (forall w, train_data_mix_weights a = Some w -> w = []) ->
  0 < total_steps ->
  (0 < world_size a -> 0 < workers a ->
   forall fuel,
     log_num_checkpoints fs json_loads is_master shard_ids (S fuel) total_steps a
     = Raise TypeError) /\
  (0 < world_size a -> workers a <= 0 ->
   forall fuel,
     log_num_checkpoints fs json_loads is_master shard_ids fuel total_steps a = OutOfFuel) /\
  (world_size a <= 0 -> 0 <= workers a ->
   forall fuel,
     log_num_checkpoints fs json_loads is_master shard_ids (S fuel) total_steps a
     = Raise ValueError).
Proof.
  intros Hpaths Hweights Hsteps.
  assert ((0 <? total_steps) = true) as Hlt by (by apply Z.ltb_lt).
  split; [|split].
  - intros Hws Hw fuel. unfold log_num_checkpoints. rewrite Hpaths. simpl.
    rewrite Hlt. simpl. rewrite (checkpoint_round_no_source _ _ _ _ _ _ _ _ Hweights).
    unfold batches_per_gpu. rewrite range_cons by nia. simpl.
    unfold gpu_step at 1, pymod. destruct (Z.eqb_spec (world_size a) 0); [lia|]. simpl.
    rewrite Z.mod_0_l by lia.
    replace (Z.to_nat (world_size a)) with (S (Z.to_nat (world_size a) - 1)) by lia.
    reflexivity.
  - intros Hws Hw fuel. unfold log_num_checkpoints. rewrite Hpaths. simpl.
    assert (forall tokens made,
              checkpoint_rounds fs json_loads shard_ids fuel total_steps a [] []
                {| steps_done := PyInt 0; tokens_seen := tokens;
                   sim_next_shard_per_source := []; checkpoints_made := made |}
              = OutOfFuel) as Hloop.
    { induction fuel as [|fuel IH]; intros tokens made; simpl; [done|].
      rewrite Hlt. simpl. rewrite (checkpoint_round_no_source _ _ _ _ _ _ _ _ Hweights).
      unfold batches_per_gpu. rewrite range_nil by nia. cbn [foldM bind].
      replace (Z.to_nat (world_size a)) with (S (Z.to_nat (world_size a) - 1)) by lia.
      rewrite num_min_zeros. simpl. change (0 + 0) with 0.
      destruct (Z.ltb_spec total_steps 0); [lia|]. simpl.
      apply IH. }
    by rewrite Hloop.
  - intros Hws Hw fuel. unfold log_num_checkpoints. rewrite Hpaths. simpl.
    rewrite Hlt. simpl. rewrite (checkpoint_round_no_source _ _ _ _ _ _ _ _ Hweights).
    unfold batches_per_gpu. rewrite range_nil by nia. simpl.
    replace (Z.to_nat (world_size a)) with 0%nat by lia.
    reflexivity.
Qed.

Lemma precount_without_sources_witness :
  log_num_checkpoints ten_shards_fs json_loads_manifest is_master_rank0 shard_ids_simple
                      1 1000 (no_source_args 1 2)
  = Raise TypeError /\
  log_num_checkpoints ten_shards_fs json_loads_manifest is_master_rank0 shard_ids_simple
                      1000 1000 (no_source_args 0 2)
  = OutOfFuel /\
  log_num_checkpoints ten_shards_fs json_loads_manifest is_master_rank0 shard_ids_simple
                      1 1000 (no_source_args 1 0)
  = Raise ValueError.
Proof.
  split; [|split].
  - refine (proj1 (precount_without_sources ten_shards_fs json_loads_manifest
                     is_master_rank0 shard_ids_simple 1000 (no_source_args 1 2) _ _ _)
                  _ _ 0%nat).
    + reflexivity.
    + intros w Hw. discriminate.
    + reflexivity.
    + reflexivity.
    + reflexivity.
  - refine (proj1 (proj2 (precount_without_sources ten_shards_fs json_loads_manifest
                            is_master_rank0 shard_ids_simple 1000 (no_source_args 0 2) _ _ _))
                  _ _ 1000%nat).
    + reflexivity.
    + intros w Hw. discriminate.
    + reflexivity.
    + reflexivity.
    + discriminate.
  - refine (proj2 (proj2 (precount_without_sources ten_shards_fs json_loads_manifest
                            is_master_rank0 shard_ids_simple 1000 (no_source_args 1 0) _ _ _))
                  _ _ 0%nat).
    + reflexivity.
    + intros w Hw. discriminate.
    + reflexivity.
    + discriminate.
    + discriminate.
Defined.

(** ** Remote sync *)

Lemma same_size_remote_dec b k a_k :
  (match b !! k with
   | Some b_k => len a_k =? len b_k
   | None => false
   end) = true <-> same_size_remote b k a_k.
Proof.
  unfold same_size_remote. destruct (b !! k) as [b_k|].
  - destruct (Z.eqb_spec (len a_k) (len b_k)); split; try done.
    + intros _. by exists b_k.
    + intros (b_k' & [= <-] & ?). done.
  - split; [done|]. intros (? & ? & _). done.
Qed.

Lemma remote_sync_fsspec_spec write_fails a :
  NoDup a.*1 ->
  forall b ok b',
    remote_sync_fsspec write_fails a b = (ok, b') ->
    (forall k, k ∉ a.*1 -> b' !! k = b !! k) /\
    (forall k a_k, (k, a_k) ∈ a -> contains "epoch_latest.pt" k = true ->
       b' !! k = b !! k) /\
    (forall k a_k, (k, a_k) ∈ a -> same_size_remote b k a_k -> b' !! k = b !! k) /\
    (forall k, is_Some (b !! k) -> is_Some (b' !! k)) /\
    (ok = true ->
     forall k a_k, (k, a_k) ∈ a -> contains "epoch_latest.pt" k = false ->
       ~ same_size_remote b k a_k ->
       write_fails k = false /\ b' !! k = Some a_k).
Proof.
  induction a as [|[k0 v0] rest IH]; intros Hnd b ok b' H; simpl in *.
  - inversion H; subst. split; [done|]. split; [done|]. split; [done|]. split; [done|].
    intros _ k a_k Hin. by inversion Hin.
  - apply NoDup_cons in Hnd as [Hk0 Hnd].
    assert (forall k a_k, (k, a_k) ∈ rest -> k ∈ rest.*1 /\ k <> k0) as Hrest.
    { intros k a_k Hin.
      assert (k ∈ rest.*1) as Hk by (apply list_elem_of_fmap; by exists (k, a_k)).
      split; [done|]. intros ->. done. }
    destruct (contains "epoch_latest.pt" k0) eqn:Hskip.
    { destruct (IH Hnd b ok b' H) as (I1 & I2 & I3 & I4 & I5).
      split; [|split; [|split; [|split]]].
      - intros k Hk. apply I1. intros Hin. apply Hk. by constructor.
      - intros k a_k Hin Hc. apply elem_of_cons in Hin as [[= -> ->]|Hin].
        + by apply I1.
        + by apply (I2 k a_k).
      - intros k a_k Hin Hs. apply elem_of_cons in Hin as [[= -> ->]|Hin].
        + by apply I1.
        + by apply (I3 k a_k).
      - done.
      - intros Hok k a_k Hin Hc Hs. apply elem_of_cons in Hin as [[= -> ->]|Hin].
        + congruence.
        + by apply (I5 Hok k a_k). }
    destruct (match b !! k0 with
              | Some b_k => len v0 =? len b_k
              | None => false
              end) eqn:Hsame.
    { apply same_size_remote_dec in Hsame.
      destruct (IH Hnd b ok b' H) as (I1 & I2 & I3 & I4 & I5).
      split; [|split; [|split; [|split]]].
      - intros k Hk. apply I1. intros Hin. apply Hk. by constructor.
      - intros k a_k Hin Hc. apply elem_of_cons in Hin as [[= -> ->]|Hin].
        + by apply I1.
        + by apply (I2 k a_k).
      - intros k a_k Hin Hs. apply elem_of_cons in Hin as [[= -> ->]|Hin].
        + by apply I1.
        + by apply (I3 k a_k).
      - done.
      - intros Hok k a_k Hin Hc Hs. apply elem_of_cons in Hin as [[= -> ->]|Hin].
        + done.
        + by apply (I5 Hok k a_k). }
    assert (~ same_size_remote b k0 v0) as Hdiff.
    { intros Hs. apply same_size_remote_dec in Hs. congruence. }
    destruct (write_fails k0) eqn:Hfail.
    { inversion H; subst. split; [done|]. split; [done|]. split; [done|]. split; [done|].
      done. }
    destruct (IH Hnd (<[k0 := v0]> b) ok b' H) as (I1 & I2 & I3 & I4 & I5).
    split; [|split; [|split; [|split]]].
    + intros k Hk. rewrite I1.
      * apply lookup_insert_ne. intros ->. apply Hk. by constructor.
      * intros Hin. apply Hk. by constructor.
    + intros k a_k Hin Hc. apply elem_of_cons in Hin as [[= -> ->]|Hin]; [congruence|].
      destruct (Hrest k a_k Hin) as [_ Hne].
      rewrite (I2 k a_k Hin Hc). by apply lookup_insert_ne.
    + intros k a_k Hin Hs. apply elem_of_cons in Hin as [[= -> ->]|Hin]; [done|].
      destruct (Hrest k a_k Hin) as [_ Hne].
      rewrite (I3 k a_k Hin).
      * by apply lookup_insert_ne.
      * destruct Hs as (b_k & Hb & Hl). exists b_k. by rewrite lookup_insert_ne.
    + intros k Hk. apply I4. destruct (decide (k = k0)) as [->|Hne].
      * rewrite lookup_insert_eq. by eexists.
      * by rewrite lookup_insert_ne.
    + intros Hok k a_k Hin Hc Hs. apply elem_of_cons in Hin as [[= -> ->]|Hin].
      * split; [done|]. rewrite (I1 k0 Hk0). apply lookup_insert_eq.
      * destruct (Hrest k a_k Hin) as [_ Hne].
        apply (I5 Hok k a_k Hin Hc).
        intros (b_k & Hb & Hl). apply Hs. exists b_k.
        rewrite lookup_insert_ne in Hb by done. done.
Qed.

(** X18. When [remote_sync_fsspec] answers [True], every local key that does
    not contain [epoch_latest.pt] is in the remote store with bytes of the
    same length as the local ones: the local bytes themselves when the sync
    wrote the key, the bytes the remote store had when they were of that
    length already. *)
Theorem remote_sync_leaves_same_sizes write_fails a b b' :
  NoDup a.*1 ->
  remote_sync_fsspec write_fails a b = (true, b') ->
  forall k a_k, (k, a_k) ∈ a -> contains "epoch_latest.pt" k = false ->
    same_size_remote b' k a_k /\
    (same_size_remote b k a_k -> b' !! k = b !! k) /\
    (~ same_size_remote b k a_k -> b' !! k = Some a_k).
Proof.
  intros Hnd H k a_k Hin Hc.
  destruct (remote_sync_fsspec_spec write_fails a Hnd b true b' H) as (_ & _ & I3 & _ & I5).
  assert (same_size_remote b k a_k -> b' !! k = b !! k) as Hkeep by (by apply I3).
  assert (~ same_size_remote b k a_k -> b' !! k = Some a_k) as Hwrite
    by (intros Hs; by apply (I5 eq_refl k a_k)).
  split; [|by split].
  destruct (same_size_remote_dec b k a_k) as [_ Hdec].
  destruct (match b !! k with Some b_k => len a_k =? len b_k | None => false end) eqn:E.
  - assert (same_size_remote b k a_k) as Hs by (apply same_size_remote_dec; by rewrite E).
    destruct Hs as (b_k & Hb & Hl). exists b_k. split; [|done].
    rewrite Hkeep; [done|]. by exists b_k.
  - exists a_k. split; [|done]. apply Hwrite. intros Hs.
    apply same_size_remote_dec in Hs. congruence.
Qed.

Lemma remote_sync_leaves_same_sizes_witness :
  same_size_remote (<[ "epoch_1.pt"%string := [Byte.x01; Byte.x02] ]> remote_checkpoints)
                   "epoch_1.pt" [Byte.x01; Byte.x02] /\
  (same_size_remote remote_checkpoints "epoch_1.pt" [Byte.x01; Byte.x02] ->
   (<[ "epoch_1.pt"%string := [Byte.x01; Byte.x02] ]> remote_checkpoints) !! "epoch_1.pt"%string
   = remote_checkpoints !! "epoch_1.pt"%string) /\
  (~ same_size_remote remote_checkpoints "epoch_1.pt" [Byte.x01; Byte.x02] ->
   (<[ "epoch_1.pt"%string := [Byte.x01; Byte.x02] ]> remote_checkpoints) !! "epoch_1.pt"%string
   = Some [Byte.x01; Byte.x02]).
Proof.
  apply (remote_sync_leaves_same_sizes (fun _ => false) local_checkpoints remote_checkpoints).
  - apply (bool_decide_unpack _). vm_compute. exact I.
  - vm_compute. reflexivity.
  - apply list_elem_of_here.
  - vm_compute. reflexivity.
Defined.

(** X19. Whatever it answers, [remote_sync_fsspec] takes nothing away from
    the remote store and changes no key that is not a local key; it does not
    write a key that contains [epoch_latest.pt]; and it leaves alone a remote
    key whose bytes have the length of the local ones, even when the bytes
    differ. *)
Theorem remote_sync_never_touches write_fails a b ok b' :
  NoDup a.*1 ->
  remote_sync_fsspec write_fails a b = (ok, b') ->
  (forall k, is_Some (b !! k) -> is_Some (b' !! k)) /\
  (forall k, k ∉ a.*1 -> b' !! k = b !! k) /\
  (forall k a_k, (k, a_k) ∈ a -> contains "epoch_latest.pt" k = true -> b' !! k = b !! k) /\
  (forall k a_k b_k, (k, a_k) ∈ a -> b !! k = Some b_k -> len a_k = len b_k ->
     b' !! k = Some b_k).
Proof.
  intros Hnd H.
  destruct (remote_sync_fsspec_spec write_fails a Hnd b ok b' H) as (I1 & I2 & I3 & I4 & _).
  split; [done|]. split; [done|]. split; [done|].
  intros k a_k b_k Hin Hb Hl. rewrite (I3 k a_k Hin); [done|]. by exists b_k.
Qed.

Lemma remote_sync_never_touches_witness :
  (<[ "epoch_1.pt"%string := [Byte.x01; Byte.x02] ]> remote_checkpoints) !! "results.jsonl"%string
  = Some [Byte.x05] /\
  (<[ "epoch_1.pt"%string := [Byte.x01; Byte.x02] ]> remote_checkpoints)
    !! "epoch_latest.pt"%string
  = remote_checkpoints !! "epoch_latest.pt"%string.
Proof.
  pose proof (remote_sync_never_touches (fun _ => false) local_checkpoints remote_checkpoints
                true (<[ "epoch_1.pt"%string := [Byte.x01; Byte.x02] ]> remote_checkpoints))
    as H.
  destruct H as (_ & _ & Hlatest & Hstale).
  - apply (bool_decide_unpack _). vm_compute. exact I.
  - vm_compute. reflexivity.
  - split.
    + apply (Hstale "results.jsonl"%string [Byte.x04] [Byte.x05]).
      * apply list_elem_of_further, list_elem_of_further, list_elem_of_here.
      * vm_compute. reflexivity.
      * reflexivity.
    + apply (Hlatest "epoch_latest.pt"%string [Byte.x03]).
      * apply list_elem_of_further, list_elem_of_here.
      * vm_compute. reflexivity.
Defined.

Lemma remote_sync_fsspec_failure write_fails a :
  NoDup a.*1 ->
  forall b b',
    remote_sync_fsspec write_fails a b = (false, b') ->
    exists k a_k,
      (k, a_k) ∈ a /\ contains "epoch_latest.pt" k = false /\
      ~ same_size_remote b k a_k /\ write_fails k = true.
Proof.
  induction a as [|[k0 v0] rest IH]; intros Hnd b b' H; simpl in *; [congruence|].
  apply NoDup_cons in Hnd as [Hk0 Hnd].
  destruct (contains "epoch_latest.pt" k0) eqn:Hskip.
  { destruct (IH Hnd b b' H) as (k & a_k & Hin & Hrest).
    exists k, a_k. split; [by constructor|done]. }
  destruct (match b !! k0 with
            | Some b_k => len v0 =? len b_k
            | None => false
            end) eqn:Hsame.
  { destruct (IH Hnd b b' H) as (k & a_k & Hin & Hrest).
    exists k, a_k. split; [by constructor|done]. }
  assert (~ same_size_remote b k0 v0) as Hdiff.
  { intros Hs. apply same_size_remote_dec in Hs. congruence. }
  destruct (write_fails k0) eqn:Hfail.
  { exists k0, v0. split; [by constructor|done]. }
  destruct (IH Hnd (<[k0 := v0]> b) b' H) as (k & a_k & Hin & Hc & Hs & Hf).
  exists k, a_k. split; [by constructor|]. split; [done|]. split; [|done].
  intros (b_k & Hb & Hl). apply Hs. exists b_k. split; [|done].
  rewrite lookup_insert_ne; [done|]. intros <-. apply Hk0.
  apply list_elem_of_fmap. by exists (k0, a_k).
Qed.

(** X20. [remote_sync_fsspec] answers [False] exactly when the write of some
    local key raises that the sync has to write: a key that does not contain
    [epoch_latest.pt] and for which the remote store has no bytes of the
    same length. *)
Theorem remote_sync_fails_iff write_fails a b ok b' :
  NoDup a.*1 ->
  remote_sync_fsspec write_fails a b = (ok, b') ->
  (ok = false <->
   exists k a_k,
     (k, a_k) ∈ a /\ contains "epoch_latest.pt" k = false /\
     ~ same_size_remote b k a_k /\ write_fails k = true).
Proof.
  intros Hnd H. split.
  - intros ->. by eapply remote_sync_fsspec_failure.
  - intros (k & a_k & Hin & Hc & Hs & Hf).
    destruct ok; [|done]. exfalso.
    destruct (remote_sync_fsspec_spec write_fails a Hnd b true b' H) as (_ & _ & _ & _ & I5).
    destruct (I5 eq_refl k a_k Hin Hc Hs) as [Hok _]. congruence.
Qed.

Lemma remote_sync_fails_iff_witness :
  false = false <->
  exists k a_k,
    (k, a_k) ∈ local_checkpoints /\ contains "epoch_latest.pt" k = false /\
    ~ same_size_remote remote_checkpoints k a_k /\ (fun _ : string => true) k = true.
Proof.
  apply (remote_sync_fails_iff (fun _ => true) local_checkpoints remote_checkpoints false
           remote_checkpoints).
  - apply (bool_decide_unpack _). vm_compute. exact I.
  - vm_compute. reflexivity.
Defined.
